(** * AsTTYSpy: a shallow embedding of [asttyspy.c]

    The program relays text between a terminal and an Asterisk channel
    through the manager interface (AMI).  The embedding keeps the program's
    static variables in a record, threads them through a small monad
    together with the environment (terminal, AMI server, heap), and records
    every externally visible call in a trace, oldest call first.

    C strings are modelled by the [string] of their characters before the
    terminating NUL; raw buffers ([dialnum], the byte read into [tmpbuf],
    the bytes [fgets] stores) are lists of characters and become C strings
    through [cstr].

    The program has two threads: the main thread, which spends its time in
    [poll], and the thread of the manager client, which calls
    [ami_callback] and [simple_disconnect_callback].  The schedule that
    drives the main thread says what happens at each [poll]: the call
    returns, or a callback or the signal handler runs first.  A callback
    that arrives while the main thread is inside [send_msg] waits for
    [ttymutex] and so runs after it; the mutex itself leaves no trace.
    Freeing memory ([free], [ami_resp_free], [ami_event_free]) is not
    modelled.  The trace records the output calls; [on_terminal] reads
    from a trace what has reached the terminal and what the buffer of
    [stdout] still holds back. *)

From Stdlib Require Import ZArith List String Ascii Bool Lia DecimalString.
Import ListNotations.
Local Open Scope string_scope.
Local Open Scope list_scope.
Local Open Scope Z_scope.

Infix "+++" := String.append (right associativity, at level 60).

(** ** Characters and C strings *)

Definition NUL : ascii := "000"%char.
Definition LF : ascii := "010"%char.
Definition CR : ascii := "013"%char.
Definition KEY_ESCAPE : ascii := "027"%char.

Definition str1 (c : ascii) : string := String c EmptyString.
Definition nl : string := str1 LF.
Definition crlf : string := String CR nl.

(** The C string held by a buffer: the bytes before the first NUL. *)
Fixpoint cstr (bytes : list ascii) : string :=
  match bytes with
  | [] => EmptyString
  | c :: rest => if Ascii.eqb c NUL then EmptyString else String c (cstr rest)
  end.

Definition code (c : ascii) : Z := Z.of_N (N_of_ascii c).

(** <ctype.h> in the C locale. *)
Definition isdigit (c : ascii) : bool := (48 <=? code c) && (code c <=? 57).
Definition isspace (c : ascii) : bool :=
  (code c =? 32) || ((9 <=? code c) && (code c <=? 13)).
Definition tolower (c : ascii) : ascii :=
  if (65 <=? code c) && (code c <=? 90)
  then ascii_of_N (N_of_ascii c + 32) else c.

(** [strcasecmp(a, b) == 0]. *)
Fixpoint strcasecmp_eq (a b : string) : bool :=
  match a, b with
  | EmptyString, EmptyString => true
  | String x a', String y b' => Ascii.eqb (tolower x) (tolower y) && strcasecmp_eq a' b'
  | _, _ => false
  end.

(** [strchr(s, c) != NULL] for a character other than NUL. *)
Fixpoint strchr (s : string) (c : ascii) : bool :=
  match s with
  | EmptyString => false
  | String x s' => Ascii.eqb x c || strchr s' c
  end.

(** A C [int]: the value of a wider integer after conversion to 32 bits. *)
Definition to_int (z : Z) : Z := (z + 2147483648) mod 4294967296 - 2147483648.

(** [atoi]: leading white space, an optional sign, then decimal digits; the
    rest of the string is ignored.  As in glibc the value is that of
    [strtol] converted to [int]. *)
Fixpoint atoi_digits (s : string) (acc : Z) : Z :=
  match s with
  | EmptyString => acc
  | String c s' => if isdigit c then atoi_digits s' (10 * acc + (code c - 48)) else acc
  end.

Definition atoi_signed (s : string) : Z :=
  match s with
  | String "-" s' => - atoi_digits s' 0
  | String "+" s' => atoi_digits s' 0
  | _ => atoi_digits s 0
  end.

Fixpoint atoi_long (s : string) : Z :=
  match s with
  | EmptyString => 0
  | String c s' => if isspace c then atoi_long s' else atoi_signed s
  end.

Definition atoi (s : string) : Z := to_int (atoi_long s).

(** ** printf *)

Inductive arg : Type :=
| AStr (s : option string)   (* a [char *]; [None] is the null pointer *)
| AInt (z : Z)
| AChr (c : ascii).

Definition string_of_Z (z : Z) : string := NilZero.string_of_int (Z.to_int z).

Fixpoint spaces (n : nat) : string :=
  match n with
  | O => EmptyString
  | S n' => String " " (spaces n')
  end.

Definition pad (ljust : bool) (width : nat) (s : string) : string :=
  let fill := spaces (width - String.length s) in
  if ljust then s +++ fill else fill +++ s.

(** Text of one conversion; glibc prints a null [%s] argument as (null). *)
Definition conv (c : ascii) (a : arg) : string :=
  match a with
  | AStr (Some s) => s
  | AStr None => "(null)"
  | AInt z => if Ascii.eqb c "c" then str1 (ascii_of_N (Z.to_N (z mod 256))) else string_of_Z z
  | AChr x => if Ascii.eqb c "d" then string_of_Z (code x) else str1 x
  end.

(** The conversions this program uses: [%s], [%d], [%c], with an optional
    [-] flag and field width.  [spec] is [None] in ordinary text and holds
    the flag and width read so far inside a conversion specification. *)
Fixpoint format (fmt : string) (spec : option (bool * nat)) (args : list arg) : string :=
  match fmt with
  | EmptyString => EmptyString
  | String c fmt' =>
      match spec with
      | None =>
          if Ascii.eqb c "%" then format fmt' (Some (false, O)) args
          else String c (format fmt' None args)
      | Some (ljust, width) =>
          if Ascii.eqb c "-" then format fmt' (Some (true, width)) args
          else if isdigit c
          then format fmt' (Some (ljust, (10 * width + Z.to_nat (code c - 48))%nat)) args
          else if Ascii.eqb c "%" then String c (format fmt' None args)
          else match args with
               | a :: args' => pad ljust width (conv c a) +++ format fmt' None args'
               | [] => format fmt' None args
               end
      end
  end.

Definition sprintf (fmt : string) (args : list arg) : string := format fmt None args.

Example sprintf_row :
  sprintf ("%4d | %-8s | %3s" +++ nl) [AInt 7; AStr (Some "SIP/a"); AStr None]
  = "   7 | SIP/a    | (null)" +++ nl.
Proof. reflexivity. Qed.

Example atoi_examples :
  atoi ("12" +++ nl) = 12 /\ atoi " -3x" = -3 /\ atoi "q" = 0 /\ atoi "4294967297" = 1.
Proof. repeat split; reflexivity. Qed.

(** ** The terminal, the manager interface and the process state *)

(** [struct termios], its flag words.  [ICANON] and [ECHO] have the values
    of <termios.h> on Linux. *)
Record termios : Type := mk_termios {
  c_iflag : Z;
  c_oflag : Z;
  c_cflag : Z;
  c_lflag : Z
}.

Definition ICANON : Z := 2.
Definition ECHO : Z := 8.

Definition clear_lflag (bit : Z) (t : termios) : termios :=
  mk_termios (c_iflag t) (c_oflag t) (c_cflag t) (Z.land (c_lflag t) (Z.lnot bit)).

(** An AMI event is a sequence of key/value fields; [ami_keyvalue] returns
    the value of the first field with the given key, or the null pointer. *)
Definition ami_event : Type := list (string * string).

Fixpoint ami_keyvalue (event : ami_event) (key : string) : option string :=
  match event with
  | [] => None
  | (k, v) :: rest => if String.eqb k key then Some v else ami_keyvalue rest key
  end.

(** [struct ami_response]: [events[0 .. size-1]]. *)
Definition ami_response : Type := list ami_event.
Definition size (resp : ami_response) : Z := Z.of_nat (List.length resp).

(** Externally visible calls, in program order. *)
Inductive effect : Type :=
| Printf (fmt : string) (args : list arg)
| FprintfStderr (fmt : string) (args : list arg)
| Fflush
| Tcsetattr (t : termios)
| SignalSigint
| AmiAction (name fmt : string) (args : list arg)
| AmiShowChannels
| AmiDisconnect
| Usleep (usec : Z).

(** The program's static variables. *)
Record globals : Type := mk_globals {
  ttychan : string;
  origterm : termios;
  ttyterm : termios;
  new_channel : Z;
  our_turn : Z;
  tty_active : Z;
  always_refresh : Z
}.

Definition set_ttychan (v : string) (g : globals) : globals :=
  mk_globals v (origterm g) (ttyterm g) (new_channel g) (our_turn g) (tty_active g) (always_refresh g).
Definition set_origterm (v : termios) (g : globals) : globals :=
  mk_globals (ttychan g) v (ttyterm g) (new_channel g) (our_turn g) (tty_active g) (always_refresh g).
Definition set_ttyterm (v : termios) (g : globals) : globals :=
  mk_globals (ttychan g) (origterm g) v (new_channel g) (our_turn g) (tty_active g) (always_refresh g).
Definition set_new_channel (v : Z) (g : globals) : globals :=
  mk_globals (ttychan g) (origterm g) (ttyterm g) v (our_turn g) (tty_active g) (always_refresh g).
Definition set_our_turn (v : Z) (g : globals) : globals :=
  mk_globals (ttychan g) (origterm g) (ttyterm g) (new_channel g) v (tty_active g) (always_refresh g).
Definition set_tty_active (v : Z) (g : globals) : globals :=
  mk_globals (ttychan g) (origterm g) (ttyterm g) (new_channel g) (our_turn g) v (always_refresh g).

(** What one [read] on the terminal delivers: an error, or the bytes that
    are available (none at end of input). *)
Inductive stdin_item : Type :=
| RdErr
| RdData (bytes : list ascii).

(** The process together with its environment.  The environment answers
    the program's calls in order: [stdin] the reads on the terminal,
    [ami_results] the results of the actions sent
    ([ami_action_response_result]), [chan_lists] the replies to the channel
    queries, [heap] whether the coming [strdup] calls succeed (they do once
    the list is used up), [stack] the bytes lying where the uninitialised
    [dialnum] is allocated (NUL beyond the list). *)
Record world : Type := mk_world {
  vars : globals;
  term : termios;
  stdin : list stdin_item;
  ami_results : list Z;
  chan_lists : list (option ami_response);
  heap : list bool;
  stack : list ascii;
  trace : list effect
}.

Definition set_vars (g : globals) (w : world) : world :=
  mk_world g (term w) (stdin w) (ami_results w) (chan_lists w) (heap w) (stack w) (trace w).
Definition set_term (t : termios) (w : world) : world :=
  mk_world (vars w) t (stdin w) (ami_results w) (chan_lists w) (heap w) (stack w) (trace w).
Definition set_stdin (q : list stdin_item) (w : world) : world :=
  mk_world (vars w) (term w) q (ami_results w) (chan_lists w) (heap w) (stack w) (trace w).
Definition set_ami_results (q : list Z) (w : world) : world :=
  mk_world (vars w) (term w) (stdin w) q (chan_lists w) (heap w) (stack w) (trace w).
Definition set_chan_lists (q : list (option ami_response)) (w : world) : world :=
  mk_world (vars w) (term w) (stdin w) (ami_results w) q (heap w) (stack w) (trace w).
Definition set_heap (q : list bool) (w : world) : world :=
  mk_world (vars w) (term w) (stdin w) (ami_results w) (chan_lists w) q (stack w) (trace w).
Definition log (e : effect) (w : world) : world :=
  mk_world (vars w) (term w) (stdin w) (ami_results w) (chan_lists w) (heap w) (stack w)
           (trace w ++ [e]).

(** ** The monad of the program *)

(** A call returns a value, or the process exits, or it waits for ever on an
    environment that delivers nothing more, or it runs into undefined
    behaviour (a null or out-of-bounds read).  [OutOfFuel] is the result of a
    loop unrolled fewer times than it runs; the entry points below give
    their loops enough fuel. *)
Inductive outcome (A : Type) : Type :=
| Ret (a : A) (w : world)
| Exited (status : Z) (w : world)
| Blocked (w : world)
| Undefined (w : world)
| OutOfFuel.

Arguments Ret {A} a w.
Arguments Exited {A} status w.
Arguments Blocked {A} w.
Arguments Undefined {A} w.
Arguments OutOfFuel {A}.

Definition M (A : Type) : Type := world -> outcome A.

Definition ret {A} (a : A) : M A := fun w => Ret a w.

Definition bind {A B} (c : M A) (k : A -> M B) : M B :=
  fun w =>
    match c w with
    | Ret a w' => k a w'
    | Exited status w' => Exited status w'
    | Blocked w' => Blocked w'
    | Undefined w' => Undefined w'
    | OutOfFuel => OutOfFuel
    end.

Declare Scope prog_scope.
Delimit Scope prog_scope with prog.
Notation "x <- c ;; k" := (bind c (fun x => k))
  (at level 100, c at next level, right associativity) : prog_scope.
Notation "c ;; k" := (bind c (fun _ => k))
  (at level 100, right associativity) : prog_scope.
Local Open Scope prog_scope.

Definition EXIT_FAILURE : Z := 1.

Definition exit {A} (status : Z) : M A := fun w => Exited status w.
Definition block {A} : M A := fun w => Blocked w.
Definition undefined {A} : M A := fun w => Undefined w.

(** Dereference of a pointer that may be null. *)
Definition deref {A} (p : option A) : M A :=
  match p with
  | Some a => ret a
  | None => undefined
  end.

Definition var {A} (field : globals -> A) : M A := fun w => Ret (field (vars w)) w.
Definition assign (set : globals -> globals) : M unit := fun w => Ret tt (set_vars (set (vars w)) w).
Definition emit (e : effect) : M unit := fun w => Ret tt (log e w).

Definition printf (fmt : string) (args : list arg) : M unit := emit (Printf fmt args).
Definition fprintf_stderr (fmt : string) (args : list arg) : M unit := emit (FprintfStderr fmt args).
Definition fflush_stdout : M unit := emit Fflush.
Definition usleep (usec : Z) : M unit := emit (Usleep usec).
Definition ami_disconnect : M unit := emit AmiDisconnect.
Definition signal_sigint : M unit := emit SignalSigint.

Definition tcgetattr : M termios := fun w => Ret (term w) w.
Definition tcsetattr (t : termios) : M unit := fun w => Ret tt (log (Tcsetattr t) (set_term t w)).

Definition strdup (s : string) : M (option string) :=
  fun w =>
    match heap w with
    | false :: rest => Ret None (set_heap rest w)
    | true :: rest => Ret (Some s) (set_heap rest w)
    | [] => Ret (Some s) w
    end.

(** [ami_action_response_result(ami_action(name, fmt, ...))]: the action is
    sent, the call waits for the reply and returns zero on success. *)
Definition ami_action (name fmt : string) (args : list arg) : M Z :=
  fun w =>
    let w' := log (AmiAction name fmt args) w in
    match ami_results w' with
    | [] => Blocked w'
    | r :: rest => Ret r (set_ami_results rest w')
    end.

Definition ami_action_show_channels : M (option ami_response) :=
  fun w =>
    let w' := log AmiShowChannels w in
    match chan_lists w' with
    | [] => Blocked w'
    | r :: rest => Ret r (set_chan_lists rest w')
    end.

(** [read(STDIN_FILENO, buf, n)]: [None] for -1, otherwise the bytes stored;
    what the terminal delivered beyond [n] bytes stays for the next read. *)
Definition push_back (bytes : list ascii) (q : list stdin_item) : list stdin_item :=
  match bytes with
  | [] => q
  | _ :: _ => RdData bytes :: q
  end.

Definition read (n : nat) : M (option (list ascii)) :=
  fun w =>
    match stdin w with
    | [] => Blocked w
    | RdErr :: q => Ret None (set_stdin q w)
    | RdData bytes :: q =>
        Ret (Some (firstn n bytes)) (set_stdin (push_back (skipn n bytes) q) w)
    end.

(** [fgets(buf, room + 1, stdin)]: characters are taken up to and including
    the first newline, at most [room] of them, over as many reads as it
    takes; the result is the null pointer on an error, or at end of input
    with nothing taken. *)
Fixpoint take_line (room : nat) (bytes : list ascii) : list ascii * list ascii * bool :=
  match room, bytes with
  | O, _ => ([], bytes, true)
  | _, [] => ([], [], false)
  | S room', c :: rest =>
      if Ascii.eqb c LF then ([c], rest, true)
      else let '(taken, more, full) := take_line room' rest in (c :: taken, more, full)
  end.

Fixpoint fgets_from (q : list stdin_item) (room : nat) (acc : list ascii)
  : option (option (list ascii) * list stdin_item) :=
  match q with
  | [] => None
  | RdErr :: q' => Some (None, q')
  | RdData [] :: q' => Some (match acc with [] => None | _ :: _ => Some acc end, q')
  | RdData bytes :: q' =>
      let '(taken, more, full) := take_line room bytes in
      if full then Some (Some (acc ++ taken), push_back more q')
      else fgets_from q' (room - List.length taken) (acc ++ taken)
  end.

Definition fgets (bufsize : nat) : M (option (list ascii)) :=
  fun w =>
    match fgets_from (stdin w) (bufsize - 1) [] with
    | None => Blocked (set_stdin [] w)
    | Some (r, q) => Ret r (set_stdin q w)
    end.

(** ** The program *)

Definition ESC : string := str1 KEY_ESCAPE.

Definition TTY_MENU_OPTS : string :=
  "ESC +" +++ " [H] Help" +++ " [Q] Quit" +++ " [1] Dial Number" +++ " [2] Hangup"
  +++ " [4] Send Greeting" +++ " [8] Clear Screen" +++ nl.

Definition TTY_RX_OPTIONS : string := "b(1)s".
Definition TERM_CLEAR : string := ESC +++ "[1;1H" +++ ESC +++ "[2J".

Definition topology_event (eventname : string) : bool :=
  String.eqb eventname "Newchannel" || String.eqb eventname "Hangup"
  || String.eqb eventname "DeviceStateChange".

(** The loop over [msgdup] in [ami_callback]: replace _ with space. *)
Fixpoint underscores_to_spaces (s : string) : string :=
  match s with
  | EmptyString => EmptyString
  | String c s' => String (if Ascii.eqb c "_" then " "%char else c) (underscores_to_spaces s')
  end.

(** The loop over [ttymsg] in [send_msg]: replace spaces with _ for AMI. *)
Fixpoint spaces_to_underscores (s : string) : string :=
  match s with
  | EmptyString => EmptyString
  | String c s' => String (if Ascii.eqb c " " then "_"%char else c) (spaces_to_underscores s')
  end.

(** Callback function executing asynchronously when new events are
    available.  The part between lock and unlock of [ttymutex] runs as one
    step, as does the critical section of [send_msg]. *)
Definition ami_callback (event : ami_event) : M unit :=
  let eventname := ami_keyvalue event "Event" in
  active <- var tty_active ;;
  topology <- (if active =? 1
               then name <- deref eventname ;; ret (topology_event name)
               else ret false) ;;
  if topology then assign (set_new_channel 1)
  else if active <? 2 then ret tt
  else
    name <- deref eventname ;;
    if negb (String.eqb name "TddRxMsg") then ret tt
    else
      channel <- deref (ami_keyvalue event "Channel") ;;
      chan <- var ttychan ;;
      if negb (String.eqb channel chan) then ret tt
      else
        let msg := ami_keyvalue event "Message" in
        turn <- var our_turn ;;
        (if negb (turn =? 0)
         then printf (nl +++ "TTY: ") [] ;; assign (set_our_turn 0)
         else ret tt) ;;
        text <- deref msg ;;
        (if String.eqb text "\n" then printf nl []
         else
           msgdup <- strdup text ;;
           match msgdup with
           | Some dup => printf "%s" [AStr (Some (underscores_to_spaces dup))]
           | None => ret tt
           end) ;;
        fflush_stdout.

Definition simple_disconnect_callback : M unit :=
  fprintf_stderr (nl +++ "AMI was forcibly disconnected..." +++ nl) [] ;;
  exit EXIT_FAILURE.

Definition restore_term (num : Z) : M unit :=
  assign (set_tty_active 0) ;;
  orig <- var origterm ;;
  tcsetattr orig ;;
  ami_disconnect ;;
  fprintf_stderr (nl +++ "AsTTYSpy exiting..." +++ nl) [] ;;
  exit EXIT_FAILURE.

(** What happens while the main thread sits in [poll]: the call returns, or
    the manager-client thread delivers an event or reports a forced
    disconnect, or the interrupt signal arrives. *)
Inductive poll_result : Type := PollIntr | PollFail | PollTimeout | PollReady.

Inductive sched_event : Type :=
| Poll (r : poll_result)
| AmiEvent (event : ami_event)
| AmiDisconnected
| Sigint.

Definition SIGINT : Z := 2.

Definition asynchronous (e : sched_event) : M unit :=
  match e with
  | Poll _ => ret tt
  | AmiEvent event => ami_callback event
  | AmiDisconnected => simple_disconnect_callback
  | Sigint => restore_term SIGINT
  end.

Fixpoint wait_for_input (timeout : Z) (sched : list sched_event)
  : M (Z * list sched_event) :=
  match sched with
  | [] => block
  | Poll PollIntr :: sched' => wait_for_input timeout sched'
  | Poll PollFail :: sched' => ret (-1, sched')
  | Poll PollReady :: sched' => ret (1, sched')
  | Poll PollTimeout :: sched' => ret (0, sched')
  | e :: sched' => asynchronous e ;; wait_for_input timeout sched'
  end.

Definition IS_DTMF (x : ascii) : bool :=
  isdigit x || ((code "A" <=? code x) && (code x <=? code "D"))
  || Ascii.eqb x "*" || Ascii.eqb x "#".

Definition send_dtmf (digit : ascii) : M Z :=
  chan <- var ttychan ;;
  ami_action "PlayDTMF" ("Channel:%s" +++ crlf +++ "Digit:%c") [AStr (Some chan); AChr digit].

Definition send_msg (typed : string) : M Z :=
  dup <- strdup typed ;;
  match dup with
  | None => ret (-1)
  | Some ttymsg =>
      let ttymsg := spaces_to_underscores ttymsg in
      chan <- var ttychan ;;
      res <- ami_action "TddTx" ("Channel:%s" +++ crlf +++ "Message:%s")
                        [AStr (Some chan); AStr (Some ttymsg)] ;;
      turn <- var our_turn ;;
      (if (res =? 0) && (turn =? 0)
       then printf (nl +++ "CA : ") [] ;; assign (set_our_turn 1)
       else ret tt) ;;
      printf "%s" [AStr (Some typed)] ;;
      (if negb (res =? 0)
       then fprintf_stderr (nl +++ "*** CALL DISCONNECTED ***" +++ nl) []
       else fflush_stdout) ;;
      ret res
  end.

(** *** The input loop *)

(** The variables of [handle_input] that live across iterations. *)
Record locals : Type := mk_locals {
  dtmf_mode : Z;
  got_escape : Z;
  dialnum : list ascii
}.

Definition set_dtmf_mode (v : Z) (l : locals) : locals := mk_locals v (got_escape l) (dialnum l).
Definition set_got_escape (v : Z) (l : locals) : locals := mk_locals (dtmf_mode l) v (dialnum l).
Definition set_dialnum (v : list ascii) (l : locals) : locals := mk_locals (dtmf_mode l) (got_escape l) v.

(** How one pass through a loop body ends. *)
Inductive ctl (L : Type) : Type :=
| Continue (l : L)
| Return (v : Z).

Arguments Continue {L} l.
Arguments Return {L} v.

(** [sizeof(dialnum)] *)
Definition DIALNUM_SIZE : nat := 64.

(** The array as it is found on entry: never initialised. *)
Definition uninitialised (n : nat) (w : world) : list ascii :=
  firstn n (stack w ++ repeat NUL n).

(** [read] stores the bytes it got at the start of the buffer. *)
Definition store (bytes buf : list ascii) : list ascii :=
  bytes ++ skipn (List.length bytes) buf.

(** Send number as DTMF: [while ( *current_digit ) ...] over what [dialnum]
    holds from [current_digit] on; nothing stops the scan at the end of the
    array but a NUL. *)
Fixpoint send_number (digits : list ascii) : M (ctl unit) :=
  match digits with
  | [] => undefined
  | c :: rest =>
      if Ascii.eqb c NUL then ret (Continue tt)
      else if IS_DTMF c
      then res <- send_dtmf c ;;
           if negb (res =? 0) then ret (Return (-1))
           else usleep 100000 ;; send_number rest
      else send_number rest
  end.

(** Control actions: the [switch] on the key that follows ESC. *)
Definition control_action (key : ascii) (l : locals) : M (ctl locals) :=
  if Ascii.eqb key "q" || Ascii.eqb key "Q" then ret (Return (-1))
  else if Ascii.eqb key "h" || Ascii.eqb key "H"
  then printf (nl +++ TTY_MENU_OPTS) [] ;; fflush_stdout ;; ret (Continue l)
  else if Ascii.eqb key "d"
  then ret (Continue (set_dtmf_mode (if negb (dtmf_mode l =? 0) then 0 else 1) l))
  else if Ascii.eqb key "1"
  then printf (nl +++ "NBR: ") [] ;;
       fflush_stdout ;;
       orig <- var origterm ;;
       tcsetattr orig ;;
       digits_read <- read DIALNUM_SIZE ;;
       tty <- var ttyterm ;;
       tcsetattr tty ;;
       match digits_read with
       | None | Some [] => ret (Continue l)
       | Some bytes =>
           let l := set_dialnum (store bytes (dialnum l)) l in
           sent <- send_number (dialnum l) ;;
           match sent with
           | Return v => ret (Return v)
           | Continue _ => ret (Continue l)
           end
       end
  else if Ascii.eqb key "2" then ret (Return 0)
  else if Ascii.eqb key "4"
  then res <- send_msg "HELLO GA" ;;
       if negb (res =? 0) then ret (Return (-1)) else ret (Continue l)
  else if Ascii.eqb key "8"
  then printf TERM_CLEAR [] ;; fflush_stdout ;; ret (Continue l)
  else ret (Continue l).

(** One pass through the loop once [poll] has reported input. *)
Definition handle_input_ready (l : locals) : M (ctl locals) :=
  num_read <- read 1 ;;
  match num_read with
  | None | Some [] => ret (Return (-1))
  | Some (key :: _) =>
      if Ascii.eqb key KEY_ESCAPE then ret (Continue (set_got_escape 1 l))
      else
        let esc_mode := negb (got_escape l =? 0) in
        let l := if esc_mode then set_got_escape 0 l else l in
        if esc_mode then control_action key l
        else if negb (dtmf_mode l =? 0) && IS_DTMF key
        then res <- send_dtmf key ;;
             if negb (res =? 0) then ret (Return (-1)) else ret (Continue l)
        else res <- send_msg (cstr [key]) ;;
             if negb (res =? 0) then ret (Return (-1)) else ret (Continue l)
  end.

Fixpoint handle_input_loop (sched : list sched_event) (l : locals)
  : M (Z * list sched_event) :=
  match sched with
  | [] => block
  | Poll PollIntr :: sched' => handle_input_loop sched' l
  | Poll PollFail :: sched' => ret (-1, sched')
  | Poll PollTimeout :: sched' => handle_input_loop sched' l
  | Poll PollReady :: sched' =>
      pass <- handle_input_ready l ;;
      match pass with
      | Continue l' => handle_input_loop sched' l'
      | Return v => ret (v, sched')
      end
  | e :: sched' => asynchronous e ;; handle_input_loop sched' l
  end.

Definition handle_input (sched : list sched_event) : M (Z * list sched_event) :=
  fun w => handle_input_loop sched (mk_locals 0 0 (uninitialised DIALNUM_SIZE w)) w.

(** *** Channel selection *)

Definition AMI_CHAN_FORMAT_HDR : string := "%4s | %-40s | %8s | %15s | %15s" +++ nl.
Definition AMI_CHAN_FORMAT_MSG : string := "%4d | %-40s | %8s | %15s | %15s" +++ nl.

(** The line printed for [resp->events[i]]. *)
Definition print_channel (resp : ami_response) (i : Z) : M unit :=
  event <- deref (nth_error resp (Z.to_nat i)) ;;
  printf AMI_CHAN_FORMAT_MSG
         [AInt i;
          AStr (ami_keyvalue event "Channel");
          AStr (ami_keyvalue event "Duration");
          AStr (ami_keyvalue event "CallerIDNum");
          AStr (ami_keyvalue event "ConnectedLineNum")].

(** [for (; i < resp->size - 1; i++)], with [n] the passes left to run;
    the value is [i] after the loop. *)
Fixpoint print_channels_from (n : nat) (i : Z) (resp : ami_response) : M Z :=
  match n with
  | O => ret i
  | S n' => print_channel resp i ;; print_channels_from n' (i + 1) resp
  end.

(** The result is the response and the value stored through [iptr], or
    [None] for the null pointer (then [*iptr] is left alone). *)
Definition print_channels : M (option (ami_response * Z)) :=
  answer <- ami_action_show_channels ;;
  match answer with
  | None => fprintf_stderr ("Failed to get channel list" +++ nl) [] ;; ret None
  | Some resp =>
      printf ("Channels: %d" +++ nl) [AInt (size resp - 2)] ;;
      printf AMI_CHAN_FORMAT_HDR
             [AStr (Some "#"); AStr (Some "Channel"); AStr (Some "Duration");
              AStr (Some "Caller ID"); AStr (Some "Called No.")] ;;
      i <- print_channels_from (Z.to_nat (size resp - 1 - 1)) 1 resp ;;
      ret (Some (resp, i))
  end.

(** The variables of [get_channel].  [resp] starts as the null pointer and
    [i] uninitialised ([None]); [channo] and [chan_no] are written before
    they are read. *)
Record selection : Type := mk_selection {
  channo : string;
  chan_no : Z;
  resp : option ami_response;
  i : option Z;
  invalid : Z
}.

Definition CHANNO_SIZE : nat := 15.
Definition TTYCHAN_SIZE : nat := 256.

(** [strncpy(ttychan, src, sizeof(ttychan))]: the bytes of the source go
    into the array, at most [TTYCHAN_SIZE] of them, and what is left of
    the array is filled with NULs.  A source of [TTYCHAN_SIZE] bytes or
    more fills the array and leaves it without terminator: [ttychan] then
    holds [TTYCHAN_SIZE] bytes, which no string that has its terminator in
    the array does.  Whoever reads the array as a string after that reads
    past its end; the model gives such a reader the [TTYCHAN_SIZE] bytes. *)
Definition strncpy_ttychan (src : option string) : M unit :=
  s <- deref src ;;
  assign (set_ttychan (substring 0 TTYCHAN_SIZE s)).

(** After the loop: [res] is what the loop broke with. *)
Definition get_channel_end (res : Z) (l : selection) : M Z :=
  (if res =? 0
   then events <- deref (resp l) ;;
        event <- deref (nth_error events (Z.to_nat (chan_no l))) ;;
        strncpy_ttychan (ami_keyvalue event "Channel")
   else ret tt) ;;
  ret res.

(** Print channels for first time, or update list: the first half of the
    loop body.  [Return] is the early [return -1]. *)
Definition get_channel_refresh (l : selection) : M (ctl selection) :=
  changed <- var new_channel ;;
  always <- var always_refresh ;;
  if negb (changed =? 0) || negb (always =? 0)
  then
    printf TERM_CLEAR [] ;;
    printf ("*** AsTTYSpy ***" +++ nl) [] ;;
    printf ("Target channel number should be the non-TTY side of the call" +++ nl) [] ;;
    printf ("i.e. the channel with which the TTY user is currently bridged" +++ nl) [] ;;
    fflush_stdout ;;
    listing <- print_channels ;;
    match listing with
    | None => ret (Return (-1))
    | Some (r, n) =>
        let l := mk_selection (channo l) (chan_no l) (Some r) (Some n) (invalid l) in
        l <- (if negb (invalid l =? 0)
              then printf "Invalid channel number: %s" [AStr (Some (channo l))] ;;
                   (if negb (strchr (channo l) LF) then printf nl [] else ret tt) ;;
                   ret (mk_selection (channo l) (chan_no l) (resp l) (i l) 0)
              else ret l) ;;
        printf "=> Channel No.: " [] ;;
        fflush_stdout ;;
        assign (set_new_channel 0) ;;
        ret (Continue l)
    end
  else ret (Continue l).

(** The rest of the loop body once [fgets] has filled [channo].  A [break]
    continues with the code after the loop, whose value the function
    returns. *)
Definition get_channel_select (line : string) (l : selection) : M (ctl selection) :=
  let l := mk_selection line (chan_no l) (resp l) (i l) (invalid l) in
  if strcasecmp_eq line ("q" +++ nl)
  then v <- get_channel_end (-1) l ;; ret (Return v)
  else
    chosen <-
      (if negb (String.eqb line nl)
       then
         let l := mk_selection (channo l) (atoi line) (resp l) (i l) (invalid l) in
         valid <- (if 1 <=? chan_no l
                   then limit <- deref (i l) ;; ret (chan_no l <? limit)
                   else ret false) ;;
         if valid then v <- get_channel_end 0 l ;; ret (Return v)
         else ret (Continue (mk_selection (channo l) (chan_no l) (resp l) (i l) 1))
       else ret (Continue l)) ;;
    match chosen with
    | Return v => ret (Return v)
    | Continue l => assign (set_new_channel 1) ;; ret (Continue l)
    end.

(** One pass through the loop of [get_channel]. *)
Definition get_channel_pass (sched : list sched_event) (l : selection)
  : M (ctl selection * list sched_event) :=
  shown <- get_channel_refresh l ;;
  match shown with
  | Return v => ret (Return v, sched)
  | Continue l =>
      waited <- wait_for_input 1000 sched ;;
      let '(res, sched') := waited in
      if res <? 0 then v <- get_channel_end (-1) l ;; ret (Return v, sched')
      else if res =? 0 then ret (Continue l, sched')
      else
        line <- fgets CHANNO_SIZE ;;
        match line with
        | None => v <- get_channel_end (-1) l ;; ret (Return v, sched')
        | Some bytes => pass <- get_channel_select (cstr bytes) l ;; ret (pass, sched')
        end
  end.

Fixpoint get_channel_loop (fuel : nat) (sched : list sched_event) (l : selection)
  : M (Z * list sched_event) :=
  match fuel with
  | O => fun _ => OutOfFuel
  | S fuel' =>
      pass <- get_channel_pass sched l ;;
      match pass with
      | (Continue l', sched') => get_channel_loop fuel' sched' l'
      | (Return v, sched') => ret (v, sched')
      end
  end.

(** Every pass that goes round again has used up a scheduling event, so the
    loop runs at most once more than there are events. *)
Definition get_channel (sched : list sched_event) : M (Z * list sched_event) :=
  get_channel_loop (S (List.length sched)) sched (mk_selection EmptyString 0 None None 0).

(** *** The session *)

(** One pass through the loop of [ttyspy]; [false] is a [break]. *)
Definition ttyspy_pass (sched : list sched_event) : M (bool * list sched_event) :=
  assign (set_new_channel 1) ;;
  chan <- var ttychan ;;
  selected <- (if String.eqb chan EmptyString then get_channel sched else ret (0, sched)) ;;
  let '(res, sched) := selected in
  if negb (res =? 0) then ret (false, sched)
  else
    chan <- var ttychan ;;
    res <- ami_action "TddRx" ("Channel:%s" +++ crlf +++ "Options:%s")
                      [AStr (Some chan); AStr (Some TTY_RX_OPTIONS)] ;;
    if negb (res =? 0)
    then fprintf_stderr ("Failed to enable TTY on channel %s" +++ nl) [AStr (Some chan)] ;;
         ret (false, sched)
    else
      printf TERM_CLEAR [] ;;
      printf ("*** AsTTYSpy ***" +++ nl) [] ;;
      printf TTY_MENU_OPTS [] ;;
      fflush_stdout ;;
      tty <- var ttyterm ;;
      assign (set_ttyterm (clear_lflag ICANON tty)) ;;
      tty <- var ttyterm ;;
      assign (set_ttyterm (clear_lflag ECHO tty)) ;;
      assign (set_tty_active 2) ;;
      tty <- var ttyterm ;;
      tcsetattr tty ;;
      handled <- handle_input sched ;;
      let '(res, sched) := handled in
      if negb (res =? 0) then ret (false, sched)
      else assign (set_ttychan EmptyString) ;; ret (true, sched).

Fixpoint ttyspy_loop (fuel : nat) (sched : list sched_event) : M unit :=
  match fuel with
  | O => fun _ => OutOfFuel
  | S fuel' =>
      pass <- ttyspy_pass sched ;;
      match pass with
      | (true, sched') => ttyspy_loop fuel' sched'
      | (false, _) => ret tt
      end
  end.

Definition ttyspy (sched : list sched_event) : M Z :=
  orig <- tcgetattr ;;
  assign (set_origterm orig) ;;
  assign (set_ttyterm orig) ;;
  tty <- var ttyterm ;;
  assign (set_ttyterm (clear_lflag ICANON tty)) ;;
  signal_sigint ;;
  assign (set_tty_active 1) ;;
  tty <- var ttyterm ;;
  tcsetattr tty ;;
  ttyspy_loop (S (List.length sched)) sched ;;
  ami_disconnect ;;
  orig <- var origterm ;;
  tcsetattr orig ;;
  ret 0.

(** * Vocabulary of the properties *)

(** The two substitutions change single characters in place. *)
Definition unspace (c : ascii) : ascii := if Ascii.eqb c "_" then " "%char else c.
Definition respace (c : ascii) : ascii := if Ascii.eqb c " " then "_"%char else c.

Definition strdup_succeeds (w : world) : bool :=
  match heap w with
  | false :: _ => false
  | _ => true
  end.

Definition REMOTE_LABEL : string := nl +++ "TTY: ".
Definition LOCAL_LABEL : string := nl +++ "CA : ".

(** The events our side accepts: text for the channel of the session. *)
Definition text_for (event : ami_event) (w : world) (payload : string) : Prop :=
  ami_keyvalue event "Event" = Some "TddRxMsg"
  /\ ami_keyvalue event "Channel" = Some (ttychan (vars w))
  /\ ami_keyvalue event "Message" = Some payload.

Definition decoded (payload : string) : effect :=
  if String.eqb payload "\n" then Printf nl []
  else Printf "%s" [AStr (Some (underscores_to_spaces payload))].

Definition remote_label (w : world) : list effect :=
  if our_turn (vars w) =? 0 then [] else [Printf REMOTE_LABEL []].

(** What is written to [stdout]: the text of the [printf] calls of a trace,
    in their order. *)
Fixpoint stdout_text (t : list effect) : string :=
  match t with
  | [] => EmptyString
  | Printf fmt args :: t' => sprintf fmt args +++ stdout_text t'
  | _ :: t' => stdout_text t'
  end.

Definition TDDTX (chan message : string) : effect :=
  AmiAction "TddTx" ("Channel:%s" +++ crlf +++ "Message:%s")
            [AStr (Some chan); AStr (Some message)].

Definition local_label (res : Z) (w : world) : list effect :=
  if (res =? 0) && (our_turn (vars w) =? 0) then [Printf LOCAL_LABEL []] else [].

Definition DISCONNECTED : effect :=
  FprintfStderr (nl +++ "*** CALL DISCONNECTED ***" +++ nl) [].

(** What is on the terminal.  [stdout] and [stderr] both go to it, and the
    program leaves their buffering as it finds it: [stdout] on a terminal
    is line buffered, so what [printf] writes waits in the buffer of the
    stream until a newline is written, [fflush] is called or the process
    ends; [stderr] is not buffered. *)
Record terminal : Type := mk_terminal {
  on_screen : string;
  in_buffer : string
}.

(** [text] cut after its last newline: what goes out with the newline and
    what stays behind; [None] when there is no newline in it. *)
Fixpoint through_newline (text : string) : option (string * string) :=
  match text with
  | EmptyString => None
  | String c text' =>
      match through_newline text' with
      | Some (before, after) => Some (String c before, after)
      | None => if Ascii.eqb c LF then Some (str1 c, text') else None
      end
  end.

Definition write_stdout (text : string) (t : terminal) : terminal :=
  match through_newline text with
  | Some (before, after) => mk_terminal (on_screen t +++ in_buffer t +++ before) after
  | None => mk_terminal (on_screen t) (in_buffer t +++ text)
  end.

Definition write_stderr (text : string) (t : terminal) : terminal :=
  mk_terminal (on_screen t +++ text) (in_buffer t).

Definition flush (t : terminal) : terminal :=
  mk_terminal (on_screen t +++ in_buffer t) EmptyString.

Fixpoint on_terminal (calls : list effect) (t : terminal) : terminal :=
  match calls with
  | [] => t
  | Printf fmt args :: calls' => on_terminal calls' (write_stdout (sprintf fmt args) t)
  | FprintfStderr fmt args :: calls' => on_terminal calls' (write_stderr (sprintf fmt args) t)
  | Fflush :: calls' => on_terminal calls' (flush t)
  | _ :: calls' => on_terminal calls' t
  end.

Definition blank_terminal : terminal := mk_terminal EmptyString EmptyString.

(** Calls that print whole lines and nothing else. *)
Definition prints_lines (calls : list effect) : Prop :=
  Forall (fun e => match e with
                   | Printf fmt args => exists line, sprintf fmt args = line +++ nl
                   | FprintfStderr _ _ | Fflush => False
                   | _ => True
                   end) calls.

(** The world a run ends in, whatever way it ends. *)
Definition final {A} (o : outcome A) : option world :=
  match o with
  | Ret _ w | Exited _ w | Blocked w | Undefined w => Some w
  | OutOfFuel => None
  end.

Definition is_enable (e : effect) : bool :=
  match e with
  | AmiAction name _ _ => String.eqb name "TddRx"
  | _ => false
  end.

(** The turn a label announces: [true] for the local side. *)
Definition label_of (e : effect) : option bool :=
  match e with
  | Printf fmt [] =>
      if String.eqb fmt LOCAL_LABEL then Some true
      else if String.eqb fmt REMOTE_LABEL then Some false
      else None
  | _ => None
  end.

Fixpoint labels (t : list effect) : list bool :=
  match t with
  | [] => []
  | e :: t' =>
      match label_of e with
      | Some side => side :: labels t'
      | None => labels t'
      end
  end.

(** Every label names the side that did not have the turn. *)
Fixpoint alternates (local : bool) (sides : list bool) : Prop :=
  match sides with
  | [] => True
  | side :: sides' => side = negb local /\ alternates side sides'
  end.

Definition local_turn (w : world) : bool := negb (our_turn (vars w) =? 0).

(** What a piece of code may add to the trace.  [allowed] are the calls it
    may make; the labels it prints alternate, starting from the turn it
    finds, and [our_turn] follows them. *)
Record step (allowed : effect -> Prop) (w : world) (added : list effect) (w' : world)
  : Prop := mk_step {
  step_allowed : Forall allowed added;
  step_alternates : alternates (local_turn w) (labels added);
  step_turn : local_turn w' = last (labels added) (local_turn w);
  step_range : our_turn (vars w) = 0 \/ our_turn (vars w) = 1 ->
               our_turn (vars w') = 0 \/ our_turn (vars w') = 1
}.

Definition sound (allowed : effect -> Prop) {A} (c : M A) : Prop :=
  forall w w', final (c w) = Some w' ->
  exists added, trace w' = trace w ++ added /\ step allowed w added w'.

Definition everything (e : effect) : Prop := True.
Definition not_enable (e : effect) : Prop := is_enable e = false.

Definition add_trace (es : list effect) (w : world) : world :=
  mk_world (vars w) (term w) (stdin w) (ami_results w) (chan_lists w) (heap w) (stack w)
           (trace w ++ es).

Definition channel_row (n : Z) (event : ami_event) : effect :=
  Printf AMI_CHAN_FORMAT_MSG
         [AInt n;
          AStr (ami_keyvalue event "Channel");
          AStr (ami_keyvalue event "Duration");
          AStr (ami_keyvalue event "CallerIDNum");
          AStr (ami_keyvalue event "ConnectedLineNum")].

(** The rows for consecutive entries, numbered from [n]. *)
Fixpoint channel_rows (n : Z) (events : list ami_event) : list effect :=
  match events with
  | [] => []
  | event :: events' => channel_row n event :: channel_rows (n + 1) events'
  end.

Definition CHANNELS_HEADER (resp : ami_response) : list effect :=
  [AmiShowChannels;
   Printf ("Channels: %d" +++ nl) [AInt (size resp - 2)];
   Printf AMI_CHAN_FORMAT_HDR
          [AStr (Some "#"); AStr (Some "Channel"); AStr (Some "Duration");
           AStr (Some "Caller ID"); AStr (Some "Called No.")]].

(** The entries between the first and the last. *)
Definition channels_of (resp : ami_response) : list ami_event := removelast (tl resp).

(** The text of the listing, written out without the format strings of the
    program. *)
Definition blanks (n : nat) : string := string_of_list_ascii (repeat " "%char n).

(** [s] at the right, or at the left, of a column of [width] characters; a
    longer [s] is shown whole. *)
Definition flush_right (width : nat) (s : string) : string :=
  blanks (width - String.length s) +++ s.
Definition flush_left (width : nat) (s : string) : string :=
  s +++ blanks (width - String.length s).

(** A field of an entry; glibc shows one that the entry lacks as (null). *)
Definition field_text (event : ami_event) (key : string) : string :=
  match ami_keyvalue event key with
  | Some value => value
  | None => "(null)"
  end.

(** The decimal numeral of a number that is not negative. *)
Definition numeral (n : Z) : string := NilZero.string_of_uint (N.to_uint (Z.to_N n)).

(** The line of the channel shown under the number [n]. *)
Definition row_line (n : Z) (event : ami_event) : string :=
  flush_right 4 (numeral n) +++ " | "
  +++ flush_left 40 (field_text event "Channel") +++ " | "
  +++ flush_right 8 (field_text event "Duration") +++ " | "
  +++ flush_right 15 (field_text event "CallerIDNum") +++ " | "
  +++ flush_right 15 (field_text event "ConnectedLineNum") +++ nl.

Fixpoint row_lines (n : Z) (events : list ami_event) : string :=
  match events with
  | [] => EmptyString
  | event :: events' => row_line n event +++ row_lines (n + 1) events'
  end.

Definition HEADER_LINE : string :=
  "   # | Channel                                  | Duration |       Caller ID |      Called No."
  +++ nl.

Definition listing_text (resp : ami_response) : string :=
  "Channels: " +++ numeral (size resp - 2) +++ nl
  +++ HEADER_LINE
  +++ row_lines 1 (channels_of resp).

Definition SELECT_BANNER : list effect :=
  [Printf TERM_CLEAR [];
   Printf ("*** AsTTYSpy ***" +++ nl) [];
   Printf ("Target channel number should be the non-TTY side of the call" +++ nl) [];
   Printf ("i.e. the channel with which the TTY user is currently bridged" +++ nl) [];
   Fflush].

(** What is printed about the last input when it was not accepted. *)
Definition INVALID_NOTE (l : selection) : list effect :=
  if invalid l =? 0 then []
  else Printf "Invalid channel number: %s" [AStr (Some (channo l))]
       :: (if strchr (channo l) LF then [] else [Printf nl []]).

Definition PROMPT : list effect := [Printf "=> Channel No.: " []; Fflush].

(** The value of a string of decimal digits. *)
Definition decimal_value (digits : list ascii) : Z :=
  fold_left (fun acc c => 10 * acc + (code c - 48)) digits 0.

Definition with_line (line : string) (l : selection) : selection :=
  mk_selection line (chan_no l) (resp l) (i l) (invalid l).

Definition rejected (line : string) (l : selection) : selection :=
  mk_selection line (atoi line) (resp l) (i l) 1.

Definition refresh_wanted (w : world) : world := set_vars (set_new_channel 1 (vars w)) w.

Fixpoint all_digits (s : string) : bool :=
  match s with
  | EmptyString => true
  | String c s' => isdigit c && all_digits s'
  end.

(** A property of every value a call may return. *)
Definition yields {A} (P : A -> Prop) (c : M A) : Prop :=
  forall w a w', c w = Ret a w' -> P a.

Definition keeps_escape (l : locals) (pass : ctl locals) : Prop :=
  match pass with
  | Continue l' => got_escape l' = got_escape l
  | Return _ => True
  end.

Definition PLAYDTMF (chan : string) (digit : ascii) : effect :=
  AmiAction "PlayDTMF" ("Channel:%s" +++ crlf +++ "Digit:%c") [AStr (Some chan); AChr digit].

(** The digits of the tone actions of a trace, in order. *)
Fixpoint played (t : list effect) : list ascii :=
  match t with
  | [] => []
  | AmiAction name _ [_; AChr digit] :: t' =>
      if String.eqb name "PlayDTMF" then digit :: played t' else played t'
  | _ :: t' => played t'
  end.

(** The tone actions for the valid characters of [digits], each followed by
    the wait. *)
Fixpoint tones (chan : string) (digits : list ascii) : list effect :=
  match digits with
  | [] => []
  | c :: rest =>
      if IS_DTMF c then PLAYDTMF chan c :: Usleep 100000 :: tones chan rest
      else tones chan rest
  end.

Definition dtmf_count (digits : list ascii) : nat := List.length (filter IS_DTMF digits).

Definition FORCED_DISCONNECT : effect :=
  FprintfStderr (nl +++ "AMI was forcibly disconnected..." +++ nl) [].

Fixpoint last_tcsetattr (t : list effect) (found : option termios) : option termios :=
  match t with
  | [] => found
  | Tcsetattr attrs :: t' => last_tcsetattr t' (Some attrs)
  | _ :: t' => last_tcsetattr t' found
  end.

Definition ENABLE (chan : string) : effect :=
  AmiAction "TddRx" ("Channel:%s" +++ crlf +++ "Options:%s")
            [AStr (Some chan); AStr (Some TTY_RX_OPTIONS)].

Definition ENABLE_FAILED (chan : string) : effect :=
  FprintfStderr ("Failed to enable TTY on channel %s" +++ nl) [AStr (Some chan)].

(** [ttyspy_pass] once the pass has its channel: from the action that
    enables TTY on it to the end of the pass. *)
Definition relay_on_channel (sched : list sched_event) (res : Z) : M (bool * list sched_event) :=
  if negb (res =? 0)
  then chan <- var ttychan ;;
       fprintf_stderr ("Failed to enable TTY on channel %s" +++ nl) [AStr (Some chan)] ;;
       ret (false, sched)
  else
    printf TERM_CLEAR [] ;;
    printf ("*** AsTTYSpy ***" +++ nl) [] ;;
    printf TTY_MENU_OPTS [] ;;
    fflush_stdout ;;
    tty <- var ttyterm ;;
    assign (set_ttyterm (clear_lflag ICANON tty)) ;;
    tty <- var ttyterm ;;
    assign (set_ttyterm (clear_lflag ECHO tty)) ;;
    assign (set_tty_active 2) ;;
    tty <- var ttyterm ;;
    tcsetattr tty ;;
    handled <- handle_input sched ;;
    let '(res, sched) := handled in
    if negb (res =? 0) then ret (false, sched)
    else assign (set_ttychan EmptyString) ;; ret (true, sched).

(** The pass has its channel: the one given at startup, or the one
    [get_channel] returns with. *)
Definition chosen (sched : list sched_event) (w : world)
           (sched1 : list sched_event) (w1 : world) : Prop :=
  if String.eqb (ttychan (vars w)) EmptyString
  then get_channel sched (refresh_wanted w) = Ret (0, sched1) w1
  else sched1 = sched /\ w1 = refresh_wanted w.

Definition total {A} (c : M A) : Prop := forall w, c w <> OutOfFuel.

(** ** What a call leaves alone *)

(** The answers of the server that a run has used up lie between the two
    queues. *)
Definition served (w w' : world) : Prop :=
  exists used, chan_lists w = used ++ chan_lists w'.

(** What the input loop and the waiting at the prompt leave as they found
    it: the channel, the saved and the relay attributes, the phase and the
    refresh option; the terminal is as it was or in relay mode. *)
Record frame (w w' : world) : Prop := mk_frame {
  frame_ttychan : ttychan (vars w') = ttychan (vars w);
  frame_origterm : origterm (vars w') = origterm (vars w);
  frame_ttyterm : ttyterm (vars w') = ttyterm (vars w);
  frame_tty_active : tty_active (vars w') = tty_active (vars w);
  frame_always_refresh : always_refresh (vars w') = always_refresh (vars w);
  frame_term : term w' = term w \/ term w' = ttyterm (vars w);
  frame_served : served w w'
}.

Definition keeps_origterm (w w' : world) : Prop :=
  origterm (vars w') = origterm (vars w).

(** The process exits with the terminal as [origterm] has it. *)
Definition restored (w : world) (status : Z) (w' : world) : Prop :=
  status = EXIT_FAILURE /\ term w' = origterm (vars w).

Definition any_exit (w : world) (status : Z) (w' : world) : Prop := True.

(** [R] relates the worlds around a call that returns, [X] the world before
    it with the status and the world of an exit. *)
Definition guards (R : world -> world -> Prop) (X : world -> Z -> world -> Prop)
           {A} (c : M A) : Prop :=
  forall w,
    match c w with
    | Ret _ w' => R w w'
    | Exited status w' => X w status w'
    | _ => True
    end.

Definition not_disconnected (e : sched_event) : Prop := e <> AmiDisconnected.
Definition any_event (e : sched_event) : Prop := True.

(** What [get_channel] knows of the directory: [resp] and [i] are set
    together, from a reply that was waiting in [w0], and [i] is the number
    after the last row. *)
Definition listed (w0 : world) (l : selection) : Prop :=
  match resp l, i l with
  | Some r, Some n => n = Z.max 1 (size r - 1) /\ In (Some r) (chan_lists w0)
  | None, None => True
  | _, _ => False
  end.

(** What the array holds of a field that was copied into it: the field
    itself when it leaves room for the terminator, else the bytes of the
    field that fill the array. *)
Definition copy_of (field id : string) : Prop :=
  (exists more : string, field = id +++ more)
  /\ String.length id = Nat.min (String.length field) TTYCHAN_SIZE
  /\ ((String.length field < TTYCHAN_SIZE)%nat -> id = field).

(** The channel [id] is the copy of the Channel field of row [k] of a list
    that was waiting in [w0]. *)
Definition offered (w0 : world) (id : string) : Prop :=
  exists (listing : ami_response) (k : Z) (event : ami_event) (field : string),
    In (Some listing) (chan_lists w0)
    /\ 1 <= k <= size listing - 2
    /\ nth_error listing (Z.to_nat k) = Some event
    /\ ami_keyvalue event "Channel" = Some field
    /\ copy_of field id.

(** [c], started where [J] holds, keeps [J] and makes only calls that
    satisfy [P], however it ends. *)
Definition emits_at (J : world -> Prop) (P : effect -> Prop) {A} (c : M A) (w : world) : Prop :=
  J w ->
  forall w', final (c w) = Some w' ->
  J w' /\ exists added, trace w' = trace w ++ added /\ Forall P added.

Definition emits (J : world -> Prop) (P : effect -> Prop) {A} (c : M A) : Prop :=
  forall w, emits_at J P c w.

Definition no_space (message : string) : Prop :=
  forall n, String.get n message <> Some " "%char.

(** The globals a relay and a selection read and never write. *)
Definition same_session (g : globals) (w : world) : Prop :=
  ttychan (vars w) = ttychan g
  /\ origterm (vars w) = origterm g
  /\ ttyterm (vars w) = ttyterm g.

Definition same_origterm (g : globals) (w : world) : Prop :=
  origterm (vars w) = origterm g.

(** The calls of a relay that started with the globals [g]. *)
Definition relay_call (g : globals) (e : effect) : Prop :=
  match e with
  | AmiAction _ _ _ =>
      (exists message, e = TDDTX (ttychan g) message /\ no_space message)
      \/ (exists digit, e = PLAYDTMF (ttychan g) digit /\ IS_DTMF digit = true)
  | Tcsetattr t => t = origterm g \/ t = ttyterm g
  | AmiShowChannels | SignalSigint => False
  | Printf _ _ | FprintfStderr _ _ | Fflush | AmiDisconnect | Usleep _ => True
  end.

(** The calls of a selection that started with the globals [g]. *)
Definition prompt_call (g : globals) (e : effect) : Prop :=
  match e with
  | AmiAction _ _ _ | SignalSigint | Usleep _ => False
  | Tcsetattr t => t = origterm g
  | Printf _ _ | FprintfStderr _ _ | Fflush | AmiShowChannels | AmiDisconnect => True
  end.

Definition DTMF_CHARACTERS : list ascii := list_ascii_of_string "0123456789ABCD*#".


(** ** Concrete data for the examples *)

Definition bytes (s : string) : list ascii := list_ascii_of_string s.

Definition demo_term : termios := mk_termios 0 0 0 (Z.lor ICANON ECHO).

Definition demo_channel (id caller : string) : ami_event :=
  [("Event", "CoreShowChannel"); ("Channel", id); ("Duration", "00:00:07");
   ("CallerIDNum", caller); ("ConnectedLineNum", "100")].

Definition demo_listing : ami_response :=
  [[("Response", "Success")];
   demo_channel "SIP/alice-01" "201";
   demo_channel "SIP/bob-02" "202";
   [("Event", "CoreShowChannelsComplete")]].

Definition demo_world (chan : string) (active : Z) : world :=
  mk_world (mk_globals chan demo_term (clear_lflag ICANON demo_term) 0 0 active 0)
           (clear_lflag ICANON demo_term) [] [] [] [] [] [].

Definition demo_selection : selection :=
  mk_selection EmptyString 0 (Some demo_listing) (Some 3) 0.

Definition demo_keys (keys : list ascii) (w : world) : world :=
  set_stdin (map (fun key => RdData [key]) keys) w.

Definition demo_dial_twice : world :=
  set_ami_results (repeat 0 32)
    (set_stdin [RdData [KEY_ESCAPE]; RdData ["1"%char]; RdData (bytes ("123456789" +++ nl));
                RdData [KEY_ESCAPE]; RdData ["1"%char]; RdData (bytes ("1800#" +++ nl))]
       (demo_world "SIP/bob-02" 2)).

(** The process as [main] starts the session: a terminal in canonical mode
    with echo, the channel given on the command line or none. *)
Definition demo_start (chan : string) : world :=
  mk_world (mk_globals chan (mk_termios 0 0 0 0) (mk_termios 0 0 0 0) 0 0 0 0)
           demo_term [] [0] [Some demo_listing] [] [] [].

Definition demo_text (message : string) : ami_event :=
  [("Event", "TddRxMsg"); ("Channel", "SIP/bob-02"); ("Message", message)].

Definition demo_relay : world := demo_world "SIP/bob-02" 2.

Definition demo_reply (res : Z) : world := set_ami_results [res] demo_relay.

Definition demo_chat_sched : list sched_event :=
  [Poll PollReady; AmiEvent (demo_text "hi"); AmiEvent (demo_text "_there"); Poll PollReady;
   Poll PollFail].

Definition demo_chat : world :=
  set_ami_results [0; 0; 0] (demo_keys ["o"%char; "k"%char] demo_relay).

Definition demo_chat_end : world :=
  Eval vm_compute in
    match final (handle_input_loop demo_chat_sched (mk_locals 0 0 []) demo_chat) with
    | Some w => w
    | None => demo_chat
    end.

Definition demo_chat_sent : world :=
  Eval vm_compute in
    match send_msg "GA" demo_chat_end with
    | Ret _ w => w
    | _ => demo_chat_end
    end.

Definition demo_query : world := set_chan_lists [Some demo_listing] (demo_world EmptyString 1).

Definition demo_refused : world := set_ami_results [-1] (demo_start "SIP/bob-02").

Definition demo_refused_end : world :=
  Eval vm_compute in
    match final (ttyspy_pass [] demo_refused) with
    | Some w => w
    | None => demo_refused
    end.

(** A session that is interrupted at the prompt. *)
Definition demo_interrupt_end : world :=
  Eval vm_compute in
    match final (ttyspy [Sigint] (demo_start EmptyString)) with
    | Some w => w
    | None => demo_start EmptyString
    end.

(** A session on a given channel in which the hangup command is typed. *)
Definition demo_hangup : world :=
  demo_keys [KEY_ESCAPE; "2"%char] (demo_start "SIP/bob-02").

Definition demo_hangup_end : world :=
  Eval vm_compute in
    match final (ttyspy_pass [Poll PollReady; Poll PollReady] demo_hangup) with
    | Some w => w
    | None => demo_hangup
    end.

(** A selection in which the second channel is picked. *)
Definition demo_pick : world :=
  set_stdin [RdData (bytes ("2" +++ nl))] (refresh_wanted demo_query).

Definition demo_pick_end : world :=
  Eval vm_compute in
    match final (get_channel [Poll PollReady] demo_pick) with
    | Some w => w
    | None => demo_pick
    end.

Definition demo_hangup_event : ami_event := [("Event", "Hangup"); ("Channel", "SIP/carol-03")].

Definition demo_tone : world :=
  set_ami_results [0] (demo_keys [KEY_ESCAPE; "d"%char; "5"%char] demo_relay).

Definition demo_dial : world :=
  set_ami_results (repeat 0 5) (set_stdin [RdData (bytes ("1800#" +++ nl))] demo_relay).

(** * Properties *)

(** ** Text *)

Lemma append_empty_r (s : string) : s +++ EmptyString = s.
Proof. induction s as [|c s IH]; simpl; [reflexivity | now rewrite IH]. Qed.

Lemma append_assoc (a b c : string) : (a +++ b) +++ c = a +++ b +++ c.
Proof. induction a as [|x a IH]; simpl; [reflexivity | now rewrite IH]. Qed.

(** The bytes [strncpy] copies: all of a string that is short enough, and
    in any case a prefix of it. *)
Lemma substring_short (n : nat) (s : string) :
  (String.length s <= n)%nat -> substring 0 n s = s.
Proof.
  revert n. induction s as [|c s IH]; intros n H.
  - destruct n; reflexivity.
  - destruct n as [|n]; cbn [String.length] in H; [lia|].
    cbn [substring]. rewrite IH by lia. reflexivity.
Qed.

Lemma substring_prefix (n : nat) (s : string) :
  (exists more : string, s = substring 0 n s +++ more)
  /\ String.length (substring 0 n s) = Nat.min (String.length s) n.
Proof.
  revert n. induction s as [|c s IH]; intros n.
  - destruct n; (split; [exists EmptyString; reflexivity | reflexivity]).
  - destruct n as [|n].
    + split; [exists (String c s); reflexivity | reflexivity].
    + destruct (IH n) as [[more Hmore] Hlen]. cbn [substring String.length Nat.min].
      split; [exists more; cbn [String.append]; now rewrite <- Hmore | now rewrite Hlen].
Qed.

Lemma sprintf_text (fmt : string) :
  strchr fmt "%" = false -> sprintf fmt [] = fmt.
Proof.
  unfold sprintf. induction fmt as [|c fmt IH]; simpl; [reflexivity|].
  destruct (Ascii.eqb c "%"); simpl; [discriminate|].
  intros H. now rewrite IH.
Qed.

Lemma sprintf_s (s : string) : sprintf "%s" [AStr (Some s)] = s.
Proof. unfold sprintf. simpl. unfold pad. simpl. apply append_empty_r. Qed.

Lemma underscores_to_spaces_length (s : string) :
  String.length (underscores_to_spaces s) = String.length s.
Proof. induction s; simpl; congruence. Qed.

Lemma underscores_to_spaces_get (s : string) (n : nat) :
  String.get n (underscores_to_spaces s) = option_map unspace (String.get n s).
Proof.
  revert n. induction s as [|c s IH]; intros [|n]; simpl; try reflexivity. apply IH.
Qed.

Lemma spaces_to_underscores_length (s : string) :
  String.length (spaces_to_underscores s) = String.length s.
Proof. induction s; simpl; congruence. Qed.

Lemma spaces_to_underscores_get (s : string) (n : nat) :
  String.get n (spaces_to_underscores s) = option_map respace (String.get n s).
Proof.
  revert n. induction s as [|c s IH]; intros [|n]; simpl; try reflexivity. apply IH.
Qed.

(** ** Straight-line code: what a call adds to the trace *)

Lemma strdup_ok (s : string) (w : world) :
  strdup_succeeds w = true ->
  strdup s w = Ret (Some s) (set_heap (tl (heap w)) w).
Proof.
  unfold strdup_succeeds, strdup. destruct w as [g t i a c h s' tr]. simpl.
  destruct h as [|[|] h]; simpl; intros; try discriminate; reflexivity.
Qed.

Lemma ami_callback_text (event : ami_event) (w : world) (payload : string) :
  2 <= tty_active (vars w) ->
  text_for event w payload ->
  strdup_succeeds w = true ->
  exists w',
    ami_callback event w = Ret tt w'
    /\ trace w' = trace w ++ remote_label w ++ [decoded payload; Fflush]
    /\ vars w' = set_our_turn 0 (vars w).
Proof.
  intros Hact (Hev & Hch & Hmsg) Hheap.
  unfold ami_callback, bind, var.
  destruct (tty_active (vars w) =? 1) eqn:E1; [apply Z.eqb_eq in E1; lia|].
  simpl. destruct (tty_active (vars w) <? 2) eqn:E2; [apply Z.ltb_lt in E2; lia|].
  rewrite Hev, Hch, Hmsg. simpl. rewrite String.eqb_refl. simpl.
  unfold remote_label, decoded.
  destruct (our_turn (vars w) =? 0) eqn:Et; simpl.
  - destruct (String.eqb payload "\n") eqn:Ep; simpl.
    + eexists; split; [reflexivity|]. simpl. split; [now rewrite <- app_assoc|].
      apply Z.eqb_eq in Et. destruct w as [[] ]; simpl in *. now subst.
    + rewrite strdup_ok. 2:{ exact Hheap. }
      simpl. eexists; split; [reflexivity|]. simpl. split; [now rewrite <- app_assoc|].
      apply Z.eqb_eq in Et. destruct w as [[] ]; simpl in *. now subst.
  - destruct (String.eqb payload "\n") eqn:Ep; simpl.
    + eexists; split; [reflexivity|]. simpl. split; [now rewrite <- !app_assoc|reflexivity].
    + rewrite strdup_ok. 2:{ exact Hheap. }
      simpl. eexists; split; [reflexivity|]. simpl. split; [now rewrite <- !app_assoc|reflexivity].
Qed.

Lemma send_msg_reply (typed : string) (w : world) (res : Z) (rest : list Z) :
  strdup_succeeds w = true ->
  ami_results w = res :: rest ->
  exists w',
    send_msg typed w = Ret res w'
    /\ trace w' = trace w
                  ++ [TDDTX (ttychan (vars w)) (spaces_to_underscores typed)]
                  ++ local_label res w
                  ++ [Printf "%s" [AStr (Some typed)];
                      if res =? 0 then Fflush else DISCONNECTED]
    /\ vars w' = (if (res =? 0) && (our_turn (vars w) =? 0)
                  then set_our_turn 1 (vars w) else vars w)
    /\ ami_results w' = rest
    /\ stdin w' = stdin w.
Proof.
  intros Hheap Hres.
  unfold send_msg, bind. rewrite strdup_ok by exact Hheap.
  unfold var, ami_action. simpl. rewrite Hres. simpl.
  unfold local_label.
  destruct (res =? 0) eqn:Er; simpl;
    [destruct (our_turn (vars w) =? 0) eqn:Et; simpl|];
    (eexists; split; [reflexivity|]; simpl; repeat split;
     rewrite <- ?app_assoc; reflexivity).
Qed.

(** ** An invariant of every run: turn labels alternate *)

Lemma labels_app (a b : list effect) : labels (a ++ b) = labels a ++ labels b.
Proof.
  induction a as [|e a IH]; simpl; [reflexivity|].
  destruct (label_of e); simpl; now rewrite IH.
Qed.

Lemma last_cons_default (x d : bool) (a : list bool) : last (x :: a) d = last a x.
Proof.
  revert x d. induction a as [|y a IH]; intros x d; [reflexivity|].
  change (last (x :: y :: a) d) with (last (y :: a) d). now rewrite !IH.
Qed.

Lemma alternates_app (local : bool) (a b : list bool) :
  alternates local a -> alternates (last a local) b -> alternates local (a ++ b).
Proof.
  revert local. induction a as [|x a IH]; intros local Ha Hb; [exact Hb|].
  destruct Ha as [Hx Ha]. split; [exact Hx|].
  apply IH; [exact Ha|]. now rewrite <- last_cons_default with (d := local).
Qed.

Lemma last_app_default (a b : list bool) (d : bool) : last (a ++ b) d = last b (last a d).
Proof.
  revert d. induction a as [|x a IH]; intros d; [reflexivity|].
  change ((x :: a) ++ b) with (x :: (a ++ b)).
  now rewrite !last_cons_default, IH.
Qed.

Section Invariant.

(** [allowed] are the calls a piece of code may make; everything but the
    action that enables TTY on a channel is allowed everywhere. *)
Variable allowed : effect -> Prop.
Hypothesis allowed_other : forall e, is_enable e = false -> allowed e.

Lemma step_silent (w w' : world) :
  our_turn (vars w') = our_turn (vars w) -> step allowed w [] w'.
Proof.
  intros H. split; simpl; auto; unfold local_turn; rewrite H; auto.
Qed.

Lemma step_one (e : effect) (w w' : world) :
  is_enable e = false -> label_of e = None ->
  our_turn (vars w') = our_turn (vars w) -> step allowed w [e] w'.
Proof.
  intros He Hl H. split; simpl; rewrite ?Hl; simpl; auto;
    unfold local_turn; rewrite H; auto.
Qed.

Lemma step_trans (w1 w2 w3 : world) (a b : list effect) :
  step allowed w1 a w2 -> step allowed w2 b w3 -> step allowed w1 (a ++ b) w3.
Proof.
  intros [A1 A2 A3 A4] [B1 B2 B3 B4]. split.
  - apply Forall_app; auto.
  - rewrite labels_app. apply alternates_app; [exact A2|]. now rewrite <- A3.
  - rewrite labels_app, last_app_default, <- A3. exact B3.
  - auto.
Qed.

Lemma sound_ret {A} (a : A) : sound allowed (ret a).
Proof.
  intros w w' H. injection H as <-. exists []. rewrite app_nil_r.
  split; [reflexivity | now apply step_silent].
Qed.

Lemma sound_bind {A B} (c : M A) (k : A -> M B) :
  sound allowed c -> (forall a, sound allowed (k a)) -> sound allowed (bind c k).
Proof.
  intros Hc Hk w w' H. unfold bind in H.
  destruct (c w) as [a w1|s w1|w1|w1|] eqn:E.
  - destruct (Hc w w1) as (a1 & T1 & S1); [now rewrite E|].
    destruct (Hk a w1 w' H) as (a2 & T2 & S2).
    exists (a1 ++ a2). rewrite T2, T1, app_assoc. split; [reflexivity|].
    eapply step_trans; eauto.
  - apply (Hc w w'). now rewrite E.
  - apply (Hc w w'). now rewrite E.
  - apply (Hc w w'). now rewrite E.
  - discriminate.
Qed.

(** A call that ends in one way only, leaves the turn alone and adds
    nothing to the trace. *)
Lemma sound_silent {A} (c : M A) :
  (forall w w', final (c w) = Some w' ->
                trace w' = trace w /\ our_turn (vars w') = our_turn (vars w)) ->
  sound allowed c.
Proof.
  intros H w w' F. destruct (H w w' F) as [T V].
  exists []. rewrite app_nil_r. split; [exact T | now apply step_silent].
Qed.

Lemma sound_emit (e : effect) :
  is_enable e = false -> label_of e = None -> sound allowed (emit e).
Proof.
  intros He Hl w w' H. injection H as <-. exists [e].
  split; [reflexivity | now apply step_one].
Qed.

Lemma sound_exit {A} (status : Z) : sound allowed (@exit A status).
Proof. apply sound_silent. intros w w' H. injection H as <-. auto. Qed.

Lemma sound_block {A} : sound allowed (@block A).
Proof. apply sound_silent. intros w w' H. injection H as <-. auto. Qed.

Lemma sound_undefined {A} : sound allowed (@undefined A).
Proof. apply sound_silent. intros w w' H. injection H as <-. auto. Qed.

Lemma sound_deref {A} (p : option A) : sound allowed (deref p).
Proof. destruct p; [apply sound_ret | apply sound_undefined]. Qed.

Lemma sound_var {A} (field : globals -> A) : sound allowed (var field).
Proof. apply sound_silent. intros w w' H. injection H as <-. auto. Qed.

Lemma sound_assign (set : globals -> globals) :
  (forall g, our_turn (set g) = our_turn g) -> sound allowed (assign set).
Proof. intros Hs. apply sound_silent. intros w w' H. injection H as <-. simpl. auto. Qed.

Lemma sound_tcgetattr : sound allowed tcgetattr.
Proof. apply sound_silent. intros w w' H. injection H as <-. auto. Qed.

Lemma sound_tcsetattr (t : termios) : sound allowed (tcsetattr t).
Proof.
  intros w w' H. injection H as <-. exists [Tcsetattr t].
  split; [reflexivity | now apply step_one].
Qed.

Lemma sound_strdup (s : string) : sound allowed (strdup s).
Proof.
  apply sound_silent. intros w w' H. unfold strdup in H.
  destruct (heap w) as [|[|] h]; injection H as <-; auto.
Qed.

Lemma sound_read (n : nat) : sound allowed (read n).
Proof.
  apply sound_silent. intros w w' H. unfold read in H.
  destruct (stdin w) as [|[|bytes] q]; injection H as <-; auto.
Qed.

Lemma sound_fgets (n : nat) : sound allowed (fgets n).
Proof.
  apply sound_silent. intros w w' H. unfold fgets in H.
  destruct (fgets_from (stdin w) (n - 1) []) as [[r q]|]; injection H as <-; auto.
Qed.

Lemma sound_ami_action (name fmt : string) (args : list arg) :
  allowed (AmiAction name fmt args) -> sound allowed (ami_action name fmt args).
Proof.
  intros Hok w w' H. unfold ami_action in H. simpl in H.
  exists [AmiAction name fmt args].
  assert (S : forall v, our_turn (vars v) = our_turn (vars w) -> trace v = trace w ++ [AmiAction name fmt args] ->
                        trace v = trace w ++ [AmiAction name fmt args] /\ step allowed w [AmiAction name fmt args] v).
  { intros v Hv Ht. split; [exact Ht|]. split; simpl; auto; unfold local_turn; rewrite Hv; auto. }
  destruct (ami_results w) as [|r rest]; injection H as <-; apply S; reflexivity.
Qed.

Lemma sound_show_channels : sound allowed ami_action_show_channels.
Proof.
  intros w w' H. unfold ami_action_show_channels in H. simpl in H.
  exists [AmiShowChannels].
  destruct (chan_lists w) as [|r rest]; injection H as <-;
    (split; [reflexivity | now apply step_one]).
Qed.

Lemma sound_printf (fmt : string) (args : list arg) :
  label_of (Printf fmt args) = None -> sound allowed (printf fmt args).
Proof. intros H. now apply sound_emit. Qed.

Lemma sound_fprintf_stderr (fmt : string) (args : list arg) :
  sound allowed (fprintf_stderr fmt args).
Proof. now apply sound_emit. Qed.

(** The two places that print a label flip the turn with it. *)
Lemma sound_turn_remote {A} (k : M A) :
  sound allowed k ->
  sound allowed (bind (var our_turn) (fun turn =>
         bind (if negb (turn =? 0)
               then bind (printf REMOTE_LABEL []) (fun _ => assign (set_our_turn 0))
               else ret tt) (fun _ => k))).
Proof.
  intros Hk w w' H. unfold bind, var in H.
  destruct (our_turn (vars w) =? 0) eqn:Et; simpl in H.
  - exact (Hk w w' H).
  - destruct (Hk _ w' H) as (added & T & [S1 S2 S3 S4]). simpl in T.
    exists ([Printf REMOTE_LABEL []] ++ added). rewrite T, <- app_assoc.
    split; [reflexivity|].
    apply step_trans with (w2 := set_vars (set_our_turn 0 (vars w)) (log (Printf REMOTE_LABEL []) w)).
    + split; simpl; auto.
      * unfold local_turn. rewrite Et. auto.
    + split; auto.
Qed.

Lemma sound_turn_local {A} (res : Z) (k : M A) :
  sound allowed k ->
  sound allowed (bind (var our_turn) (fun turn =>
         bind (if (res =? 0) && (turn =? 0)
               then bind (printf LOCAL_LABEL []) (fun _ => assign (set_our_turn 1))
               else ret tt) (fun _ => k))).
Proof.
  intros Hk w w' H. unfold bind, var in H.
  destruct ((res =? 0) && (our_turn (vars w) =? 0)) eqn:Et; simpl in H.
  - destruct (Hk _ w' H) as (added & T & [S1 S2 S3 S4]). simpl in T.
    exists ([Printf LOCAL_LABEL []] ++ added). rewrite T, <- app_assoc.
    split; [reflexivity|].
    apply andb_prop in Et. destruct Et as [_ Et].
    apply step_trans with (w2 := set_vars (set_our_turn 1 (vars w)) (log (Printf LOCAL_LABEL []) w)).
    + split; simpl; auto.
      * unfold local_turn. rewrite Et. auto.
    + split; auto.
  - exact (Hk w w' H).
Qed.

Ltac sound_step :=
  match goal with
  | |- sound allowed (ret _) => apply sound_ret
  | |- sound allowed (bind (var our_turn) _) => first [apply sound_turn_remote | apply sound_turn_local]
  | |- sound allowed (bind _ _) => apply sound_bind; [|intros]
  | |- sound allowed (var _) => apply sound_var
  | |- sound allowed (deref _) => apply sound_deref
  | |- sound allowed (assign _) => apply sound_assign; reflexivity
  | |- sound allowed (printf _ _) => apply sound_printf; reflexivity
  | |- sound allowed (fprintf_stderr _ _) => apply sound_fprintf_stderr
  | |- sound allowed fflush_stdout => apply sound_emit; reflexivity
  | |- sound allowed (usleep _) => apply sound_emit; reflexivity
  | |- sound allowed ami_disconnect => apply sound_emit; reflexivity
  | |- sound allowed signal_sigint => apply sound_emit; reflexivity
  | |- sound allowed (tcsetattr _) => apply sound_tcsetattr
  | |- sound allowed tcgetattr => apply sound_tcgetattr
  | |- sound allowed (exit _) => apply sound_exit
  | |- sound allowed block => apply sound_block
  | |- sound allowed undefined => apply sound_undefined
  | |- sound allowed (strdup _) => apply sound_strdup
  | |- sound allowed (read _) => apply sound_read
  | |- sound allowed (fgets _) => apply sound_fgets
  | |- sound allowed ami_action_show_channels => apply sound_show_channels
  | |- sound allowed (ami_action _ _ _) => apply sound_ami_action; apply allowed_other; reflexivity
  | |- sound allowed (if ?b then _ else _) => destruct b
  | |- sound allowed (match ?x with _ => _ end) => destruct x
  end.

Ltac sound_auto := repeat sound_step.

Lemma sound_ami_callback (event : ami_event) : sound allowed (ami_callback event).
Proof. unfold ami_callback. sound_auto. Qed.

Lemma sound_simple_disconnect_callback : sound allowed simple_disconnect_callback.
Proof. unfold simple_disconnect_callback. sound_auto. Qed.

Lemma sound_restore_term (num : Z) : sound allowed (restore_term num).
Proof. unfold restore_term. sound_auto. Qed.

Lemma sound_asynchronous (e : sched_event) : sound allowed (asynchronous e).
Proof.
  destruct e; simpl;
    auto using sound_ret, sound_ami_callback, sound_simple_disconnect_callback,
               sound_restore_term.
Qed.

Lemma sound_send_dtmf (digit : ascii) : sound allowed (send_dtmf digit).
Proof. unfold send_dtmf. sound_auto. Qed.

Lemma sound_send_msg (typed : string) : sound allowed (send_msg typed).
Proof. unfold send_msg. sound_auto. Qed.

Lemma sound_send_number (digits : list ascii) : sound allowed (send_number digits).
Proof.
  induction digits as [|c rest IH]; simpl; [apply sound_undefined|].
  destruct (Ascii.eqb c NUL); [apply sound_ret|].
  destruct (IS_DTMF c); [|exact IH].
  apply sound_bind; [apply sound_send_dtmf|]. intros res.
  destruct (negb (res =? 0)); [apply sound_ret|].
  apply sound_bind; [apply sound_emit; reflexivity | intros _; exact IH].
Qed.

Lemma sound_control_action (key : ascii) (l : locals) : sound allowed (control_action key l).
Proof.
  unfold control_action.
  repeat first [ apply sound_send_number | apply sound_send_msg | sound_step ].
Qed.

Lemma sound_handle_input_ready (l : locals) : sound allowed (handle_input_ready l).
Proof.
  unfold handle_input_ready.
  repeat first [ apply sound_control_action | apply sound_send_msg
               | apply sound_send_dtmf | sound_step ].
Qed.

Lemma sound_handle_input_loop (sched : list sched_event) (l : locals) :
  sound allowed (handle_input_loop sched l).
Proof.
  revert l. induction sched as [|e sched IH]; intros l; simpl; [apply sound_block|].
  destruct e as [[| | |]| | |];
    repeat first [ apply IH | apply sound_handle_input_ready
                 | apply sound_asynchronous | sound_step ].
Qed.

Lemma sound_handle_input (sched : list sched_event) : sound allowed (handle_input sched).
Proof. intros w w'. unfold handle_input. apply sound_handle_input_loop. Qed.

Lemma sound_wait_for_input (timeout : Z) (sched : list sched_event) :
  sound allowed (wait_for_input timeout sched).
Proof.
  induction sched as [|e sched IH]; simpl; [apply sound_block|].
  destruct e as [[| | |]| | |];
    repeat first [ apply IH | apply sound_asynchronous | sound_step ].
Qed.

Lemma sound_print_channels_from (n : nat) (i : Z) (resp : ami_response) :
  sound allowed (print_channels_from n i resp).
Proof.
  revert i. induction n as [|n IH]; intros i; simpl; [apply sound_ret|].
  apply sound_bind; [unfold print_channel; sound_auto | intros _; apply IH].
Qed.

Lemma sound_print_channels : sound allowed print_channels.
Proof.
  unfold print_channels.
  repeat first [ apply sound_print_channels_from | sound_step ].
Qed.

Lemma sound_get_channel_end (res : Z) (l : selection) : sound allowed (get_channel_end res l).
Proof. unfold get_channel_end, strncpy_ttychan. sound_auto. Qed.

Lemma sound_get_channel_refresh (l : selection) : sound allowed (get_channel_refresh l).
Proof.
  unfold get_channel_refresh.
  repeat first [ apply sound_print_channels | sound_step ].
Qed.

Lemma sound_get_channel_select (line : string) (l : selection) :
  sound allowed (get_channel_select line l).
Proof.
  unfold get_channel_select.
  repeat first [ apply sound_get_channel_end | sound_step ].
Qed.

Lemma sound_get_channel_pass (sched : list sched_event) (l : selection) :
  sound allowed (get_channel_pass sched l).
Proof.
  unfold get_channel_pass.
  repeat first [ apply sound_get_channel_refresh | apply sound_wait_for_input
               | apply sound_get_channel_end | apply sound_get_channel_select
               | sound_step ].
Qed.

Lemma sound_get_channel_loop (fuel : nat) (sched : list sched_event) (l : selection) :
  sound allowed (get_channel_loop fuel sched l).
Proof.
  revert sched l. induction fuel as [|fuel IH]; intros sched l; simpl.
  - intros w w' H. discriminate.
  - apply sound_bind; [apply sound_get_channel_pass|].
    intros [[l'|v] sched']; [apply IH | apply sound_ret].
Qed.

Lemma sound_get_channel (sched : list sched_event) : sound allowed (get_channel sched).
Proof. apply sound_get_channel_loop. Qed.

(** The session loop also sends the enabling action. *)
Hypothesis allowed_enable : forall e, is_enable e = true -> allowed e.

Lemma sound_ttyspy_pass (sched : list sched_event) : sound allowed (ttyspy_pass sched).
Proof.
  unfold ttyspy_pass.
  repeat first [ apply sound_get_channel | apply sound_handle_input
               | apply sound_ami_action; apply allowed_enable; reflexivity
               | sound_step ].
Qed.

Lemma sound_ttyspy_loop (fuel : nat) (sched : list sched_event) :
  sound allowed (ttyspy_loop fuel sched).
Proof.
  revert sched. induction fuel as [|fuel IH]; intros sched; simpl.
  - intros w w' H. discriminate.
  - apply sound_bind; [apply sound_ttyspy_pass|].
    intros [[|] sched']; [apply IH | apply sound_ret].
Qed.

Lemma sound_ttyspy (sched : list sched_event) : sound allowed (ttyspy sched).
Proof.
  unfold ttyspy. repeat first [ apply sound_ttyspy_loop | sound_step ].
Qed.

End Invariant.

(** ** Inbound text *)

Lemma decoded_not_label (payload : string) : label_of (decoded payload) = None.
Proof. unfold decoded. destruct (String.eqb payload "\n"); reflexivity. Qed.

(** C2.  An event the relay accepts (relay fully active, text delivery, our
    channel) is displayed as follows, after the label of the remote side
    when the turn changes: the two characters backslash-n as exactly one line
    break; any other payload with every [_] shown as a space and every other
    character as it is. *)
Theorem ami_callback_displays_payload
  (event : ami_event) (w : world) (payload : string) :
  2 <= tty_active (vars w) ->
  text_for event w payload ->
  strdup_succeeds w = true ->
  exists (w' : world) (shown : string),
    ami_callback event w = Ret tt w'
    /\ trace w' = trace w ++ remote_label w ++ [decoded payload; Fflush]
    /\ stdout_text [decoded payload; Fflush] = shown
    /\ (payload = "\n" -> shown = nl)
    /\ (payload <> "\n" ->
        String.length shown = String.length payload
        /\ (forall n, String.get n payload = Some "_"%char ->
                      String.get n shown = Some " "%char)
        /\ (forall n c, String.get n payload = Some c -> c <> "_"%char ->
                        String.get n shown = Some c)).
Proof.
  intros Hact Htext Hheap.
  destruct (ami_callback_text event w payload Hact Htext Hheap) as (w' & Hrun & Htrace & _).
  exists w', (stdout_text [decoded payload; Fflush]).
  split; [exact Hrun|]. split; [exact Htrace|]. split; [reflexivity|]. split.
  - intros ->. reflexivity.
  - intros Hne. apply String.eqb_neq in Hne. unfold decoded. rewrite Hne.
    simpl. rewrite append_empty_r, sprintf_s. split; [|split].
    + apply underscores_to_spaces_length.
    + intros n Hn. now rewrite underscores_to_spaces_get, Hn.
    + intros n c Hn Hc. rewrite underscores_to_spaces_get, Hn. simpl.
      unfold unspace. apply Ascii.eqb_neq in Hc. now rewrite Hc.
Qed.

(** ** Outbound text *)

(** C3.  Text sent through the text path reaches the transport with every
    space replaced by [_] and nothing else changed, and is echoed as
    typed. *)
Theorem send_msg_transport_and_echo
  (typed : string) (w : world) (res : Z) (rest : list Z) :
  strdup_succeeds w = true ->
  ami_results w = res :: rest ->
  exists (w' : world) (sent : string) (after : list effect),
    send_msg typed w = Ret res w'
    /\ trace w' = trace w ++ [TDDTX (ttychan (vars w)) sent] ++ local_label res w
                  ++ Printf "%s" [AStr (Some typed)] :: after
    /\ Forall (fun e => match e with AmiAction _ _ _ | Printf _ _ => False | _ => True end) after
    /\ sent = spaces_to_underscores typed
    /\ String.length sent = String.length typed
    /\ (forall n, String.get n typed = Some " "%char -> String.get n sent = Some "_"%char)
    /\ (forall n c, String.get n typed = Some c -> c <> " "%char -> String.get n sent = Some c)
    /\ stdout_text (Printf "%s" [AStr (Some typed)] :: after) = typed.
Proof.
  intros Hheap Hres.
  destruct (send_msg_reply typed w res rest Hheap Hres) as (w' & Hrun & Htrace & _).
  exists w', (spaces_to_underscores typed), [if res =? 0 then Fflush else DISCONNECTED].
  split; [exact Hrun|]. split; [exact Htrace|]. split; [|split; [reflexivity|split; [|split; [|split]]]].
  - constructor; [|constructor]. now destruct (res =? 0).
  - apply spaces_to_underscores_length.
  - intros n Hn. now rewrite spaces_to_underscores_get, Hn.
  - intros n c Hn Hc. rewrite spaces_to_underscores_get, Hn. simpl.
    unfold respace. apply Ascii.eqb_neq in Hc. now rewrite Hc.
  - simpl. rewrite sprintf_s. destruct (res =? 0); apply append_empty_r.
Qed.

(** The calls that are made when the text action fails: the turn stays as
    it was and no label is printed, [printf] is called with the typed text
    and then the failure is reported on [stderr], and the input loop ends
    with -1.  This is the order of the calls; what the terminal shows is
    the matter of [failed_echo_held]. *)
Theorem failed_text_action
  (key : ascii) (more : list ascii) (q : list stdin_item) (l : locals)
  (sched : list sched_event) (w : world) (res : Z) (rest : list Z) :
  stdin w = RdData (key :: more) :: q ->
  key <> KEY_ESCAPE ->
  got_escape l = 0 ->
  dtmf_mode l = 0 \/ IS_DTMF key = false ->
  strdup_succeeds w = true ->
  ami_results w = res :: rest ->
  res <> 0 ->
  exists (w1 w' : world),
    w1 = set_stdin (push_back more q) w
    /\ send_msg (cstr [key]) w1 = Ret res w'
    /\ our_turn (vars w') = our_turn (vars w)
    /\ trace w' = trace w ++ [TDDTX (ttychan (vars w)) (spaces_to_underscores (cstr [key]));
                              Printf "%s" [AStr (Some (cstr [key]))];
                              DISCONNECTED]
    /\ handle_input_loop (Poll PollReady :: sched) l w = Ret (-1, sched) w'.
Proof.
  intros Hin Hkey Hesc Hdtmf Hheap Hres Hne.
  set (w1 := set_stdin (push_back more q) w).
  destruct (send_msg_reply (cstr [key]) w1 res rest) as (w' & Hrun & Htrace & Hvars & _);
    [exact Hheap | exact Hres |].
  assert (Hz : (res =? 0) = false) by now apply Z.eqb_neq.
  unfold local_label in Htrace. rewrite Hz in Htrace, Hvars. simpl in Htrace, Hvars.
  exists w1, w'. split; [reflexivity|]. split; [exact Hrun|]. split; [|split].
  - now rewrite Hvars.
  - exact Htrace.
  - cbn [handle_input_loop]. unfold bind, handle_input_ready, bind, read.
    rewrite Hin. cbn [firstn skipn]. fold w1.
    apply Ascii.eqb_neq in Hkey. rewrite Hkey, Hesc. cbn [Z.eqb negb].
    assert (Htext : negb (dtmf_mode l =? 0) && IS_DTMF key = false).
    { destruct Hdtmf as [-> | ->]; [reflexivity | apply andb_false_r]. }
    rewrite Htext, Hrun, Hz. reflexivity.
Qed.

(** *** The failure on the terminal *)

Lemma through_newline_none (text : string) :
  strchr text LF = false -> through_newline text = None.
Proof.
  induction text as [|c text IH]; [reflexivity|].
  cbn [strchr through_newline]. intros H. apply orb_false_iff in H.
  destruct H as [Hc Ht]. now rewrite (IH Ht), Hc.
Qed.

(** After a failed action the echo is in the buffer and the notice on the
    terminal, for every text without a newline in it. *)
Lemma failed_echo_held (chan sent typed : string) (t : terminal) :
  strchr typed LF = false ->
  on_terminal [TDDTX chan sent; Printf "%s" [AStr (Some typed)]; DISCONNECTED] t
  = mk_terminal (on_screen t +++ nl +++ "*** CALL DISCONNECTED ***" +++ nl)
                (in_buffer t +++ typed).
Proof.
  intros Hline. unfold TDDTX, DISCONNECTED. cbn [on_terminal].
  rewrite sprintf_s. unfold write_stdout. rewrite (through_newline_none typed Hline).
  rewrite sprintf_text by reflexivity. reflexivity.
Qed.

(** After an action that succeeded the echo is on the terminal. *)
Lemma sent_echo_shown (chan sent typed : string) (label : list effect) (t : terminal) :
  label = [] \/ label = [Printf LOCAL_LABEL []] ->
  strchr typed LF = false ->
  exists before : string,
    on_terminal ([TDDTX chan sent] ++ label ++ [Printf "%s" [AStr (Some typed)]; Fflush]) t
    = mk_terminal (on_screen t +++ before +++ typed) EmptyString.
Proof.
  intros [-> | ->] Hline; unfold TDDTX; cbn [app on_terminal].
  - exists (in_buffer t). rewrite sprintf_s. unfold write_stdout, flush.
    rewrite (through_newline_none typed Hline). reflexivity.
  - exists (in_buffer t +++ nl +++ "CA : "). rewrite sprintf_s.
    change (sprintf LOCAL_LABEL []) with (nl +++ "CA : ").
    unfold write_stdout at 2. change (through_newline (nl +++ "CA : ")) with (Some (nl, "CA : ")).
    unfold write_stdout, flush. rewrite (through_newline_none typed Hline).
    cbn [on_screen in_buffer]. rewrite !append_assoc. reflexivity.
Qed.

(** C10 is not kept by the code.  [send_msg] calls [printf] with the typed
    text and, when the action has failed, reports that on [stderr] without
    flushing [stdout] as the branch for success does: the echo stays in
    the buffer and the notice is on the terminal before it.  The key a is
    typed in a relay whose text action fails: the loop ends with -1, the
    turn is as it was and no label is printed, but the terminal shows the
    notice and not the a, which comes out after it when the stream is
    flushed.  When the action succeeds the a is on the terminal at once. *)
Lemma failed_text_notice_before_echo :
  exists w' w2 : world,
    handle_input_loop [Poll PollReady] (mk_locals 0 0 [])
                      (demo_keys ["a"%char] (demo_reply (-1)))
    = Ret (-1, []) w'
    /\ our_turn (vars w') = our_turn (vars (demo_reply (-1)))
    /\ labels (trace w') = []
    /\ on_terminal (trace w') blank_terminal
       = mk_terminal (nl +++ "*** CALL DISCONNECTED ***" +++ nl) "a"
    /\ flush (on_terminal (trace w') blank_terminal)
       = mk_terminal (nl +++ "*** CALL DISCONNECTED ***" +++ nl +++ "a") EmptyString
    /\ final (handle_input_loop [Poll PollReady] (mk_locals 0 0 [])
                                (demo_keys ["a"%char] (demo_reply 0)))
       = Some w2
    /\ on_terminal (trace w2) blank_terminal = mk_terminal (nl +++ "CA : a") EmptyString.
Proof.
  do 2 eexists. split; [vm_compute; reflexivity|].
  split; [reflexivity|]. split; [reflexivity|].
  split; [vm_compute; reflexivity|]. split; [vm_compute; reflexivity|].
  split; vm_compute; reflexivity.
Qed.

(** ** The turn indicator *)

Lemma send_msg_no_memory (typed : string) (w : world) :
  strdup_succeeds w = false ->
  send_msg typed w = Ret (-1) (set_heap (tl (heap w)) w).
Proof.
  unfold strdup_succeeds, send_msg, bind, strdup.
  destruct (heap w) as [|[|] h]; intros H; try discriminate. reflexivity.
Qed.

Lemma send_msg_no_reply (typed : string) (w : world) :
  strdup_succeeds w = true ->
  ami_results w = [] ->
  exists w', send_msg typed w = Blocked w'.
Proof.
  intros Hheap Hres. unfold send_msg, bind. rewrite strdup_ok by exact Hheap.
  unfold var, ami_action. simpl. rewrite Hres. eexists. reflexivity.
Qed.

Lemma send_msg_success_turn (typed : string) (w w' : world) :
  send_msg typed w = Ret 0 w' ->
  our_turn (vars w) = 0 \/ our_turn (vars w) = 1 ->
  our_turn (vars w') = 1.
Proof.
  intros Hsend Hrange.
  destruct (strdup_succeeds w) eqn:Hheap.
  - destruct (ami_results w) as [|r rest] eqn:Hres.
    + destruct (send_msg_no_reply typed w Hheap Hres) as (w1 & H1). congruence.
    + destruct (send_msg_reply typed w r rest Hheap Hres) as (w1 & H1 & _ & Hv & _).
      rewrite H1 in Hsend. injection Hsend as -> ->. rewrite Hv.
      destruct Hrange as [K|K]; rewrite K; cbn; [reflexivity | exact K].
  - rewrite send_msg_no_memory in Hsend by exact Hheap. discriminate.
Qed.

Lemma handle_input_loop_turns (sched : list sched_event) (l : locals) (w w' : world) :
  final (handle_input_loop sched l w) = Some w' ->
  exists added, trace w' = trace w ++ added /\ step not_enable w added w'.
Proof. apply sound_handle_input_loop. intros e H. exact H. Qed.

(** Text from the side that already has the turn comes without label. *)
Lemma receive_after_receive
  (event1 event2 : ami_event) (w w1 : world) (payload1 payload2 : string) :
  2 <= tty_active (vars w) ->
  text_for event1 w payload1 -> text_for event2 w payload2 ->
  strdup_succeeds w = true -> strdup_succeeds w1 = true ->
  ami_callback event1 w = Ret tt w1 ->
  exists w2,
    ami_callback event2 w1 = Ret tt w2
    /\ trace w2 = trace w1 ++ [decoded payload2; Fflush].
Proof.
  intros Hact Ht1 Ht2 Hh Hh1 Hrun.
  destruct (ami_callback_text event1 w payload1 Hact Ht1 Hh) as (w1' & Hrun' & _ & Hv).
  rewrite Hrun in Hrun'. injection Hrun' as <-.
  assert (Hact1 : 2 <= tty_active (vars w1)) by now rewrite Hv.
  assert (Ht : text_for event2 w1 payload2).
  { destruct Ht2 as (A & B & C). repeat split; try assumption. now rewrite Hv. }
  destruct (ami_callback_text event2 w1 payload2 Hact1 Ht Hh1) as (w2 & Hrun2 & Htr & _).
  exists w2. split; [exact Hrun2|].
  rewrite Htr. unfold remote_label. now rewrite Hv.
Qed.

Lemma send_after_send (typed1 typed2 : string) (w w1 : world) (rest : list Z) :
  our_turn (vars w) = 0 \/ our_turn (vars w) = 1 ->
  send_msg typed1 w = Ret 0 w1 ->
  strdup_succeeds w1 = true ->
  ami_results w1 = 0 :: rest ->
  exists w2,
    send_msg typed2 w1 = Ret 0 w2
    /\ trace w2 = trace w1 ++ [TDDTX (ttychan (vars w1)) (spaces_to_underscores typed2);
                               Printf "%s" [AStr (Some typed2)]; Fflush].
Proof.
  intros Hrange Hrun Hh Hres.
  pose proof (send_msg_success_turn typed1 w w1 Hrun Hrange) as Hturn.
  destruct (send_msg_reply typed2 w1 0 rest Hh Hres) as (w2 & Hrun2 & Htr & _).
  exists w2. split; [exact Hrun2|].
  rewrite Htr. unfold local_label. rewrite Hturn. reflexivity.
Qed.

(** The same holds for a whole session. *)
Lemma ttyspy_turns (sched : list sched_event) (w w' : world) :
  final (ttyspy sched w) = Some w' ->
  exists added, trace w' = trace w ++ added /\ alternates (local_turn w) (labels added).
Proof.
  intros H.
  destruct (sound_ttyspy everything (fun _ _ => I) (fun _ _ => I) sched w w' H)
    as (added & Ht & [_ Halt _ _]).
  exists added. split; [exact Ht | exact Halt].
Qed.

(** C4.  However events and keystrokes interleave in the input loop (the
    run from [w] to [w']), the labels printed alternate between the two
    sides, so none is printed twice in a row, and [our_turn] stays 0 or 1.
    When a local send that succeeds is followed by text from the remote
    side, exactly one label of the remote side is printed between the two
    texts. *)
Theorem turn_labels_alternate
  (sched : list sched_event) (l : locals) (w w' sent : world)
  (typed : string) (event : ami_event) (payload : string) :
  our_turn (vars w) = 0 \/ our_turn (vars w) = 1 ->
  final (handle_input_loop sched l w) = Some w' ->
  send_msg typed w' = Ret 0 sent ->
  2 <= tty_active (vars sent) ->
  text_for event sent payload ->
  strdup_succeeds sent = true ->
  exists (added : list effect) (received : world),
    trace w' = trace w ++ added
    /\ alternates (local_turn w) (labels added)
    /\ (our_turn (vars w') = 0 \/ our_turn (vars w') = 1)
    /\ our_turn (vars sent) = 1
    /\ ami_callback event sent = Ret tt received
    /\ trace received = trace sent ++ [Printf REMOTE_LABEL []; decoded payload; Fflush]
    /\ labels [Printf REMOTE_LABEL []; decoded payload; Fflush] = [false]
    /\ our_turn (vars received) = 0.
Proof.
  intros Hrange Hrun Hsend Hact Htext Hheap.
  destruct (handle_input_loop_turns sched l w w' Hrun) as (added & Htrace & [_ Halt _ Hkeep]).
  specialize (Hkeep Hrange).
  assert (Hturn : our_turn (vars sent) = 1) by exact (send_msg_success_turn _ _ _ Hsend Hkeep).
  destruct (ami_callback_text event sent payload Hact Htext Hheap) as (received & Hcb & Ht & Hv).
  exists added, received.
  split; [exact Htrace|]. split; [exact Halt|]. split; [exact Hkeep|].
  split; [exact Hturn|]. split; [exact Hcb|]. split; [|split].
  - rewrite Ht. unfold remote_label. rewrite Hturn. reflexivity.
  - cbn [labels]. rewrite decoded_not_label. reflexivity.
  - rewrite Hv. reflexivity.
Qed.

(** ** The channel listing *)

Lemma world_ext (w w' : world) :
  vars w = vars w' -> term w = term w' -> stdin w = stdin w' ->
  ami_results w = ami_results w' -> chan_lists w = chan_lists w' ->
  heap w = heap w' -> stack w = stack w' -> trace w = trace w' -> w = w'.
Proof. destruct w, w'. cbn. intros. subst. reflexivity. Qed.

Lemma Ret_ext {A} (a : A) (w w' : world) : w = w' -> Ret a w = Ret a w'.
Proof. intros ->. reflexivity. Qed.

(** Two worlds built by the same updates, compared field by field. *)
Ltac fields :=
  cbn [vars term stdin ami_results chan_lists heap stack trace
       set_vars set_term set_stdin set_ami_results set_chan_lists set_heap log add_trace].

Ltac same_world :=
  apply world_ext; fields;
  [ reflexivity | reflexivity | reflexivity | reflexivity | reflexivity | reflexivity
  | reflexivity | cbn [app]; rewrite <- ?app_assoc; cbn [app]; reflexivity ].

Lemma add_trace_nil (w : world) : add_trace [] w = w.
Proof. destruct w. unfold add_trace. simpl. now rewrite app_nil_r. Qed.

Lemma add_trace_log (e : effect) (es : list effect) (w : world) :
  add_trace es (log e w) = add_trace (e :: es) w.
Proof. unfold add_trace, log. simpl. now rewrite <- app_assoc. Qed.

Lemma channel_rows_length (n : Z) (events : list ami_event) :
  List.length (channel_rows n events) = List.length events.
Proof. revert n. induction events; intros n; simpl; [reflexivity | now rewrite IHevents]. Qed.

Lemma channel_rows_nth (events : list ami_event) (n : Z) (k : nat) (event : ami_event) :
  nth_error events k = Some event ->
  nth_error (channel_rows n events) k = Some (channel_row (n + Z.of_nat k) event).
Proof.
  revert n k. induction events as [|e events IH]; intros n [|k] H; try discriminate.
  - injection H as ->. simpl. now rewrite Z.add_0_r.
  - simpl in H. cbn [channel_rows nth_error]. rewrite (IH (n + 1) k H).
    f_equal. f_equal. lia.
Qed.

Lemma print_channels_from_middle (mid before after : list ami_event) (n : Z) (w : world) :
  0 <= n -> Z.to_nat n = List.length before ->
  print_channels_from (List.length mid) n (before ++ mid ++ after) w
  = Ret (n + Z.of_nat (List.length mid)) (add_trace (channel_rows n mid) w).
Proof.
  revert before n w. induction mid as [|e mid IH]; intros before n w Hn Hlen.
  - simpl. unfold ret. now rewrite Z.add_0_r, add_trace_nil.
  - cbn [List.length print_channels_from]. unfold bind at 1.
    unfold print_channel, bind, deref. rewrite Hlen.
    rewrite nth_error_app2 by lia. rewrite Nat.sub_diag. cbn [app nth_error].
    unfold ret, printf, emit.
    replace (before ++ e :: mid ++ after) with ((before ++ [e]) ++ mid ++ after)
      by now rewrite <- app_assoc.
    rewrite IH.
    + rewrite add_trace_log. f_equal. lia.
    + lia.
    + rewrite length_app. simpl. lia.
Qed.

Lemma channels_of_split (resp : ami_response) :
  2 <= size resp ->
  exists first final, resp = [first] ++ channels_of resp ++ [final].
Proof.
  unfold size, channels_of. destruct resp as [|first rest]; cbn [List.length tl]; [lia|].
  intros H. assert (Hne : rest <> []) by (destruct rest; cbn [List.length] in H; [lia | discriminate]).
  exists first, (last rest []). simpl. f_equal. now apply app_removelast_last.
Qed.

Lemma channels_of_length (resp : ami_response) :
  2 <= size resp -> Z.of_nat (List.length (channels_of resp)) = size resp - 2.
Proof.
  intros Hbig. destruct (channels_of_split resp Hbig) as (first & final & Hsplit).
  apply (f_equal (@List.length _)) in Hsplit.
  rewrite !length_app in Hsplit. cbn [List.length] in Hsplit. unfold size. lia.
Qed.

Lemma print_channels_shown (w : world) (resp : ami_response) (rest : list (option ami_response)) :
  chan_lists w = Some resp :: rest ->
  print_channels w
  = Ret (Some (resp, Z.max 1 (size resp - 1)))
        (add_trace (CHANNELS_HEADER resp ++ channel_rows 1 (channels_of resp))
                   (set_chan_lists rest w)).
Proof.
  intros Hq. unfold print_channels, bind at 1, ami_action_show_channels.
  cbn [chan_lists log]. rewrite Hq.
  unfold bind at 1, printf, emit. unfold bind at 1.
  destruct (Z_lt_le_dec (size resp) 2) as [Hsmall|Hbig].
  - assert (Hn : Z.to_nat (size resp - 1 - 1) = O) by lia.
    assert (Hc : channels_of resp = []).
    { unfold channels_of. destruct resp as [|a [|b r]]; try reflexivity.
      unfold size in Hsmall. cbn [List.length] in Hsmall. lia. }
    rewrite Hn, Hc. cbn [print_channels_from]. unfold bind, ret.
    replace (Z.max 1 (size resp - 1)) with 1 by lia.
    f_equal. unfold add_trace, log, set_chan_lists, CHANNELS_HEADER. simpl.
    now rewrite <- !app_assoc.
  - destruct (channels_of_split resp Hbig) as (first & final & Hsplit).
    pose proof (channels_of_length resp Hbig) as Hlen.
    assert (Hn : Z.to_nat (size resp - 1 - 1) = List.length (channels_of resp)) by lia.
    rewrite Hn. unfold bind.
    rewrite Hsplit at 2. rewrite print_channels_from_middle by (cbn [List.length]; lia).
    unfold ret. f_equal.
    + f_equal. f_equal. lia.
    + unfold add_trace, log, set_chan_lists, CHANNELS_HEADER. simpl.
      now rewrite <- !app_assoc.
Qed.

Lemma sprintf_channels (n : Z) :
  sprintf ("Channels: %d" +++ nl) [AInt n] = "Channels: " +++ string_of_Z n +++ nl.
Proof.
  unfold sprintf. cbn -[string_of_Z]. unfold pad. cbn -[string_of_Z]. reflexivity.
Qed.

(** *** The text of the listing *)

Lemma stdout_text_app (a b : list effect) :
  stdout_text (a ++ b) = stdout_text a +++ stdout_text b.
Proof.
  induction a as [|e a IH]; [reflexivity|].
  destruct e; cbn [app stdout_text]; try exact IH.
  now rewrite IH, append_assoc.
Qed.

Lemma spaces_blanks (n : nat) : spaces n = blanks n.
Proof. unfold blanks. induction n as [|n IH]; simpl; [reflexivity | now rewrite IH]. Qed.

Lemma pad_flush_right (width : nat) (s : string) : pad false width s = flush_right width s.
Proof. unfold pad, flush_right. now rewrite spaces_blanks. Qed.

Lemma pad_flush_left (width : nat) (s : string) : pad true width s = flush_left width s.
Proof. unfold pad, flush_left. now rewrite spaces_blanks. Qed.

Lemma string_of_Z_numeral (n : Z) : 0 <= n -> string_of_Z n = numeral n.
Proof. intros H. destruct n as [|p|p]; [reflexivity | reflexivity | lia]. Qed.

Lemma conv_field (event : ami_event) (key : string) :
  conv "s" (AStr (ami_keyvalue event key)) = field_text event key.
Proof. unfold conv, field_text. now destruct (ami_keyvalue event key). Qed.

(** What the call that prints a row writes. *)
Lemma sprintf_row_line (n : Z) (event : ami_event) :
  0 <= n ->
  sprintf AMI_CHAN_FORMAT_MSG
          [AInt n;
           AStr (ami_keyvalue event "Channel");
           AStr (ami_keyvalue event "Duration");
           AStr (ami_keyvalue event "CallerIDNum");
           AStr (ami_keyvalue event "ConnectedLineNum")]
  = row_line n event.
Proof.
  intros Hn. unfold sprintf, AMI_CHAN_FORMAT_MSG.
  cbn -[string_of_Z pad conv ami_keyvalue row_line].
  rewrite !conv_field, !pad_flush_right, pad_flush_left.
  change (conv "d" (AInt n)) with (string_of_Z n).
  rewrite (string_of_Z_numeral n Hn). reflexivity.
Qed.

Lemma channel_row_text (n : Z) (event : ami_event) :
  0 <= n -> stdout_text [channel_row n event] = row_line n event.
Proof.
  intros Hn. unfold channel_row. cbn [stdout_text].
  rewrite append_empty_r. apply sprintf_row_line. exact Hn.
Qed.

Lemma channel_rows_text (n : Z) (events : list ami_event) :
  0 <= n -> stdout_text (channel_rows n events) = row_lines n events.
Proof.
  revert n. induction events as [|event events IH]; intros n Hn; [reflexivity|].
  cbn [channel_rows row_lines].
  change (channel_row n event :: channel_rows (n + 1) events)
    with ([channel_row n event] ++ channel_rows (n + 1) events).
  rewrite stdout_text_app, channel_row_text by exact Hn.
  rewrite IH by lia. reflexivity.
Qed.

Lemma channels_header_text (resp : ami_response) :
  2 <= size resp ->
  stdout_text (CHANNELS_HEADER resp)
  = "Channels: " +++ numeral (size resp - 2) +++ nl +++ HEADER_LINE.
Proof.
  intros Hbig. unfold CHANNELS_HEADER. cbn [stdout_text].
  rewrite sprintf_channels, string_of_Z_numeral by lia.
  change (sprintf AMI_CHAN_FORMAT_HDR
            [AStr (Some "#"); AStr (Some "Channel"); AStr (Some "Duration");
             AStr (Some "Caller ID"); AStr (Some "Called No.")])
    with HEADER_LINE.
  rewrite append_empty_r, !append_assoc. reflexivity.
Qed.

(** Whole lines go to the terminal as they are printed. *)
Lemma through_newline_app (a b before after : string) :
  through_newline b = Some (before, after) ->
  through_newline (a +++ b) = Some (a +++ before, after).
Proof.
  intros H. induction a as [|c a IH]; [exact H|].
  cbn [String.append through_newline]. now rewrite IH.
Qed.

Lemma through_newline_line (line : string) :
  through_newline (line +++ nl) = Some (line +++ nl, EmptyString).
Proof. apply through_newline_app. reflexivity. Qed.

Lemma on_terminal_lines (calls : list effect) (t : terminal) :
  prints_lines calls ->
  in_buffer t = EmptyString ->
  on_terminal calls t = mk_terminal (on_screen t +++ stdout_text calls) EmptyString.
Proof.
  intros H. revert t. induction H as [|e calls He _ IH]; intros t Hbuf.
  - cbn [on_terminal stdout_text]. rewrite append_empty_r. destruct t. cbn in Hbuf. now subst.
  - destruct e; try contradiction; cbn [on_terminal stdout_text]; try (apply IH; exact Hbuf).
    destruct He as [line Hline]. rewrite Hline.
    unfold write_stdout. rewrite through_newline_line, Hbuf.
    rewrite IH by reflexivity. cbn [on_screen String.append].
    now rewrite append_assoc.
Qed.

Lemma row_line_ends (n : Z) (event : ami_event) :
  exists line, row_line n event = line +++ nl.
Proof.
  exists (flush_right 4 (numeral n) +++ " | "
          +++ flush_left 40 (field_text event "Channel") +++ " | "
          +++ flush_right 8 (field_text event "Duration") +++ " | "
          +++ flush_right 15 (field_text event "CallerIDNum") +++ " | "
          +++ flush_right 15 (field_text event "ConnectedLineNum")).
  unfold row_line. rewrite !append_assoc. reflexivity.
Qed.

Lemma channel_rows_lines (n : Z) (events : list ami_event) :
  0 <= n -> prints_lines (channel_rows n events).
Proof.
  revert n. induction events as [|event events IH]; intros n Hn; [constructor|].
  cbn [channel_rows]. constructor; [|apply IH; lia].
  unfold channel_row. rewrite (sprintf_row_line n event Hn). apply row_line_ends.
Qed.

Lemma channels_header_lines (resp : ami_response) : prints_lines (CHANNELS_HEADER resp).
Proof.
  unfold CHANNELS_HEADER. constructor; [exact I|]. constructor; [|constructor; [|constructor]].
  - rewrite sprintf_channels. exists ("Channels: " +++ string_of_Z (size resp - 2)).
    now rewrite append_assoc.
  - exists "   # | Channel                                  | Duration |       Caller ID |      Called No.".
    reflexivity.
Qed.

(** C5.  A query answered with N >= 2 raw events shows N-2 channels: the
    header gives that count, and the rows show the raw entries 1 .. N-2 in
    their order, numbered 1 .. N-2; the first and the last raw entry are
    not shown.  The text that is printed is the count, the heading and one
    line for each of these entries: its number, then its Channel, Duration,
    CallerIDNum and ConnectedLineNum fields in columns; made of whole
    lines, it is on the terminal when [print_channels] returns. *)
Theorem print_channels_listing
  (w : world) (resp : ami_response) (rest : list (option ami_response)) :
  chan_lists w = Some resp :: rest ->
  2 <= size resp ->
  exists (w' : world) (rows : list effect),
    print_channels w = Ret (Some (resp, size resp - 1)) w'
    /\ trace w' = trace w ++ CHANNELS_HEADER resp ++ rows
    /\ sprintf ("Channels: %d" +++ nl) [AInt (size resp - 2)]
       = "Channels: " +++ string_of_Z (size resp - 2) +++ nl
    /\ Z.of_nat (List.length rows) = size resp - 2
    /\ (forall (k : nat) (event : ami_event),
          (1 <= k)%nat -> Z.of_nat k <= size resp - 2 ->
          nth_error resp k = Some event ->
          nth_error rows (k - 1) = Some (channel_row (Z.of_nat k) event))
    /\ stdout_text (CHANNELS_HEADER resp ++ rows) = listing_text resp
    /\ (forall (k : nat) (event : ami_event),
          (1 <= k)%nat -> Z.of_nat k <= size resp - 2 ->
          nth_error resp k = Some event ->
          exists row : effect,
            nth_error rows (k - 1) = Some row
            /\ stdout_text [row] = row_line (Z.of_nat k) event)
    /\ on_terminal (CHANNELS_HEADER resp ++ rows) blank_terminal
       = mk_terminal (listing_text resp) EmptyString.
Proof.
  intros Hq Hbig.
  exists (add_trace (CHANNELS_HEADER resp ++ channel_rows 1 (channels_of resp))
                    (set_chan_lists rest w)), (channel_rows 1 (channels_of resp)).
  destruct (channels_of_split resp Hbig) as (first & final & Hsplit).
  pose proof (channels_of_length resp Hbig) as Hlen.
  assert (Hrow : forall (k : nat) (event : ami_event),
             (1 <= k)%nat -> Z.of_nat k <= size resp - 2 ->
             nth_error resp k = Some event ->
             nth_error (channel_rows 1 (channels_of resp)) (k - 1)
             = Some (channel_row (Z.of_nat k) event)).
  { intros k event Hk1 Hk2 Hnth.
    rewrite Hsplit in Hnth. destruct k as [|k]; [lia|].
    cbn [app nth_error] in Hnth.
    rewrite nth_error_app1 in Hnth by lia.
    replace (S k - 1)%nat with k by lia.
    rewrite (channel_rows_nth _ 1 k event Hnth).
    replace (1 + Z.of_nat k) with (Z.of_nat (S k)) by lia. reflexivity. }
  assert (Htext : stdout_text (CHANNELS_HEADER resp ++ channel_rows 1 (channels_of resp))
                  = listing_text resp).
  { rewrite stdout_text_app, channels_header_text by exact Hbig.
    rewrite channel_rows_text by lia.
    unfold listing_text. rewrite !append_assoc. reflexivity. }
  split; [|split; [|split; [|split; [|split; [|split; [|split]]]]]].
  - rewrite (print_channels_shown w resp rest Hq). do 3 f_equal. lia.
  - reflexivity.
  - apply sprintf_channels.
  - now rewrite channel_rows_length.
  - exact Hrow.
  - exact Htext.
  - intros k event Hk1 Hk2 Hnth.
    exists (channel_row (Z.of_nat k) event).
    split; [exact (Hrow k event Hk1 Hk2 Hnth) | apply channel_row_text; lia].
  - rewrite on_terminal_lines; [rewrite Htext; reflexivity | | reflexivity].
    apply Forall_app. split; [apply channels_header_lines | apply channel_rows_lines; lia].
Qed.

(** ** Channel selection *)

Lemma get_channel_refresh_shown
  (l : selection) (w : world) (listing : ami_response) (rest : list (option ami_response)) :
  new_channel (vars w) <> 0 \/ always_refresh (vars w) <> 0 ->
  chan_lists w = Some listing :: rest ->
  get_channel_refresh l w
  = Ret (Continue (mk_selection (channo l) (chan_no l) (Some listing)
                                (Some (Z.max 1 (size listing - 1))) 0))
        (set_vars (set_new_channel 0 (vars w))
           (add_trace (SELECT_BANNER ++ CHANNELS_HEADER listing
                       ++ channel_rows 1 (channels_of listing)
                       ++ INVALID_NOTE l ++ PROMPT)
                      (set_chan_lists rest w))).
Proof.
  intros Hnew Hq. unfold get_channel_refresh, bind at 1, var. unfold bind at 1.
  assert (Hc : negb (new_channel (vars w) =? 0) || negb (always_refresh (vars w) =? 0) = true).
  { apply orb_true_iff. destruct Hnew as [H|H]; [left|right];
      apply negb_true_iff, Z.eqb_neq; exact H. }
  rewrite Hc. unfold printf, fflush_stdout, emit, bind.
  rewrite (print_channels_shown _ listing rest) by exact Hq.
  cbn [invalid channo chan_no resp i].
  unfold INVALID_NOTE, assign, ret.
  destruct (invalid l =? 0) eqn:Ei; cbn [negb].
  - apply Z.eqb_eq in Ei. rewrite Ei.
    apply Ret_ext. unfold SELECT_BANNER, PROMPT. same_world.
  - destruct (strchr (channo l) LF) eqn:El; cbn [negb];
      (apply Ret_ext; unfold SELECT_BANNER, PROMPT; same_world).
Qed.

Lemma atoi_digits_decimal (digits : list ascii) (acc : Z) :
  Forall (fun c => isdigit c = true) digits ->
  atoi_digits (string_of_list_ascii digits +++ nl) acc
  = fold_left (fun acc c => 10 * acc + (code c - 48)) digits acc.
Proof.
  intros H. revert acc. induction H as [|c digits Hc _ IH]; intros acc; [reflexivity|].
  cbn [string_of_list_ascii String.append atoi_digits fold_left]. rewrite Hc. apply IH.
Qed.

Lemma digit_plain (c : ascii) :
  isdigit c = true -> isspace c = false /\ c <> "-"%char /\ c <> "+"%char.
Proof.
  unfold isdigit, isspace. intros H. apply andb_prop in H. destruct H as [H1 H2].
  apply Z.leb_le in H1, H2. repeat split.
  - apply orb_false_iff. split; [apply Z.eqb_neq; lia|].
    apply andb_false_iff. right. apply Z.leb_gt. lia.
  - intros ->. cbv in H1. contradiction H1. reflexivity.
  - intros ->. cbv in H1. contradiction H1. reflexivity.
Qed.

(** A numeric string is read as its value. *)
Lemma atoi_decimal (digits : list ascii) :
  Forall (fun c => isdigit c = true) digits ->
  0 <= decimal_value digits < 2147483648 ->
  atoi (string_of_list_ascii digits +++ nl) = decimal_value digits.
Proof.
  intros H Hrange. unfold atoi.
  assert (Hlong : atoi_long (string_of_list_ascii digits +++ nl) = decimal_value digits).
  { destruct H as [|c digits Hc H]; [reflexivity|].
    destruct (digit_plain c Hc) as (Hs & Hm & Hp).
    cbn [string_of_list_ascii String.append atoi_long]. rewrite Hs.
    unfold atoi_signed.
    change (String c (string_of_list_ascii digits +++ nl))
      with (string_of_list_ascii (c :: digits) +++ nl).
    transitivity (atoi_digits (string_of_list_ascii (c :: digits) +++ nl) 0).
    - cbn [string_of_list_ascii String.append].
      destruct c as [[|] [|] [|] [|] [|] [|] [|] [|]]; try reflexivity;
        first [now contradiction Hm | now contradiction Hp].
    - apply atoi_digits_decimal. now constructor. }
  rewrite Hlong. unfold to_int.
  rewrite Z.mod_small by lia. lia.
Qed.

Lemma tolower_q (c : ascii) : tolower c = "q"%char <-> c = "q"%char \/ c = "Q"%char.
Proof.
  split.
  - destruct c as [[|] [|] [|] [|] [|] [|] [|] [|]]; cbv; intros H;
      first [discriminate H | now left | now right].
  - intros [-> | ->]; reflexivity.
Qed.

Lemma tolower_LF (c : ascii) : tolower c = LF <-> c = LF.
Proof.
  split.
  - destruct c as [[|] [|] [|] [|] [|] [|] [|] [|]]; cbv; intros H;
      first [discriminate H | reflexivity].
  - intros ->. reflexivity.
Qed.

(** [q] in either case, then the newline. *)
Lemma strcasecmp_quit (line : string) :
  strcasecmp_eq line ("q" +++ nl) = true <-> line = "q" +++ nl \/ line = "Q" +++ nl.
Proof.
  split.
  - destruct line as [|c [|d [|e rest]]]; cbn [strcasecmp_eq String.append nl str1];
      try discriminate.
    + intros H. apply andb_prop in H. destruct H as [_ H]. discriminate.
    + intros H. apply andb_prop in H. destruct H as [Hc H].
      apply andb_prop in H. destruct H as [Hd _].
      apply Ascii.eqb_eq in Hc, Hd.
      change (tolower "q") with "q"%char in Hc. change (tolower LF) with LF in Hd.
      apply (proj1 (tolower_LF d)) in Hd. subst d.
      apply (proj1 (tolower_q c)) in Hc. destruct Hc as [-> | ->]; [now left | now right].
    + intros H. apply andb_prop in H. destruct H as [_ H].
      apply andb_prop in H. destruct H as [_ H]. discriminate.
  - intros [-> | ->]; reflexivity.
Qed.

Lemma get_channel_select_quit (line : string) (l : selection) (w : world) :
  strcasecmp_eq line ("q" +++ nl) = true ->
  get_channel_select line l w = Ret (Return (-1)) w.
Proof. intros H. unfold get_channel_select. rewrite H. reflexivity. Qed.

Lemma get_channel_select_empty (l : selection) (w : world) :
  get_channel_select nl l w = Ret (Continue (with_line nl l)) (refresh_wanted w).
Proof. reflexivity. Qed.

Lemma get_channel_select_number
  (line : string) (l : selection) (w : world) (events : ami_response) :
  resp l = Some events ->
  i l = Some (Z.max 1 (size events - 1)) ->
  strcasecmp_eq line ("q" +++ nl) = false ->
  line <> nl ->
  get_channel_select line l w
  = if (1 <=? atoi line) && (atoi line <=? size events - 2)
    then bind (get_channel_end 0 (mk_selection line (atoi line) (resp l) (i l) (invalid l)))
              (fun v => ret (Return v)) w
    else Ret (Continue (rejected line l)) (refresh_wanted w).
Proof.
  intros Hresp Hi Hq Hline.
  assert (Hlt : (atoi line <? Z.max 1 (size events - 1)) = (atoi line <=? size events - 2) \/
                (1 <=? atoi line) = false).
  { destruct (1 <=? atoi line) eqn:E1; [left | now right].
    apply Z.leb_le in E1.
    destruct (atoi line <=? size events - 2) eqn:E2;
      [apply Z.leb_le in E2; apply Z.ltb_lt | apply Z.leb_gt in E2; apply Z.ltb_ge]; lia. }
  destruct l as [channo0 chan_no0 resp0 i0 invalid0]. cbn in Hresp, Hi. subst resp0 i0.
  unfold get_channel_select, rejected. rewrite Hq.
  apply String.eqb_neq in Hline. rewrite Hline.
  cbn [negb chan_no i channo resp invalid deref].
  unfold bind, ret, assign.
  destruct (1 <=? atoi line) eqn:E1; cbn [andb].
  - destruct Hlt as [Hlt|Hlt]; [|discriminate]. rewrite Hlt.
    destruct (atoi line <=? size events - 2); [|reflexivity].
    destruct (get_channel_end 0 _ w); reflexivity.
  - reflexivity.
Qed.

(** C6, as the code has it.  For the line [fgets] stored and a listing of
    N raw entries: [q] and newline in either case quits; a bare newline asks
    for a new listing; any other line is read by [atoi], and when the number
    k it starts with satisfies 1 <= k <= N-2 the channel of entry k of that
    listing is taken, whatever follows the number; every other line is
    rejected, shown after the next listing, and the prompt is repeated. *)
Theorem get_channel_select_outcomes
  (line : string) (l : selection) (w : world) (events : ami_response) :
  resp l = Some events ->
  i l = Some (Z.max 1 (size events - 1)) ->
  (strcasecmp_eq line ("q" +++ nl) = true ->
   get_channel_select line l w = Ret (Return (-1)) w)
  /\ (line = nl ->
      get_channel_select line l w = Ret (Continue (with_line nl l)) (refresh_wanted w))
  /\ (strcasecmp_eq line ("q" +++ nl) = false -> line <> nl ->
      1 <= atoi line <= size events - 2 ->
      forall (event : ami_event) (id : string),
        nth_error events (Z.to_nat (atoi line)) = Some event ->
        ami_keyvalue event "Channel" = Some id ->
        (String.length id < TTYCHAN_SIZE)%nat ->
        get_channel_select line l w = Ret (Return 0) (set_vars (set_ttychan id (vars w)) w))
  /\ (strcasecmp_eq line ("q" +++ nl) = false -> line <> nl ->
      ~ (1 <= atoi line <= size events - 2) ->
      get_channel_select line l w = Ret (Continue (rejected line l)) (refresh_wanted w)
      /\ forall (listing : ami_response) (rest : list (option ami_response)),
           chan_lists w = Some listing :: rest ->
           get_channel_refresh (rejected line l) (refresh_wanted w)
           = Ret (Continue (mk_selection line (atoi line) (Some listing)
                                         (Some (Z.max 1 (size listing - 1))) 0))
                 (set_vars (set_new_channel 0 (vars w))
                    (add_trace (SELECT_BANNER ++ CHANNELS_HEADER listing
                                ++ channel_rows 1 (channels_of listing)
                                ++ (Printf "Invalid channel number: %s" [AStr (Some line)]
                                    :: (if strchr line LF then [] else [Printf nl []]))
                                ++ PROMPT)
                               (set_chan_lists rest w)))).
Proof.
  intros Hresp Hi. split; [|split; [|split]].
  - apply get_channel_select_quit.
  - intros ->. apply get_channel_select_empty.
  - intros Hq Hline [H1 H2] event id Hev Hid Hlen.
    rewrite (get_channel_select_number line l w events Hresp Hi Hq Hline).
    apply Z.leb_le in H1, H2. rewrite H1, H2. cbn [andb].
    unfold get_channel_end, strncpy_ttychan. cbn [Z.eqb resp chan_no].
    rewrite Hresp. cbn [deref]. unfold bind, ret. rewrite Hev. cbn [deref].
    unfold ret. rewrite Hid. cbn [deref]. unfold ret, assign.
    rewrite (substring_short TTYCHAN_SIZE id) by lia. reflexivity.
  - intros Hq Hline Hout.
    assert (Hb : (1 <=? atoi line) && (atoi line <=? size events - 2) = false).
    { apply andb_false_iff.
      destruct (Z_le_dec 1 (atoi line)) as [H1|H1]; [right | left]; apply Z.leb_gt; lia. }
    split.
    + rewrite (get_channel_select_number line l w events Hresp Hi Hq Hline), Hb. reflexivity.
    + intros listing rest Hlist.
      rewrite (get_channel_refresh_shown _ _ listing rest); [reflexivity | left; cbn; lia | exact Hlist].
Qed.

(** Counterexample to C6 as stated: the line 2abc is not [q], not empty and
    not a numeric string, so it should be invalid; the code takes the channel
    of entry 2, in [get_channel_select] and in a whole run of
    [get_channel]. *)
Lemma get_channel_select_accepts_trailing_text :
  let line := "2abc" +++ nl in
  strcasecmp_eq line ("q" +++ nl) = false
  /\ line <> nl
  /\ all_digits "2abc" = false
  /\ get_channel_select line demo_selection (demo_world EmptyString 1)
     = Ret (Return 0) (demo_world "SIP/bob-02" 1)
  /\ ~ (exists l' w', get_channel_select line demo_selection (demo_world EmptyString 1)
                      = Ret (Continue l') w' /\ invalid l' = 1)
  /\ exists w' : world,
       get_channel [Poll PollReady]
                   (set_stdin [RdData (bytes line)] (refresh_wanted demo_query))
       = Ret (0, []) w'
       /\ ttychan (vars w') = "SIP/bob-02".
Proof.
  cbv zeta. split; [reflexivity|]. split; [discriminate|]. split; [reflexivity|].
  split; [reflexivity|]. split; [intros (l' & w' & H & _); discriminate H|].
  eexists. split; vm_compute; reflexivity.
Qed.

(** ** The escape key *)

Lemma yields_ret {A} (P : A -> Prop) (a : A) : P a -> yields P (ret a).
Proof. intros H w b w' E. injection E as <- _. exact H. Qed.

Lemma yields_bind {A B} (P : B -> Prop) (c : M A) (k : A -> M B) :
  (forall a, yields P (k a)) -> yields P (bind c k).
Proof.
  intros Hk w b w' E. unfold bind in E.
  destruct (c w) as [a w1|s w1|w1|w1|]; try discriminate. exact (Hk a w1 b w' E).
Qed.

Ltac yields_step :=
  match goal with
  | |- yields _ (ret _) => apply yields_ret; cbn; auto
  | |- yields _ (bind _ _) => apply yields_bind; intros
  | |- yields _ (if ?b then _ else _) => destruct b
  | |- yields _ (match ?x with _ => _ end) => destruct x
  end.

(** No control action touches [got_escape]. *)
Lemma control_action_keeps_escape (key : ascii) (l : locals) :
  yields (keeps_escape l) (control_action key l).
Proof. unfold control_action. repeat yields_step. Qed.

(** C9, as the code has it.  The escape key sets [got_escape] whatever it
    was before, also when it follows another escape key; the first key after
    it that is not the escape key clears [got_escape] and is dispatched as a
    command, and no command sets it again. *)
Theorem escape_then_command
  (key : ascii) (more : list ascii) (q : list stdin_item) (l : locals) (w : world) :
  stdin w = RdData (key :: more) :: q ->
  (key = KEY_ESCAPE ->
   handle_input_ready l w
   = Ret (Continue (set_got_escape 1 l)) (set_stdin (push_back more q) w))
  /\ (key <> KEY_ESCAPE -> got_escape l <> 0 ->
      handle_input_ready l w
      = control_action key (set_got_escape 0 l) (set_stdin (push_back more q) w)
      /\ forall l' w', handle_input_ready l w = Ret (Continue l') w' -> got_escape l' = 0).
Proof.
  intros Hin. split.
  - intros ->. unfold handle_input_ready, bind, read. rewrite Hin. reflexivity.
  - intros Hkey Hesc.
    assert (Hrun : handle_input_ready l w
                   = control_action key (set_got_escape 0 l) (set_stdin (push_back more q) w)).
    { unfold handle_input_ready, bind, read. rewrite Hin. cbn [firstn skipn].
      apply Ascii.eqb_neq in Hkey. rewrite Hkey.
      apply Z.eqb_neq in Hesc. rewrite Hesc. reflexivity. }
    split; [exact Hrun|].
    intros l' w' H. rewrite Hrun in H.
    exact (control_action_keeps_escape key _ _ _ _ H).
Qed.

(** Counterexample to C9 as stated: escape, escape.  The second key is the
    one key following the first; it is not dispatched as a command and
    [got_escape] is still set after it, so that a [q] typed next quits
    instead of being sent as text. *)
Lemma escape_twice_stays_pending :
  let l := mk_locals 0 1 [] in
  let w := demo_keys [KEY_ESCAPE] (demo_world "SIP/bob-02" 2) in
  handle_input_ready l w = Ret (Continue l) (demo_world "SIP/bob-02" 2)
  /\ handle_input_ready l w <> control_action KEY_ESCAPE (set_got_escape 0 l) (set_stdin [] w)
  /\ handle_input [Poll PollReady; Poll PollReady; Poll PollReady]
                  (demo_keys [KEY_ESCAPE; KEY_ESCAPE; "q"%char] (demo_world "SIP/bob-02" 2))
     = Ret (-1, []) (demo_world "SIP/bob-02" 2).
Proof.
  cbv zeta. split; [reflexivity|]. split; [|reflexivity].
  intros H. discriminate H.
Qed.

(** ** Dialling *)

(** When a NUL follows the number in [dialnum] and every action succeeds,
    the tones are those of the number. *)
Lemma send_number_terminated
  (digits junk : list ascii) (w : world) (rest : list Z) :
  Forall (fun c => c <> NUL) digits ->
  ami_results w = repeat 0 (dtmf_count digits) ++ rest ->
  send_number (digits ++ NUL :: junk) w
  = Ret (Continue tt)
        (set_ami_results rest (add_trace (tones (ttychan (vars w)) digits) w)).
Proof.
  intros Hnz. revert w. induction Hnz as [|c digits Hc _ IH]; intros w Hres.
  - cbn [app send_number tones]. change (Ascii.eqb NUL NUL) with true. cbv iota.
    unfold ret. apply Ret_ext. cbn [dtmf_count filter List.length repeat app] in Hres.
    apply world_ext; fields; try reflexivity; [exact Hres | now rewrite app_nil_r].
  - cbn [app send_number tones]. apply Ascii.eqb_neq in Hc. rewrite Hc.
    unfold dtmf_count in *. cbn [filter] in Hres.
    destruct (IS_DTMF c) eqn:Ed.
    + cbn [List.length repeat app] in Hres.
      unfold bind at 1, send_dtmf, bind at 1, var, ami_action. cbn [ami_results log].
      rewrite Hres. cbn [Z.eqb negb]. unfold bind at 1, usleep, emit.
      rewrite IH by reflexivity. apply Ret_ext. unfold PLAYDTMF. same_world.
    + apply IH. exact Hres.
Qed.

(** The first action that fails ends the dialling: no wait, no further tone. *)
Lemma send_number_failure
  (digits after : list ascii) (bad : ascii) (w : world) (res : Z) (rest : list Z) :
  Forall (fun c => c <> NUL) digits ->
  bad <> NUL -> IS_DTMF bad = true ->
  ami_results w = repeat 0 (dtmf_count digits) ++ res :: rest ->
  res <> 0 ->
  send_number (digits ++ bad :: after) w
  = Ret (Return (-1))
        (set_ami_results rest
           (add_trace (tones (ttychan (vars w)) digits ++ [PLAYDTMF (ttychan (vars w)) bad]) w)).
Proof.
  intros Hnz Hbad Hd. revert w. induction Hnz as [|c digits Hc _ IH]; intros w Hres Hne.
  - cbn [app send_number tones]. apply Ascii.eqb_neq in Hbad. rewrite Hbad, Hd.
    cbn [dtmf_count filter List.length repeat app] in Hres.
    unfold bind, send_dtmf, bind, var, ami_action. cbn [ami_results log].
    rewrite Hres. apply Z.eqb_neq in Hne. rewrite Hne. cbn [negb]. unfold ret.
    apply Ret_ext. unfold PLAYDTMF. same_world.
  - cbn [app send_number tones]. apply Ascii.eqb_neq in Hc. rewrite Hc.
    unfold dtmf_count in *. cbn [filter] in Hres.
    destruct (IS_DTMF c) eqn:Ed.
    + cbn [List.length repeat app] in Hres.
      unfold bind at 1, send_dtmf, bind at 1, var, ami_action. cbn [ami_results log].
      rewrite Hres. cbn [Z.eqb negb]. unfold bind at 1, usleep, emit.
      rewrite IH by (try reflexivity; exact Hne). apply Ret_ext. unfold PLAYDTMF. same_world.
    + apply IH; assumption.
Qed.

(** C7 is not kept by the code: [read] leaves [dialnum] without terminator,
    so the scan goes on into what an earlier entry left there.  Dialling 123456789
    and then 1800# (the stack zeroed, every action succeeding) plays eight
    tones for the second number: 1 8 0 0 # 7 8 9. *)
Lemma dial_twice_plays_stale_digits :
  exists w1 w2 : world,
    handle_input (repeat (Poll PollReady) 2) demo_dial_twice = Blocked w1
    /\ played (trace w1) = bytes "123456789"
    /\ handle_input (repeat (Poll PollReady) 4) demo_dial_twice = Blocked w2
    /\ played (trace w2) = bytes "123456789" ++ bytes "1800#789"
    /\ stdin w2 = [].
Proof.
  do 2 eexists. split; [vm_compute; reflexivity|].
  split; [vm_compute; reflexivity|].
  split; [vm_compute; reflexivity|].
  split; vm_compute; reflexivity.
Qed.

(** A first dial on a stack that happens to be zeroed plays the five tones,
    each followed by the wait. *)
Example dial_once_on_zeroed_stack :
  exists w1 : world,
    handle_input (repeat (Poll PollReady) 2)
      (mk_world (vars demo_dial_twice) (term demo_dial_twice)
                [RdData [KEY_ESCAPE]; RdData ["1"%char]; RdData (bytes ("1800#" +++ nl))]
                (repeat 0 32) [] [] [] [])
    = Blocked w1
    /\ played (trace w1) = bytes "1800#"
    /\ skipn 4 (trace w1) = tones "SIP/bob-02" (bytes "1800#").
Proof. eexists. split; [|split]; vm_compute; reflexivity. Qed.

(** On a first dial the same scan reads the bytes the stack happens to
    hold. *)
Example dial_once_plays_stack_bytes :
  exists w1 : world,
    handle_input (repeat (Poll PollReady) 2)
      (mk_world (vars demo_dial_twice) (term demo_dial_twice)
                [RdData [KEY_ESCAPE]; RdData ["1"%char]; RdData (bytes ("1800#" +++ nl))]
                (repeat 0 32) [] [] (bytes "......42") [])
    = Blocked w1
    /\ played (trace w1) = bytes "1800#42".
Proof. eexists. split; vm_compute; reflexivity. Qed.

(** ** Forced disconnect and interrupt *)

Lemma simple_disconnect_callback_exits (w : world) :
  simple_disconnect_callback w = Exited EXIT_FAILURE (log FORCED_DISCONNECT w).
Proof. reflexivity. Qed.

(** The interrupt handler does restore the terminal before it exits. *)
Lemma restore_term_restores (num : Z) (w : world) :
  exists w',
    restore_term num w = Exited EXIT_FAILURE w'
    /\ term w' = origterm (vars w)
    /\ trace w' = trace w ++ [Tcsetattr (origterm (vars w)); AmiDisconnect;
                              FprintfStderr (nl +++ "AsTTYSpy exiting..." +++ nl) []].
Proof.
  eexists. split; [reflexivity|]. split; [reflexivity|].
  cbn. rewrite <- !app_assoc. reflexivity.
Qed.

(** C1 is not kept by the code: the disconnect callback prints its message
    and exits; nothing on that path sets the terminal attributes back.  While a
    channel is being selected the terminal is left without canonical mode,
    during the relay without canonical mode and echo. *)
Lemma forced_disconnect_leaves_terminal_raw :
  exists w1 w2 : world,
    ttyspy [AmiDisconnected] (demo_start EmptyString) = Exited EXIT_FAILURE w1
    /\ origterm (vars w1) = demo_term
    /\ term w1 = clear_lflag ICANON demo_term
    /\ term w1 <> origterm (vars w1)
    /\ last_tcsetattr (trace w1) None = Some (clear_lflag ICANON demo_term)
    /\ ttyspy [AmiDisconnected] (demo_start "SIP/bob-02") = Exited EXIT_FAILURE w2
    /\ origterm (vars w2) = demo_term
    /\ c_lflag (term w2) = 0
    /\ term w2 <> origterm (vars w2).
Proof.
  do 2 eexists.
  split; [vm_compute; reflexivity|].
  split; [reflexivity|]. split; [reflexivity|]. split; [discriminate|].
  split; [reflexivity|].
  split; [vm_compute; reflexivity|].
  split; [reflexivity|]. split; [reflexivity|]. discriminate.
Qed.

(** The same two moments with the interrupt signal instead: restored. *)
Example interrupt_restores_terminal :
  exists w1 w2 : world,
    ttyspy [Sigint] (demo_start EmptyString) = Exited EXIT_FAILURE w1
    /\ term w1 = demo_term
    /\ ttyspy [Sigint] (demo_start "SIP/bob-02") = Exited EXIT_FAILURE w2
    /\ term w2 = demo_term.
Proof.
  do 2 eexists. split; [vm_compute; reflexivity|]. split; [reflexivity|].
  split; [vm_compute; reflexivity|]. reflexivity.
Qed.

(** ** Entering the relay *)

Lemma ttyspy_pass_chosen (sched sched1 : list sched_event) (w w1 : world) :
  chosen sched w sched1 w1 ->
  ttyspy_pass sched w
  = match ami_results w1 with
    | [] => Blocked (log (ENABLE (ttychan (vars w1))) w1)
    | res :: rest =>
        relay_on_channel sched1 res
          (set_ami_results rest (log (ENABLE (ttychan (vars w1))) w1))
    end.
Proof.
  unfold chosen, ttyspy_pass. unfold bind at 1, assign. unfold bind at 1, var.
  fold (refresh_wanted w). change (ttychan (vars (refresh_wanted w))) with (ttychan (vars w)).
  unfold bind at 1.
  destruct (String.eqb (ttychan (vars w)) EmptyString).
  - intros ->. cbn [Z.eqb negb]. unfold bind at 1, var. unfold bind at 1, ami_action.
    cbn [ami_results log]. fold (ENABLE (ttychan (vars w1))).
    destruct (ami_results w1) as [|res rest]; [reflexivity|].
    unfold relay_on_channel. destruct (negb (res =? 0)); reflexivity.
  - intros [-> ->]. unfold ret at 1. cbn [Z.eqb negb].
    unfold bind at 1, var. unfold bind at 1, ami_action.
    cbn [ami_results log]. fold (ENABLE (ttychan (vars (refresh_wanted w)))).
    destruct (ami_results (refresh_wanted w)) as [|res rest]; [reflexivity|].
    unfold relay_on_channel. destruct (negb (res =? 0)); reflexivity.
Qed.

Lemma not_enable_other (e : effect) : is_enable e = false -> not_enable e.
Proof. intros H. exact H. Qed.

Lemma relay_on_channel_quiet (sched : list sched_event) (res : Z) :
  sound not_enable (relay_on_channel sched res).
Proof.
  unfold relay_on_channel.
  repeat first
    [ apply sound_handle_input; exact not_enable_other
    | match goal with
      | |- sound _ (ret _) => apply sound_ret
      | |- sound _ (bind _ _) => apply sound_bind; [|intros]
      | |- sound _ (var _) => apply sound_var
      | |- sound _ (assign _) => apply sound_assign; reflexivity
      | |- sound _ (printf _ _) => apply sound_printf; [exact not_enable_other | reflexivity]
      | |- sound _ (fprintf_stderr _ _) => apply sound_fprintf_stderr; exact not_enable_other
      | |- sound _ fflush_stdout => apply sound_emit; [exact not_enable_other | reflexivity..]
      | |- sound _ (tcsetattr _) => apply sound_tcsetattr; exact not_enable_other
      | |- sound _ (if ?b then _ else _) => destruct b
      | |- sound _ (match ?x with _ => _ end) => destruct x
      end ].
Qed.

Lemma chosen_quiet (sched sched1 : list sched_event) (w w1 : world) :
  chosen sched w sched1 w1 ->
  exists before, trace w1 = trace w ++ before /\ Forall not_enable before.
Proof.
  unfold chosen. destruct (String.eqb (ttychan (vars w)) EmptyString).
  - intros H.
    destruct (sound_get_channel not_enable not_enable_other sched (refresh_wanted w) w1)
      as (before & Ht & [Hq _ _ _]); [now rewrite H|].
    exists before. split; [exact Ht | exact Hq].
  - intros [_ ->]. exists []. split; [now rewrite app_nil_r | constructor].
Qed.

(** C8.  A pass of the session loop that has its channel sends the action
    that enables TTY on that channel exactly once: nothing before it in the
    pass and nothing after it, the whole relay included, is such an action.
    When the action fails the pass prints the error and leaves the loop, so
    the session ends; the action is not sent again. *)
Theorem enable_sent_once
  (sched sched1 : list sched_event) (w w1 w' : world) :
  chosen sched w sched1 w1 ->
  final (ttyspy_pass sched w) = Some w' ->
  exists before after : list effect,
    trace w1 = trace w ++ before
    /\ Forall not_enable before
    /\ trace w' = trace w1 ++ ENABLE (ttychan (vars w1)) :: after
    /\ Forall not_enable after
    /\ (forall (res : Z) (rest : list Z),
          ami_results w1 = res :: rest -> res <> 0 ->
          after = [ENABLE_FAILED (ttychan (vars w1))]
          /\ ttyspy_pass sched w = Ret (false, sched1) w'
          /\ forall fuel, ttyspy_loop (S fuel) sched w = Ret tt w').
Proof.
  intros Hch Hfin.
  destruct (chosen_quiet _ _ _ _ Hch) as (before & Hb & Hbq).
  pose proof (ttyspy_pass_chosen _ _ _ _ Hch) as Hpass.
  exists before.
  destruct (ami_results w1) as [|res rest] eqn:Hres.
  - rewrite Hpass in Hfin. injection Hfin as <-. exists [].
    split; [exact Hb|]. split; [exact Hbq|]. split; [reflexivity|]. split; [constructor|].
    intros res rest H. discriminate H.
  - rewrite Hpass in Hfin.
    destruct (relay_on_channel_quiet sched1 res _ _ Hfin) as (after & Ht & [Hq _ _ _]).
    exists after. split; [exact Hb|]. split; [exact Hbq|].
    split; [rewrite Ht; cbn [trace set_ami_results log]; now rewrite <- app_assoc|].
    split; [exact Hq|].
    intros res' rest' H Hne. injection H as <- <-.
    assert (Hz : negb (res =? 0) = true) by (apply negb_true_iff, Z.eqb_neq; exact Hne).
    assert (Hrun : ttyspy_pass sched w = Ret (false, sched1) w'
                   /\ after = [ENABLE_FAILED (ttychan (vars w1))]).
    { rewrite Hpass. unfold relay_on_channel in *. rewrite Hz in *.
      cbn in Hfin. injection Hfin as <-. split; [reflexivity|].
      cbn [trace set_ami_results log set_vars vars] in Ht.
      apply app_inv_head in Ht. subst after. reflexivity. }
    destruct Hrun as [Hrun Hafter].
    split; [exact Hafter|]. split; [exact Hrun|].
    intros fuel. cbn [ttyspy_loop]. unfold bind. rewrite Hrun. reflexivity.
Qed.

(** The whole session when the channel is given at startup and cannot be
    enabled: one action, the message, disconnect, terminal restored. *)
Lemma ttyspy_enable_failure
  (sched : list sched_event) (w : world) (res : Z) (rest : list Z) :
  ttychan (vars w) <> EmptyString ->
  ami_results w = res :: rest ->
  res <> 0 ->
  exists w',
    ttyspy sched w = Ret 0 w'
    /\ term w' = term w
    /\ trace w' = trace w ++ [SignalSigint; Tcsetattr (clear_lflag ICANON (term w));
                              ENABLE (ttychan (vars w)); ENABLE_FAILED (ttychan (vars w));
                              AmiDisconnect; Tcsetattr (term w)].
Proof.
  intros Hchan Hres Hne.
  apply String.eqb_neq in Hchan. apply Z.eqb_neq in Hne.
  unfold ttyspy, bind, tcgetattr, assign, var, signal_sigint, emit, tcsetattr.
  cbn [ttyspy_loop]. unfold bind, ttyspy_pass, bind, assign, var.
  cbn [vars set_vars log set_term ttychan set_origterm set_ttyterm set_tty_active
       set_new_channel].
  rewrite Hchan. unfold ret at 1. cbn [Z.eqb negb]. unfold ami_action.
  cbn [ami_results log set_term set_vars]. rewrite Hres, Hne. cbn [negb].
  unfold fprintf_stderr, emit, ret, ami_disconnect, emit.
  eexists. split; [reflexivity|]. split; [reflexivity|].
  cbn [trace set_vars log set_term set_ami_results vars ttyterm origterm ttychan].
  rewrite <- !app_assoc. reflexivity.
Qed.

(** ** The loops have fuel enough *)

Lemma total_bind {A B} (c : M A) (k : A -> M B) :
  total c -> (forall a w w', c w = Ret a w' -> k a w' <> OutOfFuel) -> total (bind c k).
Proof.
  intros Hc Hk w. unfold bind. destruct (c w) as [a w1|s w1|w1|w1|] eqn:E;
    try discriminate; [exact (Hk a w w1 E) | exact (fun _ => Hc w E)].
Qed.

Lemma total_bind_all {A B} (c : M A) (k : A -> M B) :
  total c -> (forall a, total (k a)) -> total (bind c k).
Proof. intros Hc Hk. apply total_bind; [exact Hc|]. intros a w w' _. apply Hk. Qed.

Ltac total_prim :=
  let w := fresh "w" in
  intros w;
  repeat match goal with
         | |- context [match ?x with _ => _ end] => destruct x
         end;
  discriminate.

Lemma total_ret {A} (a : A) : total (ret a).
Proof. intros w. discriminate. Qed.

Lemma total_deref {A} (p : option A) : total (deref p).
Proof. destruct p; intros w; discriminate. Qed.

Lemma total_strdup (s : string) : total (strdup s).
Proof. unfold strdup. total_prim. Qed.

Lemma total_read (n : nat) : total (read n).
Proof. unfold read. total_prim. Qed.

Lemma total_fgets (n : nat) : total (fgets n).
Proof. unfold fgets. total_prim. Qed.

Lemma total_ami_action (name fmt : string) (args : list arg) : total (ami_action name fmt args).
Proof. unfold ami_action. intros w. cbn. destruct (ami_results w); discriminate. Qed.

Lemma total_show_channels : total ami_action_show_channels.
Proof. unfold ami_action_show_channels. intros w. cbn. destruct (chan_lists w); discriminate. Qed.

Ltac total_step :=
  match goal with
  | |- total (ret _) => apply total_ret
  | |- total (bind _ _) => apply total_bind_all; [|intros]
  | |- total (var _) => intros ?; discriminate
  | |- total (deref _) => apply total_deref
  | |- total (assign _) => intros ?; discriminate
  | |- total (printf _ _) => intros ?; discriminate
  | |- total (fprintf_stderr _ _) => intros ?; discriminate
  | |- total fflush_stdout => intros ?; discriminate
  | |- total (usleep _) => intros ?; discriminate
  | |- total ami_disconnect => intros ?; discriminate
  | |- total signal_sigint => intros ?; discriminate
  | |- total (tcsetattr _) => intros ?; discriminate
  | |- total tcgetattr => intros ?; discriminate
  | |- total (exit _) => intros ?; discriminate
  | |- total block => intros ?; discriminate
  | |- total undefined => intros ?; discriminate
  | |- total (strdup _) => apply total_strdup
  | |- total (read _) => apply total_read
  | |- total (fgets _) => apply total_fgets
  | |- total ami_action_show_channels => apply total_show_channels
  | |- total (ami_action _ _ _) => apply total_ami_action
  | |- total (if ?b then _ else _) => destruct b
  | |- total (match ?x with _ => _ end) => destruct x
  end.

Lemma total_asynchronous (e : sched_event) : total (asynchronous e).
Proof.
  destruct e; cbn [asynchronous];
    unfold ami_callback, simple_disconnect_callback, restore_term; repeat total_step.
Qed.

Lemma total_send_msg (typed : string) : total (send_msg typed).
Proof. unfold send_msg. repeat total_step. Qed.

Lemma total_send_dtmf (digit : ascii) : total (send_dtmf digit).
Proof. unfold send_dtmf. repeat total_step. Qed.

Lemma total_send_number (digits : list ascii) : total (send_number digits).
Proof.
  induction digits as [|c rest IH]; cbn [send_number]; [intros ?; discriminate|].
  repeat first [ exact IH | apply total_send_dtmf | total_step ].
Qed.

Lemma total_handle_input_ready (l : locals) : total (handle_input_ready l).
Proof.
  unfold handle_input_ready, control_action.
  repeat first [ apply total_send_number | apply total_send_msg | apply total_send_dtmf
               | total_step ].
Qed.

Lemma total_handle_input_loop (sched : list sched_event) (l : locals) :
  total (handle_input_loop sched l).
Proof.
  revert l. induction sched as [|e sched IH]; intros l; cbn [handle_input_loop];
    [intros ?; discriminate|].
  destruct e as [[| | |]| | |];
    repeat first [ apply IH | apply total_handle_input_ready | apply total_asynchronous
                 | total_step ].
Qed.

Lemma total_wait_for_input (timeout : Z) (sched : list sched_event) :
  total (wait_for_input timeout sched).
Proof.
  induction sched as [|e sched IH]; cbn [wait_for_input]; [intros ?; discriminate|].
  destruct e as [[| | |]| | |];
    repeat first [ apply IH | apply total_asynchronous | total_step ].
Qed.

Lemma total_print_channels_from (n : nat) (k : Z) (listing : ami_response) :
  total (print_channels_from n k listing).
Proof.
  revert k. induction n as [|n IH]; intros k; cbn [print_channels_from]; [apply total_ret|].
  unfold print_channel. repeat first [ apply IH | total_step ].
Qed.

Lemma total_get_channel_pass (sched : list sched_event) (l : selection) :
  total (get_channel_pass sched l).
Proof.
  unfold get_channel_pass, get_channel_refresh, get_channel_select, get_channel_end,
    print_channels, strncpy_ttychan.
  repeat first [ apply total_print_channels_from | apply total_wait_for_input | total_step ].
Qed.

(** Whoever waits for input uses up scheduling events. *)
Lemma wait_for_input_consumes (timeout : Z) (sched sched' : list sched_event)
      (w w' : world) (res : Z) :
  wait_for_input timeout sched w = Ret (res, sched') w' ->
  (List.length sched' < List.length sched)%nat.
Proof.
  revert w. induction sched as [|e sched IH]; intros w; cbn [wait_for_input]; [discriminate|].
  assert (Hnext : forall v, wait_for_input timeout sched v = Ret (res, sched') w' ->
                            (List.length sched' < List.length (e :: sched))%nat).
  { intros v H. apply IH in H. cbn [List.length]. lia. }
  destruct e as [[| | |]| | |]; try (apply Hnext);
    try (intros H; injection H as _ <- _; cbn [List.length]; lia);
    unfold bind; intros H;
    match type of H with
    | match ?c with _ => _ end = _ => destruct c; try discriminate; exact (Hnext _ H)
    end.
Qed.

Lemma handle_input_loop_consumes (sched sched' : list sched_event) (l : locals)
      (w w' : world) (res : Z) :
  handle_input_loop sched l w = Ret (res, sched') w' ->
  (List.length sched' < List.length sched)%nat.
Proof.
  revert l w. induction sched as [|e sched IH]; intros l w; cbn [handle_input_loop];
    [discriminate|].
  assert (Hnext : forall l v, handle_input_loop sched l v = Ret (res, sched') w' ->
                              (List.length sched' < List.length (e :: sched))%nat).
  { intros l0 v H. apply IH in H. cbn [List.length]. lia. }
  destruct e as [[| | |]| | |]; try (apply Hnext);
    try (intros H; injection H as _ <- _; cbn [List.length]; lia);
    unfold bind; intros H;
    match type of H with
    | match ?c with _ => _ end = _ => destruct c as [a ? | | | |]; try discriminate
    end; try exact (Hnext _ _ H).
  destruct a; [exact (Hnext _ _ H)|]. injection H as _ <- _. cbn [List.length]. lia.
Qed.

Lemma get_channel_pass_consumes (sched sched' : list sched_event) (l : selection)
      (w w' : world) (pass : ctl selection) :
  get_channel_pass sched l w = Ret (pass, sched') w' ->
  (List.length sched' <= List.length sched)%nat
  /\ (forall l', pass = Continue l' -> (List.length sched' < List.length sched)%nat).
Proof.
  unfold get_channel_pass, bind at 1.
  destruct (get_channel_refresh l w) as [[l1|v] w1| | | |]; try discriminate.
  - unfold bind at 1.
    destruct (wait_for_input 1000 sched w1) as [[res sched1] w2| | | |] eqn:Hwait;
      try discriminate.
    apply wait_for_input_consumes in Hwait.
    assert (Hdone : forall (c : M (ctl selection * list sched_event)),
               (forall v a s u, c v = Ret (a, s) u -> s = sched1) ->
               c w2 = Ret (pass, sched') w' ->
               (List.length sched' <= List.length sched)%nat
               /\ (forall l', pass = Continue l' -> (List.length sched' < List.length sched)%nat)).
    { intros c Hc H. apply Hc in H. subst sched'. split; [lia | intros; lia]. }
    apply Hdone. intros v a s u.
    destruct (res <? 0).
    + unfold bind. destruct (get_channel_end (-1) l1 v); try discriminate.
      intros H. now injection H as _ <- _.
    + destruct (res =? 0).
      * intros H. now injection H as _ <- _.
      * unfold bind at 1. destruct (fgets CHANNO_SIZE v) as [[bytes|] ? | | | |]; try discriminate.
        -- unfold bind. destruct (get_channel_select _ l1 _); try discriminate.
           intros H. now injection H as _ <- _.
        -- unfold bind. destruct (get_channel_end (-1) l1 _); try discriminate.
           intros H. now injection H as _ <- _.
  - intros H. injection H as <- <- _. split; [lia | discriminate].
Qed.

Lemma get_channel_loop_enough (fuel : nat) (sched : list sched_event) (l : selection) :
  (List.length sched < fuel)%nat -> total (get_channel_loop fuel sched l).
Proof.
  revert sched l. induction fuel as [|fuel IH]; intros sched l Hfuel; [lia|].
  cbn [get_channel_loop]. apply total_bind; [apply total_get_channel_pass|].
  intros [[l'|v] sched'] w w' Hpass; [|discriminate].
  apply get_channel_pass_consumes in Hpass. destruct Hpass as [_ Hlt].
  apply IH. specialize (Hlt l' eq_refl). lia.
Qed.

Lemma get_channel_loop_consumes (fuel : nat) (sched sched' : list sched_event)
      (l : selection) (w w' : world) (res : Z) :
  get_channel_loop fuel sched l w = Ret (res, sched') w' ->
  (List.length sched' <= List.length sched)%nat.
Proof.
  revert sched l w. induction fuel as [|fuel IH]; intros sched l w; cbn [get_channel_loop];
    [discriminate|].
  unfold bind.
  destruct (get_channel_pass sched l w) as [[[l'|v] sched1] w1| | | |] eqn:Hpass;
    try discriminate; apply get_channel_pass_consumes in Hpass; destruct Hpass as [Hle _].
  - intros H. apply IH in H. lia.
  - intros H. injection H as _ <- _. exact Hle.
Qed.

(** [get_channel] never runs out of fuel. *)
Lemma total_get_channel (sched : list sched_event) : total (get_channel sched).
Proof. apply get_channel_loop_enough. lia. Qed.

Lemma total_handle_input (sched : list sched_event) : total (handle_input sched).
Proof. intros w. apply total_handle_input_loop. Qed.

Lemma total_ttyspy_pass (sched : list sched_event) : total (ttyspy_pass sched).
Proof.
  unfold ttyspy_pass.
  repeat first [ apply total_get_channel | apply total_handle_input | total_step ].
Qed.

Lemma ttyspy_pass_consumes (sched sched' : list sched_event) (w w' : world) :
  ttyspy_pass sched w = Ret (true, sched') w' ->
  (List.length sched' < List.length sched)%nat.
Proof.
  unfold ttyspy_pass. unfold bind at 1, assign. unfold bind at 1, var. unfold bind at 1.
  set (w0 := set_vars _ w).
  assert (Hsel : forall (sched1 : list sched_event) (v : world),
             (List.length sched1 <= List.length sched)%nat ->
             (tty <- var ttychan ;;
              res <- ami_action "TddRx" ("Channel:%s" +++ crlf +++ "Options:%s")
                                [AStr (Some tty); AStr (Some TTY_RX_OPTIONS)] ;;
              if negb (res =? 0)
              then fprintf_stderr ("Failed to enable TTY on channel %s" +++ nl) [AStr (Some tty)] ;;
                   ret (false, sched1)
              else
                printf TERM_CLEAR [] ;;
                printf ("*** AsTTYSpy ***" +++ nl) [] ;;
                printf TTY_MENU_OPTS [] ;;
                fflush_stdout ;;
                tty <- var ttyterm ;;
                assign (set_ttyterm (clear_lflag ICANON tty)) ;;
                tty <- var ttyterm ;;
                assign (set_ttyterm (clear_lflag ECHO tty)) ;;
                assign (set_tty_active 2) ;;
                tty <- var ttyterm ;;
                tcsetattr tty ;;
                handled <- handle_input sched1 ;;
                let '(res, sched) := handled in
                if negb (res =? 0) then ret (false, sched)
                else assign (set_ttychan EmptyString) ;; ret (true, sched)) v
             = Ret (true, sched') w' ->
             (List.length sched' < List.length sched)%nat).
  { intros sched1 v Hle. unfold bind at 1, var. unfold bind at 1.
    destruct (ami_action _ _ _ v) as [res v1| | | |]; try discriminate.
    destruct (negb (res =? 0)); [discriminate|].
    unfold printf, fflush_stdout, emit, bind, var, assign, tcsetattr.
    match goal with
    | |- context [handle_input sched1 ?u] =>
        destruct (handle_input sched1 u) as [[r s] ?| | | |] eqn:Hh; try discriminate
    end.
    unfold handle_input in Hh. apply handle_input_loop_consumes in Hh.
    destruct (negb (r =? 0)); [discriminate|].
    intros H. injection H as <- _. lia. }
  destruct (String.eqb (ttychan (vars w0)) EmptyString).
  - destruct (get_channel sched w0) as [[res sched1] w1| | | |] eqn:Hg; try discriminate.
    apply get_channel_loop_consumes in Hg.
    destruct (negb (res =? 0)); [discriminate|]. apply Hsel. exact Hg.
  - unfold ret at 1. cbn [Z.eqb negb]. apply Hsel. lia.
Qed.

Lemma ttyspy_loop_enough (fuel : nat) (sched : list sched_event) :
  (List.length sched < fuel)%nat -> total (ttyspy_loop fuel sched).
Proof.
  revert sched. induction fuel as [|fuel IH]; intros sched Hfuel; [lia|].
  cbn [ttyspy_loop]. apply total_bind; [apply total_ttyspy_pass|].
  intros [[|] sched'] w w' Hpass; [|discriminate].
  apply ttyspy_pass_consumes in Hpass. apply IH. lia.
Qed.

(** The session never runs out of fuel: whatever the environment does,
    [ttyspy] returns, exits, waits for ever or hits undefined behaviour. *)
Theorem total_ttyspy (sched : list sched_event) : total (ttyspy sched).
Proof.
  unfold ttyspy.
  repeat first [ apply ttyspy_loop_enough; lia | total_step ].
Qed.

(** ** The theorems at concrete inputs *)

Lemma ami_callback_displays_payload_witness :
  2 <= tty_active (vars demo_relay)
  /\ text_for (demo_text "hi_there") demo_relay "hi_there"
  /\ strdup_succeeds demo_relay = true
  /\ exists w' : world,
       ami_callback (demo_text "hi_there") demo_relay = Ret tt w'
       /\ stdout_text [decoded "hi_there"; Fflush] = "hi there".
Proof.
  assert (H1 : 2 <= tty_active (vars demo_relay)) by (cbn; lia).
  assert (H2 : text_for (demo_text "hi_there") demo_relay "hi_there")
    by (repeat split; reflexivity).
  assert (H3 : strdup_succeeds demo_relay = true) by reflexivity.
  split; [exact H1|]. split; [exact H2|]. split; [exact H3|].
  destruct (ami_callback_displays_payload (demo_text "hi_there") demo_relay "hi_there" H1 H2 H3)
    as (w' & shown & Hrun & _).
  exists w'. split; [exact Hrun | reflexivity].
Defined.

Lemma send_msg_transport_and_echo_witness :
  strdup_succeeds (demo_reply 0) = true
  /\ ami_results (demo_reply 0) = [0]
  /\ exists (w' : world) (after : list effect),
       send_msg "HELLO GA" (demo_reply 0) = Ret 0 w'
       /\ trace w' = [TDDTX "SIP/bob-02" "HELLO_GA"; Printf LOCAL_LABEL [];
                      Printf "%s" [AStr (Some "HELLO GA")]] ++ after
       /\ stdout_text (Printf "%s" [AStr (Some "HELLO GA")] :: after) = "HELLO GA".
Proof.
  split; [reflexivity|]. split; [reflexivity|].
  destruct (send_msg_transport_and_echo "HELLO GA" (demo_reply 0) 0 [] eq_refl eq_refl)
    as (w' & sent & after & Hrun & Htrace & _ & Hsent & _ & _ & _ & Hecho).
  exists w', after. split; [exact Hrun|]. split; [|exact Hecho].
  rewrite Htrace, Hsent. reflexivity.
Defined.

Lemma failed_text_action_witness :
  stdin (demo_keys ["a"%char] (demo_reply (-1))) = [RdData ["a"%char]]
  /\ "a"%char <> KEY_ESCAPE
  /\ exists w' : world,
       handle_input_loop [Poll PollReady; Poll PollReady] (mk_locals 0 0 [])
                         (demo_keys ["a"%char] (demo_reply (-1)))
       = Ret (-1, [Poll PollReady]) w'
       /\ our_turn (vars w') = 0
       /\ trace w' = [TDDTX "SIP/bob-02" "a"; Printf "%s" [AStr (Some "a")]; DISCONNECTED].
Proof.
  assert (Hkey : "a"%char <> KEY_ESCAPE) by discriminate.
  assert (Hres : (-1) <> 0) by discriminate.
  split; [reflexivity|]. split; [exact Hkey|].
  destruct (failed_text_action "a" [] [] (mk_locals 0 0 []) [Poll PollReady]
              (demo_keys ["a"%char] (demo_reply (-1))) (-1) []
              eq_refl Hkey eq_refl (or_introl eq_refl) eq_refl eq_refl Hres)
    as (w1 & w' & _ & _ & Hturn & Htrace & Hloop).
  exists w'. split; [exact Hloop|]. split; [exact Hturn | exact Htrace].
Defined.

Lemma turn_labels_alternate_witness :
  final (handle_input_loop demo_chat_sched (mk_locals 0 0 []) demo_chat) = Some demo_chat_end
  /\ send_msg "GA" demo_chat_end = Ret 0 demo_chat_sent
  /\ labels (trace demo_chat_end) = [true; false; true]
  /\ exists received : world,
       ami_callback (demo_text "hi") demo_chat_sent = Ret tt received
       /\ trace received = trace demo_chat_sent
                           ++ [Printf REMOTE_LABEL []; decoded "hi"; Fflush].
Proof.
  assert (H0 : our_turn (vars demo_chat) = 0 \/ our_turn (vars demo_chat) = 1)
    by (left; reflexivity).
  assert (H1 : final (handle_input_loop demo_chat_sched (mk_locals 0 0 []) demo_chat)
               = Some demo_chat_end) by (vm_compute; reflexivity).
  assert (H2 : send_msg "GA" demo_chat_end = Ret 0 demo_chat_sent) by (vm_compute; reflexivity).
  assert (H3 : 2 <= tty_active (vars demo_chat_sent)) by (cbn; lia).
  assert (H4 : text_for (demo_text "hi") demo_chat_sent "hi") by (repeat split; reflexivity).
  assert (H5 : strdup_succeeds demo_chat_sent = true) by reflexivity.
  split; [exact H1|]. split; [exact H2|]. split; [vm_compute; reflexivity|].
  destruct (turn_labels_alternate demo_chat_sched (mk_locals 0 0 []) demo_chat demo_chat_end
              demo_chat_sent "GA" (demo_text "hi") "hi" H0 H1 H2 H3 H4 H5)
    as (added & received & _ & _ & _ & _ & Hcb & Htrace & _).
  exists received. split; [exact Hcb | exact Htrace].
Defined.

Lemma print_channels_listing_witness :
  chan_lists demo_query = [Some demo_listing]
  /\ 2 <= size demo_listing
  /\ exists (w' : world) (rows : list effect),
       print_channels demo_query = Ret (Some (demo_listing, 3)) w'
       /\ Z.of_nat (List.length rows) = 2
       /\ nth_error rows 0 = Some (channel_row 1 (demo_channel "SIP/alice-01" "201"))
       /\ nth_error rows 1 = Some (channel_row 2 (demo_channel "SIP/bob-02" "202"))
       /\ stdout_text (CHANNELS_HEADER demo_listing ++ rows)
          = "Channels: 2" +++ nl
            +++ "   # | Channel                                  | Duration |       Caller ID |      Called No." +++ nl
            +++ "   1 | SIP/alice-01                             | 00:00:07 |             201 |             100" +++ nl
            +++ "   2 | SIP/bob-02                               | 00:00:07 |             202 |             100" +++ nl.
Proof.
  assert (Hbig : 2 <= size demo_listing) by (change (size demo_listing) with 4; lia).
  split; [reflexivity|]. split; [exact Hbig|].
  destruct (print_channels_listing demo_query demo_listing [] eq_refl Hbig)
    as (w' & rows & Hrun & _ & _ & Hlen & Hrows & Htext & _ & _).
  exists w', rows. split; [exact Hrun|]. split; [exact Hlen|]. split; [|split].
  - apply (Hrows 1%nat); [lia | change (size demo_listing) with 4; lia | reflexivity].
  - apply (Hrows 2%nat); [lia | change (size demo_listing) with 4; lia | reflexivity].
  - rewrite Htext. reflexivity.
Defined.

Lemma get_channel_select_outcomes_witness :
  resp demo_selection = Some demo_listing
  /\ i demo_selection = Some (Z.max 1 (size demo_listing - 1))
  /\ get_channel_select ("Q" +++ nl) demo_selection demo_query = Ret (Return (-1)) demo_query
  /\ get_channel_select nl demo_selection demo_query
     = Ret (Continue (with_line nl demo_selection)) (refresh_wanted demo_query)
  /\ get_channel_select ("1" +++ nl) demo_selection demo_query
     = Ret (Return 0) (set_vars (set_ttychan "SIP/alice-01" (vars demo_query)) demo_query)
  /\ get_channel_select ("3" +++ nl) demo_selection demo_query
     = Ret (Continue (rejected ("3" +++ nl) demo_selection)) (refresh_wanted demo_query).
Proof.
  split; [reflexivity|]. split; [reflexivity|].
  destruct (get_channel_select_outcomes ("Q" +++ nl) demo_selection demo_query demo_listing
              eq_refl eq_refl) as (Hquit & _).
  destruct (get_channel_select_outcomes nl demo_selection demo_query demo_listing
              eq_refl eq_refl) as (_ & Hempty & _).
  destruct (get_channel_select_outcomes ("1" +++ nl) demo_selection demo_query demo_listing
              eq_refl eq_refl) as (_ & _ & Hpick & _).
  destruct (get_channel_select_outcomes ("3" +++ nl) demo_selection demo_query demo_listing
              eq_refl eq_refl) as (_ & _ & _ & Hbad).
  split; [exact (Hquit eq_refl)|]. split; [exact (Hempty eq_refl)|]. split.
  - apply (Hpick eq_refl) with (event := demo_channel "SIP/alice-01" "201");
      [ discriminate
      | change (atoi ("1" +++ nl)) with 1; change (size demo_listing) with 4; lia
      | reflexivity | reflexivity | apply Nat.ltb_lt; reflexivity ].
  - apply Hbad;
      [ reflexivity | discriminate
      | change (atoi ("3" +++ nl)) with 3; change (size demo_listing) with 4; lia ].
Defined.

Lemma escape_then_command_witness :
  stdin (demo_keys ["d"%char] demo_relay) = [RdData ["d"%char]]
  /\ handle_input_ready (mk_locals 0 1 []) (demo_keys ["d"%char] demo_relay)
     = Ret (Continue (mk_locals 1 0 [])) demo_relay.
Proof.
  split; [reflexivity|].
  destruct (escape_then_command "d" [] [] (mk_locals 0 1 []) (demo_keys ["d"%char] demo_relay)
              eq_refl) as (_ & Hcmd).
  assert (Hkey : "d"%char <> KEY_ESCAPE) by discriminate.
  assert (Hesc : got_escape (mk_locals 0 1 []) <> 0) by discriminate.
  destruct (Hcmd Hkey Hesc) as (Hrun & _). rewrite Hrun. reflexivity.
Defined.

Lemma enable_sent_once_witness :
  chosen [] demo_refused [] (refresh_wanted demo_refused)
  /\ final (ttyspy_pass [] demo_refused) = Some demo_refused_end
  /\ trace demo_refused_end = [ENABLE "SIP/bob-02"; ENABLE_FAILED "SIP/bob-02"]
  /\ ttyspy_loop 1 [] demo_refused = Ret tt demo_refused_end.
Proof.
  assert (H1 : chosen [] demo_refused [] (refresh_wanted demo_refused))
    by (split; reflexivity).
  assert (H2 : final (ttyspy_pass [] demo_refused) = Some demo_refused_end)
    by (vm_compute; reflexivity).
  split; [exact H1|]. split; [exact H2|]. split; [reflexivity|].
  destruct (enable_sent_once [] [] demo_refused (refresh_wanted demo_refused)
              demo_refused_end H1 H2) as (before & after & _ & _ & _ & _ & Hfail).
  assert (Hne : (-1) <> 0) by discriminate.
  destruct (Hfail (-1) [] eq_refl Hne) as (_ & _ & Hloop). exact (Hloop O).
Defined.

(** * More of the program *)

(** ** What a call leaves alone *)

Lemma served_refl (w : world) : served w w.
Proof. exists []. reflexivity. Qed.

Lemma served_trans (w1 w2 w3 : world) : served w1 w2 -> served w2 w3 -> served w1 w3.
Proof.
  intros (a & Ha) (b & Hb). exists (a ++ b). now rewrite Ha, Hb, app_assoc.
Qed.

Lemma frame_same (w w' : world) :
  vars w' = vars w -> term w' = term w -> chan_lists w' = chan_lists w -> frame w w'.
Proof.
  intros Hv Ht Hc. split; rewrite ?Hv; auto. exists []. now rewrite Hc.
Qed.

Lemma frame_trans (w1 w2 w3 : world) : frame w1 w2 -> frame w2 w3 -> frame w1 w3.
Proof.
  intros [A1 A2 A3 A4 A5 A6 A7] [B1 B2 B3 B4 B5 B6 B7]. split; try congruence.
  - destruct B6 as [B6|B6]; [rewrite B6; exact A6 | right; congruence].
  - eapply served_trans; eauto.
Qed.

Section Guard.

Variable R : world -> world -> Prop.
Variable X : world -> Z -> world -> Prop.
Variable sched_ok : sched_event -> Prop.

Hypothesis R_trans : forall w1 w2 w3, R w1 w2 -> R w2 w3 -> R w1 w3.
Hypothesis R_frame : forall w w', frame w w' -> R w w'.
Hypothesis X_restored : forall w w', term w' = origterm (vars w) -> X w EXIT_FAILURE w'.
Hypothesis X_later : forall w0 w status w', R w0 w -> X w status w' -> X w0 status w'.
Hypothesis X_disconnect :
  forall e, sched_ok e -> e = AmiDisconnected ->
  forall w w', vars w' = vars w -> term w' = term w -> X w EXIT_FAILURE w'.

Lemma guards_ret {A} (a : A) : guards R X (ret a).
Proof. intros w. apply R_frame, frame_same; reflexivity. Qed.

Lemma guards_bind {A B} (c : M A) (k : A -> M B) :
  guards R X c -> (forall a, guards R X (k a)) -> guards R X (bind c k).
Proof.
  intros Hc Hk w. unfold bind. specialize (Hc w).
  destruct (c w) as [a w1|s w1|w1|w1|]; auto.
  specialize (Hk a w1). destruct (k a w1) as [b w2|s w2|w2|w2|]; auto.
  - eapply R_trans; eauto.
  - eapply X_later; eauto.
Qed.

(** A call that returns or waits, and touches nothing the frame names. *)
Lemma guards_same {A} (c : M A) :
  (forall w, match c w with
             | Ret _ w' | Blocked w' | Undefined w' =>
                 vars w' = vars w /\ term w' = term w /\ chan_lists w' = chan_lists w
             | _ => False
             end) ->
  guards R X c.
Proof.
  intros H w. specialize (H w). destruct (c w); auto.
  - destruct H as (Hv & Ht & Hc). apply R_frame, frame_same; assumption.
  - contradiction.
Qed.

Lemma guards_emit (e : effect) : guards R X (emit e).
Proof. apply guards_same. intros w. cbn. auto. Qed.

Lemma guards_block {A} : guards R X (@block A).
Proof. intros w. exact I. Qed.

Lemma guards_undefined {A} : guards R X (@undefined A).
Proof. intros w. exact I. Qed.

Lemma guards_deref {A} (p : option A) : guards R X (deref p).
Proof. destruct p; [apply guards_ret | apply guards_undefined]. Qed.

Lemma guards_var {A} (field : globals -> A) : guards R X (var field).
Proof. apply guards_same. intros w. cbn. auto. Qed.

Lemma guards_flag (set : globals -> globals) :
  (forall g, ttychan (set g) = ttychan g /\ origterm (set g) = origterm g
             /\ ttyterm (set g) = ttyterm g /\ tty_active (set g) = tty_active g
             /\ always_refresh (set g) = always_refresh g) ->
  guards R X (assign set).
Proof.
  intros H w. cbn. destruct (H (vars w)) as (H1 & H2 & H3 & H4 & H5).
  apply R_frame. split; cbn; auto. exists []. reflexivity.
Qed.

Lemma guards_strdup (s : string) : guards R X (strdup s).
Proof.
  apply guards_same. intros w. unfold strdup. destruct (heap w) as [|[|] h]; cbn; auto.
Qed.

Lemma guards_read (n : nat) : guards R X (read n).
Proof.
  apply guards_same. intros w. unfold read.
  destruct (stdin w) as [|[|bytes] q]; cbn; auto.
Qed.

Lemma guards_fgets (n : nat) : guards R X (fgets n).
Proof.
  apply guards_same. intros w. unfold fgets.
  destruct (fgets_from (stdin w) (n - 1) []) as [[r q]|]; cbn; auto.
Qed.

Lemma guards_ami_action (name fmt : string) (args : list arg) :
  guards R X (ami_action name fmt args).
Proof.
  apply guards_same. intros w. unfold ami_action. cbn.
  destruct (ami_results w); cbn; auto.
Qed.

Lemma guards_show_channels : guards R X ami_action_show_channels.
Proof.
  intros w. unfold ami_action_show_channels. cbn.
  destruct (chan_lists w) as [|r rest] eqn:E; [exact I|].
  apply R_frame. split; cbn; auto. exists [r]. cbn. now rewrite E.
Qed.

Ltac guards_step :=
  match goal with
  | |- guards _ _ (ret _) => apply guards_ret
  | |- guards _ _ (bind _ _) => apply guards_bind; [|intros]
  | |- guards _ _ (var _) => apply guards_var
  | |- guards _ _ (deref _) => apply guards_deref
  | |- guards _ _ (assign (set_new_channel _)) => apply guards_flag; intros; cbn; auto
  | |- guards _ _ (assign (set_our_turn _)) => apply guards_flag; intros; cbn; auto
  | |- guards _ _ (printf _ _) => apply guards_emit
  | |- guards _ _ (fprintf_stderr _ _) => apply guards_emit
  | |- guards _ _ fflush_stdout => apply guards_emit
  | |- guards _ _ (usleep _) => apply guards_emit
  | |- guards _ _ ami_disconnect => apply guards_emit
  | |- guards _ _ block => apply guards_block
  | |- guards _ _ undefined => apply guards_undefined
  | |- guards _ _ (strdup _) => apply guards_strdup
  | |- guards _ _ (read _) => apply guards_read
  | |- guards _ _ (fgets _) => apply guards_fgets
  | |- guards _ _ ami_action_show_channels => apply guards_show_channels
  | |- guards _ _ (ami_action _ _ _) => apply guards_ami_action
  | |- guards _ _ (if ?b then _ else _) => destruct b
  | |- guards _ _ (match ?x with _ => _ end) => destruct x
  end.

Lemma guards_ami_callback (event : ami_event) : guards R X (ami_callback event).
Proof. unfold ami_callback. repeat guards_step. Qed.

Lemma guards_restore_term (num : Z) : guards R X (restore_term num).
Proof. intros w. cbn. apply X_restored. reflexivity. Qed.

Lemma guards_asynchronous (e : sched_event) : sched_ok e -> guards R X (asynchronous e).
Proof.
  intros Hok. destruct e; cbn [asynchronous].
  - apply guards_ret.
  - apply guards_ami_callback.
  - intros w. cbn. apply (X_disconnect AmiDisconnected Hok eq_refl); reflexivity.
  - apply guards_restore_term.
Qed.

Lemma guards_send_dtmf (digit : ascii) : guards R X (send_dtmf digit).
Proof. unfold send_dtmf. repeat guards_step. Qed.

Lemma guards_send_msg (typed : string) : guards R X (send_msg typed).
Proof. unfold send_msg. repeat guards_step. Qed.

Lemma guards_send_number (digits : list ascii) : guards R X (send_number digits).
Proof.
  induction digits as [|c rest IH]; cbn [send_number]; [apply guards_undefined|].
  repeat first [ exact IH | apply guards_send_dtmf | guards_step ].
Qed.

(** The dial command sets the terminal to the saved attributes for the time
    of the read and back to the relay attributes after it. *)
Lemma guards_dial {A} (fmt : string) (n : nat) (k : option (list ascii) -> M A) :
  (forall r, guards R X (k r)) ->
  guards R X (printf fmt [] ;;
              fflush_stdout ;;
              orig <- var origterm ;;
              tcsetattr orig ;;
              digits_read <- read n ;;
              tty <- var ttyterm ;;
              tcsetattr tty ;;
              k digits_read).
Proof.
  intros Hk w.
  assert (Hgo : forall r w2, vars w2 = vars w -> term w2 = ttyterm (vars w) ->
                             chan_lists w2 = chan_lists w ->
                             match k r w2 with
                             | Ret _ w' => R w w'
                             | Exited status w' => X w status w'
                             | _ => True
                             end).
  { intros r w2 Hv Ht Hc. specialize (Hk r w2).
    assert (Hf : frame w w2).
    { split; rewrite ?Hv; auto. exists []. now rewrite Hc. }
    destruct (k r w2); auto.
    - eapply R_trans; [apply R_frame; exact Hf | exact Hk].
    - eapply X_later; [apply R_frame; exact Hf | exact Hk]. }
  unfold bind, printf, fflush_stdout, emit, var, tcsetattr, read.
  cbn [stdin log set_term].
  destruct (stdin w) as [|[|bytes] q]; [exact I | |]; apply Hgo; reflexivity.
Qed.

Lemma guards_control_action (key : ascii) (l : locals) : guards R X (control_action key l).
Proof.
  unfold control_action.
  repeat first [ apply guards_dial; intros | apply guards_send_number | apply guards_send_msg
               | guards_step ].
Qed.

Lemma guards_handle_input_ready (l : locals) : guards R X (handle_input_ready l).
Proof.
  unfold handle_input_ready.
  repeat first [ apply guards_control_action | apply guards_send_msg
               | apply guards_send_dtmf | guards_step ].
Qed.

Lemma guards_handle_input_loop (sched : list sched_event) (l : locals) :
  Forall sched_ok sched -> guards R X (handle_input_loop sched l).
Proof.
  intros Hok. revert l. induction Hok as [|e sched He _ IH]; intros l;
    cbn [handle_input_loop]; [apply guards_block|].
  destruct e as [[| | |]| | |];
    repeat first [ apply IH | apply guards_handle_input_ready
                 | apply guards_asynchronous; exact He | guards_step ].
Qed.

Lemma guards_handle_input (sched : list sched_event) :
  Forall sched_ok sched -> guards R X (handle_input sched).
Proof. intros Hok w. unfold handle_input. apply guards_handle_input_loop. exact Hok. Qed.

Lemma guards_wait_for_input (timeout : Z) (sched : list sched_event) :
  Forall sched_ok sched -> guards R X (wait_for_input timeout sched).
Proof.
  intros Hok. induction Hok as [|e sched He _ IH]; cbn [wait_for_input];
    [apply guards_block|].
  destruct e as [[| | |]| | |];
    repeat first [ apply IH | apply guards_asynchronous; exact He | guards_step ].
Qed.

Lemma guards_print_channels_from (n : nat) (k : Z) (listing : ami_response) :
  guards R X (print_channels_from n k listing).
Proof.
  revert k. induction n as [|n IH]; intros k; cbn [print_channels_from]; [apply guards_ret|].
  unfold print_channel. repeat first [ apply IH | guards_step ].
Qed.

Lemma guards_get_channel_refresh (l : selection) : guards R X (get_channel_refresh l).
Proof.
  unfold get_channel_refresh, print_channels.
  repeat first [ apply guards_print_channels_from | guards_step ].
Qed.

(** The session also changes the channel, the phase and the terminal; all
    that is left of the frame there is [origterm]. *)
Hypothesis R_origterm :
  forall w w', origterm (vars w') = origterm (vars w) -> R w w'.

Lemma guards_assign (set : globals -> globals) :
  (forall g, origterm (set g) = origterm g) -> guards R X (assign set).
Proof. intros H w. cbn. apply R_origterm. cbn. apply H. Qed.

Lemma guards_tcsetattr (t : termios) : guards R X (tcsetattr t).
Proof. intros w. cbn. apply R_origterm. reflexivity. Qed.

Ltac session_step :=
  first
    [ guards_step
    | match goal with
      | |- guards _ _ (assign _) => apply guards_assign; reflexivity
      | |- guards _ _ (tcsetattr _) => apply guards_tcsetattr
      | |- guards _ _ signal_sigint => apply guards_emit
      end ].

Lemma guards_get_channel_pass (sched : list sched_event) (l : selection) :
  Forall sched_ok sched -> guards R X (get_channel_pass sched l).
Proof.
  intros Hok.
  unfold get_channel_pass, get_channel_select, get_channel_end, strncpy_ttychan.
  repeat first [ apply guards_get_channel_refresh | apply guards_wait_for_input; exact Hok
               | session_step ].
Qed.

Lemma wait_for_input_rest (timeout : Z) (sched sched' : list sched_event)
      (w w' : world) (res : Z) :
  Forall sched_ok sched ->
  wait_for_input timeout sched w = Ret (res, sched') w' -> Forall sched_ok sched'.
Proof.
  intros Hok. revert w. induction Hok as [|e sched He Hok IH]; intros w;
    cbn [wait_for_input]; [discriminate|].
  destruct e as [[| | |]| | |]; try (apply IH);
    try (intros H; injection H as _ <- _; exact Hok);
    unfold bind; intros H;
    match type of H with
    | match ?c with _ => _ end = _ => destruct c; try discriminate; exact (IH _ H)
    end.
Qed.

Lemma handle_input_loop_rest (sched sched' : list sched_event) (l : locals)
      (w w' : world) (res : Z) :
  Forall sched_ok sched ->
  handle_input_loop sched l w = Ret (res, sched') w' -> Forall sched_ok sched'.
Proof.
  intros Hok. revert l w. induction Hok as [|e sched He Hok IH]; intros l w;
    cbn [handle_input_loop]; [discriminate|].
  destruct e as [[| | |]| | |]; try (apply IH);
    try (intros H; injection H as _ <- _; exact Hok);
    unfold bind; intros H;
    match type of H with
    | match ?c with _ => _ end = _ => destruct c as [a ? | | | |]; try discriminate
    end; try exact (IH _ _ H).
  destruct a; [exact (IH _ _ H)|]. injection H as _ <- _. exact Hok.
Qed.

Lemma get_channel_pass_rest (sched sched' : list sched_event) (l : selection)
      (w w' : world) (pass : ctl selection) :
  Forall sched_ok sched ->
  get_channel_pass sched l w = Ret (pass, sched') w' -> Forall sched_ok sched'.
Proof.
  intros Hok. unfold get_channel_pass, bind at 1.
  destruct (get_channel_refresh l w) as [[l1|v] w1| | | |]; try discriminate.
  - unfold bind at 1.
    destruct (wait_for_input 1000 sched w1) as [[res sched1] w2| | | |] eqn:Hwait;
      try discriminate.
    apply wait_for_input_rest in Hwait; [|exact Hok].
    destruct (res <? 0).
    + unfold bind. destruct (get_channel_end (-1) l1 w2); try discriminate.
      intros H. injection H as _ <- _. exact Hwait.
    + destruct (res =? 0).
      * intros H. injection H as _ <- _. exact Hwait.
      * unfold bind at 1. destruct (fgets CHANNO_SIZE w2) as [[bytes|] ? | | | |];
          try discriminate.
        -- unfold bind. destruct (get_channel_select _ l1 _); try discriminate.
           intros H. injection H as _ <- _. exact Hwait.
        -- unfold bind. destruct (get_channel_end (-1) l1 _); try discriminate.
           intros H. injection H as _ <- _. exact Hwait.
  - intros H. injection H as _ <- _. exact Hok.
Qed.

Lemma guards_get_channel_loop (fuel : nat) (sched : list sched_event) (l : selection) :
  Forall sched_ok sched -> guards R X (get_channel_loop fuel sched l).
Proof.
  revert sched l. induction fuel as [|fuel IH]; intros sched l Hok; cbn [get_channel_loop].
  - intros w. exact I.
  - intros w. unfold bind.
    pose proof (guards_get_channel_pass sched l Hok w) as Hp.
    destruct (get_channel_pass sched l w) as [[[l'|v] sched1] w1| | | |] eqn:Hpass; auto.
    + apply get_channel_pass_rest in Hpass; [|exact Hok].
      pose proof (IH sched1 l' Hpass w1) as Hn.
      destruct (get_channel_loop fuel sched1 l' w1); auto.
      * eapply R_trans; eauto.
      * eapply X_later; eauto.
Qed.

Lemma get_channel_loop_rest (fuel : nat) (sched sched' : list sched_event) (l : selection)
      (w w' : world) (res : Z) :
  Forall sched_ok sched ->
  get_channel_loop fuel sched l w = Ret (res, sched') w' -> Forall sched_ok sched'.
Proof.
  revert sched l w. induction fuel as [|fuel IH]; intros sched l w Hok;
    cbn [get_channel_loop]; [discriminate|].
  unfold bind.
  destruct (get_channel_pass sched l w) as [[[l'|v] sched1] w1| | | |] eqn:Hpass;
    try discriminate; apply get_channel_pass_rest in Hpass; try exact Hok.
  - apply IH. exact Hpass.
  - intros H. injection H as _ <- _. exact Hpass.
Qed.

Lemma guards_bind_result {A B} (c : M A) (k : A -> M B) :
  guards R X c ->
  (forall a, (exists w w', c w = Ret a w') -> guards R X (k a)) ->
  guards R X (bind c k).
Proof.
  intros Hc Hk w. unfold bind. specialize (Hc w).
  destruct (c w) as [a w1|s w1|w1|w1|] eqn:E; auto.
  assert (Hka : guards R X (k a)) by (apply Hk; eauto).
  specialize (Hka w1). destruct (k a w1) as [b w2|s w2|w2|w2|]; auto.
  - eapply R_trans; eauto.
  - eapply X_later; eauto.
Qed.

Lemma guards_get_channel (sched : list sched_event) :
  Forall sched_ok sched -> guards R X (get_channel sched).
Proof. apply guards_get_channel_loop. Qed.

Lemma guards_ttyspy_pass (sched : list sched_event) :
  Forall sched_ok sched -> guards R X (ttyspy_pass sched).
Proof.
  intros Hok. unfold ttyspy_pass.
  apply guards_bind; [session_step | intros _].
  apply guards_bind; [session_step | intros chan].
  apply guards_bind_result.
  - destruct (String.eqb chan EmptyString); [apply guards_get_channel; exact Hok | apply guards_ret].
  - intros [res sched1] (w1 & w2 & Hsel).
    assert (Hok1 : Forall sched_ok sched1).
    { destruct (String.eqb chan EmptyString).
      - unfold get_channel in Hsel. eapply get_channel_loop_rest; eauto.
      - injection Hsel as _ <- _. exact Hok. }
    repeat first [ apply guards_handle_input; exact Hok1 | session_step ].
Qed.

Lemma ttyspy_pass_rest (sched sched' : list sched_event) (w w' : world) (again : bool) :
  Forall sched_ok sched ->
  ttyspy_pass sched w = Ret (again, sched') w' -> Forall sched_ok sched'.
Proof.
  intros Hok. unfold ttyspy_pass. unfold bind at 1, assign. unfold bind at 1, var.
  unfold bind at 1.
  set (w0 := set_vars _ w).
  assert (Hsel : forall (sched1 : list sched_event) (res : Z) (v : world),
             Forall sched_ok sched1 ->
             (let '(res, sched) := (res, sched1) in
              if negb (res =? 0) then ret (false, sched)
              else
                chan <- var ttychan ;;
                res <- ami_action "TddRx" ("Channel:%s" +++ crlf +++ "Options:%s")
                                  [AStr (Some chan); AStr (Some TTY_RX_OPTIONS)] ;;
                if negb (res =? 0)
                then fprintf_stderr ("Failed to enable TTY on channel %s" +++ nl)
                                    [AStr (Some chan)] ;;
                     ret (false, sched)
                else
                  printf TERM_CLEAR [] ;;
                  printf ("*** AsTTYSpy ***" +++ nl) [] ;;
                  printf TTY_MENU_OPTS [] ;;
                  fflush_stdout ;;
                  tty <- var ttyterm ;;
                  assign (set_ttyterm (clear_lflag ICANON tty)) ;;
                  tty <- var ttyterm ;;
                  assign (set_ttyterm (clear_lflag ECHO tty)) ;;
                  assign (set_tty_active 2) ;;
                  tty <- var ttyterm ;;
                  tcsetattr tty ;;
                  handled <- handle_input sched ;;
                  let '(res, sched) := handled in
                  if negb (res =? 0) then ret (false, sched)
                  else assign (set_ttychan EmptyString) ;; ret (true, sched)) v
             = Ret (again, sched') w' -> Forall sched_ok sched').
  { intros sched1 res v Hok1. cbv beta iota.
    destruct (negb (res =? 0)); [intros H; injection H as _ <- _; exact Hok1|].
    unfold bind at 1, var. unfold bind at 1.
    destruct (ami_action _ _ _ v) as [r v1| | | |]; try discriminate.
    destruct (negb (r =? 0)).
    - unfold bind, fprintf_stderr, emit, ret. intros H. injection H as _ <- _. exact Hok1.
    - unfold printf, fflush_stdout, emit, bind, var, assign, tcsetattr.
      match goal with
      | |- context [handle_input sched1 ?u] =>
          destruct (handle_input sched1 u) as [[r2 s2] ?| | | |] eqn:Hh; try discriminate
      end.
      unfold handle_input in Hh. apply handle_input_loop_rest in Hh; [|exact Hok1].
      destruct (negb (r2 =? 0)); intros H; injection H as _ <- _; exact Hh. }
  destruct (String.eqb (ttychan (vars w0)) EmptyString).
  - destruct (get_channel sched w0) as [[res sched1] w1| | | |] eqn:Hg; try discriminate.
    unfold get_channel in Hg. apply get_channel_loop_rest in Hg; [|exact Hok].
    apply Hsel. exact Hg.
  - unfold ret at 1. apply Hsel. exact Hok.
Qed.

Lemma guards_ttyspy_loop (fuel : nat) (sched : list sched_event) :
  Forall sched_ok sched -> guards R X (ttyspy_loop fuel sched).
Proof.
  revert sched. induction fuel as [|fuel IH]; intros sched Hok; cbn [ttyspy_loop].
  - intros w. exact I.
  - apply guards_bind_result; [apply guards_ttyspy_pass; exact Hok|].
    intros [[|] sched1] (w1 & w2 & Hpass); [|apply guards_ret].
    apply IH. eapply ttyspy_pass_rest; eauto.
Qed.

End Guard.

(** ** The terminal at the end of the session *)

Lemma keeps_origterm_trans (w1 w2 w3 : world) :
  keeps_origterm w1 w2 -> keeps_origterm w2 w3 -> keeps_origterm w1 w3.
Proof. unfold keeps_origterm. congruence. Qed.

Lemma ttyspy_loop_restores (fuel : nat) (sched : list sched_event) :
  Forall not_disconnected sched ->
  guards keeps_origterm restored (ttyspy_loop fuel sched).
Proof.
  apply guards_ttyspy_loop.
  - exact keeps_origterm_trans.
  - intros w w' H. exact (frame_origterm _ _ H).
  - intros w w' H. split; [reflexivity | exact H].
  - intros w0 w status w' H [Hs Ht]. split; [exact Hs|]. now rewrite Ht, H.
  - intros e He ->. contradiction He. reflexivity.
  - intros w w' H. exact H.
Qed.

(** X1.  Unless the manager client forces a disconnect, every way [ttyspy]
    ends the process or returns leaves the terminal with the attributes it
    had on entry: it returns 0 after setting them back, and the interrupt
    handler exits with [EXIT_FAILURE] after setting them back. *)
Theorem ttyspy_restores_terminal (sched : list sched_event) (w : world) :
  Forall not_disconnected sched ->
  match ttyspy sched w with
  | Ret v w' => v = 0 /\ term w' = term w
  | Exited status w' => status = EXIT_FAILURE /\ term w' = term w
  | _ => True
  end.
Proof.
  intros Hok. unfold ttyspy, bind, tcgetattr, assign, var, signal_sigint, emit, tcsetattr.
  match goal with
  | |- context [ttyspy_loop ?f sched ?u] => set (start := u); set (fuel := f)
  end.
  assert (Horig : origterm (vars start) = term w) by reflexivity.
  clearbody start.
  pose proof (ttyspy_loop_restores fuel sched Hok start) as Hloop.
  destruct (ttyspy_loop fuel sched start) as [[] w1|status w1|w1|w1|]; auto.
  - unfold keeps_origterm in Hloop. cbn. split; [reflexivity|]. congruence.
  - destruct Hloop as [Hs Ht]. split; [exact Hs | congruence].
Qed.

(** ** What the input loop leaves alone *)

Lemma handle_input_loop_guards (sched : list sched_event) (l : locals) :
  guards frame any_exit (handle_input_loop sched l).
Proof.
  apply guards_handle_input_loop with (sched_ok := any_event).
  - exact frame_trans.
  - auto.
  - intros; exact I.
  - intros; exact I.
  - intros; exact I.
  - apply Forall_forall. intros; exact I.
Qed.

Lemma handle_input_kept
  (sched sched' : list sched_event) (w w' : world) (v : Z) :
  handle_input sched w = Ret (v, sched') w' -> frame w w'.
Proof.
  intros H. unfold handle_input in H.
  pose proof (handle_input_loop_guards sched
                (mk_locals 0 0 (uninitialised DIALNUM_SIZE w)) w) as Hg.
  rewrite H in Hg. exact Hg.
Qed.

Lemma frame_relay_mode (w w' : world) :
  frame w w' -> term w = ttyterm (vars w) -> term w' = ttyterm (vars w').
Proof.
  intros [_ _ H3 _ _ H6 _] Ht. rewrite H3. destruct H6 as [H6|H6]; congruence.
Qed.

(** X2.  Whatever is typed and whatever arrives, [handle_input] returns with
    the channel, the phase and both saved sets of terminal attributes as it
    found them, and with the terminal in relay mode if it was so before: the
    dial command puts back the relay attributes after its read. *)
Theorem handle_input_frame
  (sched sched' : list sched_event) (w w' : world) (v : Z) :
  handle_input sched w = Ret (v, sched') w' ->
  ttychan (vars w') = ttychan (vars w)
  /\ tty_active (vars w') = tty_active (vars w)
  /\ origterm (vars w') = origterm (vars w)
  /\ ttyterm (vars w') = ttyterm (vars w)
  /\ (term w = ttyterm (vars w) -> term w' = ttyterm (vars w')).
Proof.
  intros H. apply handle_input_kept in H.
  split; [exact (frame_ttychan _ _ H)|].
  split; [exact (frame_tty_active _ _ H)|].
  split; [exact (frame_origterm _ _ H)|].
  split; [exact (frame_ttyterm _ _ H)|].
  exact (frame_relay_mode _ _ H).
Qed.

(** ** The state in which a channel is selected again *)

Lemma clear_lflag_twice (t : termios) :
  Z.land (c_lflag (clear_lflag ECHO (clear_lflag ICANON t))) ICANON = 0
  /\ Z.land (c_lflag (clear_lflag ECHO (clear_lflag ICANON t))) ECHO = 0.
Proof.
  unfold clear_lflag. cbn [c_lflag]. split.
  - rewrite <- Z.land_assoc. change (Z.land (Z.lnot ECHO) ICANON) with ICANON.
    rewrite <- Z.land_assoc. change (Z.land (Z.lnot ICANON) ICANON) with 0.
    apply Z.land_0_r.
  - rewrite <- Z.land_assoc. change (Z.land (Z.lnot ECHO) ECHO) with 0.
    apply Z.land_0_r.
Qed.

(** X3.  When the session loop goes round again (after the hangup command)
    the channel is empty, so the next pass prompts for one; the phase is
    still 2 and the terminal still has the relay attributes, canonical mode
    and echo both off, while that prompt is shown. *)
Theorem ttyspy_pass_again (sched sched' : list sched_event) (w w' : world) :
  ttyspy_pass sched w = Ret (true, sched') w' ->
  ttychan (vars w') = EmptyString
  /\ tty_active (vars w') = 2
  /\ term w' = ttyterm (vars w')
  /\ Z.land (c_lflag (term w')) ICANON = 0
  /\ Z.land (c_lflag (term w')) ECHO = 0
  /\ origterm (vars w') = origterm (vars w).
Proof.
  unfold ttyspy_pass. unfold bind at 1, assign. unfold bind at 1, var. unfold bind at 1.
  set (w0 := set_vars _ w).
  assert (Hsel : forall (sched1 : list sched_event) (res : Z) (v : world),
             origterm (vars v) = origterm (vars w) ->
             (let '(res, sched) := (res, sched1) in
              if negb (res =? 0) then ret (false, sched)
              else
                chan <- var ttychan ;;
                res <- ami_action "TddRx" ("Channel:%s" +++ crlf +++ "Options:%s")
                                  [AStr (Some chan); AStr (Some TTY_RX_OPTIONS)] ;;
                if negb (res =? 0)
                then fprintf_stderr ("Failed to enable TTY on channel %s" +++ nl)
                                    [AStr (Some chan)] ;;
                     ret (false, sched)
                else
                  printf TERM_CLEAR [] ;;
                  printf ("*** AsTTYSpy ***" +++ nl) [] ;;
                  printf TTY_MENU_OPTS [] ;;
                  fflush_stdout ;;
                  tty <- var ttyterm ;;
                  assign (set_ttyterm (clear_lflag ICANON tty)) ;;
                  tty <- var ttyterm ;;
                  assign (set_ttyterm (clear_lflag ECHO tty)) ;;
                  assign (set_tty_active 2) ;;
                  tty <- var ttyterm ;;
                  tcsetattr tty ;;
                  handled <- handle_input sched ;;
                  let '(res, sched) := handled in
                  if negb (res =? 0) then ret (false, sched)
                  else assign (set_ttychan EmptyString) ;; ret (true, sched)) v
             = Ret (true, sched') w' ->
             ttychan (vars w') = EmptyString
             /\ tty_active (vars w') = 2
             /\ term w' = ttyterm (vars w')
             /\ Z.land (c_lflag (term w')) ICANON = 0
             /\ Z.land (c_lflag (term w')) ECHO = 0
             /\ origterm (vars w') = origterm (vars w)).
  { intros sched1 res v Hv. cbv beta iota.
    destruct (negb (res =? 0)); [discriminate|].
    unfold bind at 1, var. unfold bind at 1.
    destruct (ami_action _ _ _ v) as [r v1| | | |] eqn:Ha; try discriminate.
    assert (Hv1 : origterm (vars v1) = origterm (vars v)).
    { unfold ami_action in Ha. cbn [ami_results log] in Ha.
      destruct (ami_results v); [discriminate|]. injection Ha as _ <-. reflexivity. }
    destruct (negb (r =? 0)).
    - unfold bind, fprintf_stderr, emit, ret. discriminate.
    - unfold printf, fflush_stdout, emit, bind, var, assign, tcsetattr.
      match goal with
      | |- context [handle_input sched1 ?u] =>
          set (relay := u);
          assert (Hr : tty_active (vars relay) = 2
                       /\ ttyterm (vars relay)
                          = clear_lflag ECHO (clear_lflag ICANON (ttyterm (vars v1)))
                       /\ term relay = ttyterm (vars relay)
                       /\ origterm (vars relay) = origterm (vars v1))
            by (repeat split; reflexivity);
          clearbody relay
      end.
      destruct Hr as (Hact & Htty & Hterm & Horig).
      destruct (handle_input sched1 relay) as [[r2 s2] w4| | | |] eqn:Hh; try discriminate.
      apply handle_input_kept in Hh.
      pose proof (frame_tty_active _ _ Hh) as F2.
      pose proof (frame_origterm _ _ Hh) as F3.
      pose proof (frame_ttyterm _ _ Hh) as F4.
      pose proof (frame_relay_mode _ _ Hh) as F5.
      destruct (negb (r2 =? 0)); [discriminate|].
      intros H. injection H as _ <-. cbn [vars set_vars ttychan set_ttychan tty_active
                                          ttyterm origterm term].
      specialize (F5 Hterm).
      destruct (clear_lflag_twice (ttyterm (vars v1))) as [B1 B2].
      split; [reflexivity|]. split; [congruence|]. split; [exact F5|].
      split; [rewrite F5, F4, Htty; exact B1|].
      split; [rewrite F5, F4, Htty; exact B2|]. congruence. }
  destruct (String.eqb (ttychan (vars w0)) EmptyString).
  - destruct (get_channel sched w0) as [[res sched1] w1| | | |] eqn:Hg; try discriminate.
    apply Hsel.
    pose proof (guards_get_channel keeps_origterm any_exit any_event
                  keeps_origterm_trans (fun w w' H => frame_origterm _ _ H)
                  (fun _ _ _ => I) (fun _ _ _ _ _ _ => I) (fun _ _ _ _ _ _ _ => I)
                  (fun _ _ H => H) sched
                  (proj2 (Forall_forall _ _) (fun _ _ => I)) w0) as Hk.
    rewrite Hg in Hk. exact Hk.
  - unfold ret at 1. apply Hsel. reflexivity.
Qed.

(** ** Events that are not text for the session *)

Lemma topology_event_not_text (name : string) :
  topology_event name = true -> String.eqb name "TddRxMsg" = false.
Proof.
  unfold topology_event. intros H.
  destruct (String.eqb name "TddRxMsg") eqn:E; [|reflexivity].
  apply String.eqb_eq in E. subst name. discriminate H.
Qed.

(** X4.  An event that is not text for the channel of the running relay
    (the relay is not active, or the event is of another kind, or it names
    another channel) prints nothing and leaves the turn alone.  Its only
    effect is to set [new_channel] when it is a channel event and the phase
    is 1; in phase 2 channel events do nothing at all. *)
Theorem ami_callback_ignores (event : ami_event) (w : world) (name : string) :
  ami_keyvalue event "Event" = Some name ->
  tty_active (vars w) < 2
  \/ name <> "TddRxMsg"
  \/ (exists c, ami_keyvalue event "Channel" = Some c /\ c <> ttychan (vars w)) ->
  ami_callback event w
  = Ret tt (if (tty_active (vars w) =? 1) && topology_event name
            then refresh_wanted w else w).
Proof.
  intros Hname Hwhy. unfold ami_callback, bind, var. rewrite Hname. cbn [deref].
  destruct (tty_active (vars w) =? 1) eqn:E1; cbn [andb].
  - unfold ret at 1. destruct (topology_event name); [reflexivity|].
    apply Z.eqb_eq in E1. rewrite E1. reflexivity.
  - unfold ret at 1. destruct (tty_active (vars w) <? 2) eqn:E2; [reflexivity|].
    unfold ret at 1.
    destruct Hwhy as [H|[H|(c & Hc & Hne)]].
    + apply Z.ltb_ge in E2. lia.
    + apply String.eqb_neq in H. rewrite H. reflexivity.
    + destruct (String.eqb name "TddRxMsg"); [|reflexivity].
      cbn [negb]. rewrite Hc. cbn [deref]. unfold ret at 1.
      apply String.eqb_neq in Hne. rewrite Hne. reflexivity.
Qed.

(** ** Waiting at the prompt *)

Lemma ami_callback_topology (event : ami_event) (w : world) (name : string) :
  ami_keyvalue event "Event" = Some name ->
  topology_event name = true ->
  ami_callback event w
  = Ret tt (if tty_active (vars w) =? 1 then refresh_wanted w else w).
Proof.
  intros Hname Htopo. unfold ami_callback, bind, var. rewrite Hname. cbn [deref].
  destruct (tty_active (vars w) =? 1) eqn:E1.
  - unfold ret at 1. rewrite Htopo. reflexivity.
  - unfold ret at 1. destruct (tty_active (vars w) <? 2); [reflexivity|].
    unfold ret at 1. rewrite (topology_event_not_text name Htopo). reflexivity.
Qed.

Lemma get_channel_refresh_idle (l : selection) (w : world) :
  new_channel (vars w) = 0 -> always_refresh (vars w) = 0 ->
  get_channel_refresh l w = Ret (Continue l) w.
Proof.
  intros Hn Ha. unfold get_channel_refresh, bind, var. rewrite Hn, Ha. reflexivity.
Qed.

(** X5.  At the prompt, with nothing to refresh and without the option -r,
    a poll that times out prints nothing.  A channel event that arrives
    during the wait makes the following pass print the list again, but only
    in phase 1: in phase 2 (a selection after a hangup) the event is lost
    and the list stays as it is. *)
Theorem prompt_refresh_on_event
  (event : ami_event) (name : string) (sched : list sched_event)
  (l : selection) (w : world) :
  ami_keyvalue event "Event" = Some name ->
  topology_event name = true ->
  new_channel (vars w) = 0 ->
  always_refresh (vars w) = 0 ->
  get_channel_pass (Poll PollTimeout :: sched) l w = Ret (Continue l, sched) w
  /\ get_channel_pass (AmiEvent event :: Poll PollTimeout :: sched) l w
     = Ret (Continue l, sched) (if tty_active (vars w) =? 1 then refresh_wanted w else w)
  /\ (forall (listing : ami_response) (rest : list (option ami_response)),
        chan_lists w = Some listing :: rest ->
        get_channel_refresh l (refresh_wanted w)
        = Ret (Continue (mk_selection (channo l) (chan_no l) (Some listing)
                                      (Some (Z.max 1 (size listing - 1))) 0))
              (set_vars (set_new_channel 0 (vars w))
                 (add_trace (SELECT_BANNER ++ CHANNELS_HEADER listing
                             ++ channel_rows 1 (channels_of listing)
                             ++ INVALID_NOTE l ++ PROMPT)
                            (set_chan_lists rest w)))).
Proof.
  intros Hname Htopo Hn Ha.
  pose proof (ami_callback_topology event w name Hname Htopo) as Hcb.
  split; [|split].
  - unfold get_channel_pass, bind. rewrite get_channel_refresh_idle by assumption.
    reflexivity.
  - unfold get_channel_pass, bind at 1. rewrite get_channel_refresh_idle by assumption.
    cbn [wait_for_input asynchronous]. unfold bind. rewrite Hcb. reflexivity.
  - intros listing rest Hq.
    rewrite (get_channel_refresh_shown l (refresh_wanted w) listing rest);
      [reflexivity | left; cbn; lia | exact Hq].
Qed.

(** ** What a selection returns *)

Lemma served_in (w0 w : world) (r : option ami_response) (rest : list (option ami_response)) :
  served w0 w -> chan_lists w = r :: rest -> In r (chan_lists w0).
Proof.
  intros [used Hu] Hq. rewrite Hu, Hq. apply in_or_app. right. left. reflexivity.
Qed.

Lemma frame_new_channel (w : world) (n : Z) :
  frame w (set_vars (set_new_channel n (vars w)) w).
Proof. split; cbn; auto. exists []. reflexivity. Qed.

Lemma get_channel_refresh_frame (l : selection) :
  guards frame any_exit (get_channel_refresh l).
Proof.
  apply guards_get_channel_refresh.
  - exact frame_trans.
  - auto.
  - intros; exact I.
Qed.

Lemma wait_for_input_frame (timeout : Z) (sched : list sched_event) :
  guards frame any_exit (wait_for_input timeout sched).
Proof.
  apply guards_wait_for_input with (sched_ok := any_event).
  - exact frame_trans.
  - auto.
  - intros; exact I.
  - intros; exact I.
  - intros; exact I.
  - apply Forall_forall. intros; exact I.
Qed.

Lemma fgets_frame (n : nat) : guards frame any_exit (fgets n).
Proof. apply guards_fgets. auto. Qed.

Lemma get_channel_refresh_unavailable
  (l : selection) (w : world) (rest : list (option ami_response)) :
  new_channel (vars w) <> 0 \/ always_refresh (vars w) <> 0 ->
  chan_lists w = None :: rest ->
  get_channel_refresh l w
  = Ret (Return (-1))
        (add_trace (SELECT_BANNER
                    ++ [AmiShowChannels;
                        FprintfStderr ("Failed to get channel list" +++ nl) []])
                   (set_chan_lists rest w)).
Proof.
  intros Hnew Hq. unfold get_channel_refresh, bind at 1, var. unfold bind at 1.
  assert (Hc : negb (new_channel (vars w) =? 0) || negb (always_refresh (vars w) =? 0) = true).
  { apply orb_true_iff. destruct Hnew as [H|H]; [left|right];
      apply negb_true_iff, Z.eqb_neq; exact H. }
  rewrite Hc.
  unfold print_channels, ami_action_show_channels, printf, fprintf_stderr, fflush_stdout,
    emit, bind, ret.
  cbn [chan_lists log]. rewrite Hq.
  apply Ret_ext. unfold SELECT_BANNER. same_world.
Qed.

Lemma get_channel_refresh_listed (w0 : world) (l l' : selection) (w w' : world) :
  listed w0 l -> served w0 w ->
  get_channel_refresh l w = Ret (Continue l') w' -> listed w0 l'.
Proof.
  intros Hl Hs H.
  destruct (negb (new_channel (vars w) =? 0) || negb (always_refresh (vars w) =? 0)) eqn:Hc.
  - assert (Hnew : new_channel (vars w) <> 0 \/ always_refresh (vars w) <> 0).
    { apply orb_true_iff in Hc. destruct Hc as [E|E]; [left|right];
        apply negb_true_iff, Z.eqb_neq in E; exact E. }
    destruct (chan_lists w) as [|[r|] rest] eqn:Hq.
    + exfalso. revert H. unfold get_channel_refresh, bind at 1, var. unfold bind at 1.
      rewrite Hc.
      unfold print_channels, ami_action_show_channels, printf, fflush_stdout, emit, bind, ret.
      cbn [chan_lists log]. rewrite Hq. discriminate.
    + rewrite (get_channel_refresh_shown l w r rest Hnew Hq) in H.
      injection H as <- _. unfold listed. cbn [resp i].
      split; [reflexivity|]. eapply served_in; eauto.
    + rewrite (get_channel_refresh_unavailable l w rest Hnew Hq) in H. discriminate H.
  - revert H. unfold get_channel_refresh, bind, var. rewrite Hc. unfold ret.
    intros H. injection H as <- _. exact Hl.
Qed.

Lemma get_channel_refresh_fails (l : selection) (w w' : world) (v : Z) :
  get_channel_refresh l w = Ret (Return v) w' -> v = -1.
Proof.
  intros H.
  destruct (negb (new_channel (vars w) =? 0) || negb (always_refresh (vars w) =? 0)) eqn:Hc.
  - assert (Hnew : new_channel (vars w) <> 0 \/ always_refresh (vars w) <> 0).
    { apply orb_true_iff in Hc. destruct Hc as [E|E]; [left|right];
        apply negb_true_iff, Z.eqb_neq in E; exact E. }
    destruct (chan_lists w) as [|[r|] rest] eqn:Hq.
    + exfalso. revert H. unfold get_channel_refresh, bind at 1, var. unfold bind at 1.
      rewrite Hc.
      unfold print_channels, ami_action_show_channels, printf, fflush_stdout, emit, bind, ret.
      cbn [chan_lists log]. rewrite Hq. discriminate.
    + rewrite (get_channel_refresh_shown l w r rest Hnew Hq) in H. discriminate H.
    + rewrite (get_channel_refresh_unavailable l w rest Hnew Hq) in H.
      injection H as <- _. reflexivity.
  - revert H. unfold get_channel_refresh, bind, var. rewrite Hc. unfold ret. discriminate.
Qed.

Lemma get_channel_end_failure (l : selection) (w : world) :
  get_channel_end (-1) l w = Ret (-1) w.
Proof. reflexivity. Qed.

Lemma copy_of_substring (field : string) :
  copy_of field (substring 0 TTYCHAN_SIZE field).
Proof.
  destruct (substring_prefix TTYCHAN_SIZE field) as [Hmore Hlen].
  split; [exact Hmore|]. split; [exact Hlen|].
  intros H. apply substring_short. lia.
Qed.

Lemma get_channel_end_success (l : selection) (w w' : world) (v : Z) :
  get_channel_end 0 l w = Ret v w' ->
  exists (events : ami_response) (event : ami_event) (field id : string),
    resp l = Some events
    /\ nth_error events (Z.to_nat (chan_no l)) = Some event
    /\ ami_keyvalue event "Channel" = Some field
    /\ copy_of field id
    /\ v = 0
    /\ w' = set_vars (set_ttychan id (vars w)) w.
Proof.
  unfold get_channel_end, strncpy_ttychan, bind, deref, assign, undefined, ret.
  cbn [Z.eqb].
  destruct (resp l) as [events|]; [|discriminate].
  destruct (nth_error events (Z.to_nat (chan_no l))) as [event|] eqn:Hnth; [|discriminate].
  destruct (ami_keyvalue event "Channel") as [field|] eqn:Hid; [|discriminate].
  intros H. injection H as <- <-.
  exists events, event, field, (substring 0 TTYCHAN_SIZE field).
  split; [reflexivity|]. split; [exact Hnth|]. split; [exact Hid|].
  split; [apply copy_of_substring|]. split; reflexivity.
Qed.

(** What one answer at the prompt does: the loop goes on with the same
    directory, or gives up, or has copied a channel that was offered. *)
Lemma get_channel_select_result
  (w0 : world) (line : string) (l : selection) (w w' : world) (pass : ctl selection) :
  listed w0 l ->
  get_channel_select line l w = Ret pass w' ->
  match pass with
  | Continue l' => listed w0 l' /\ frame w w'
  | Return v =>
      (v = -1 /\ w' = w)
      \/ (v = 0 /\ exists id, offered w0 id /\ w' = set_vars (set_ttychan id (vars w)) w)
  end.
Proof.
  intros Hl. unfold get_channel_select.
  destruct (strcasecmp_eq line ("q" +++ nl)).
  - unfold bind. rewrite get_channel_end_failure. unfold ret.
    intros H. injection H as <- <-. left. auto.
  - cbn [channo chan_no resp i invalid].
    destruct (String.eqb line nl); cbn [negb].
    + unfold bind, ret, assign. intros H. injection H as <- <-.
      split; [exact Hl|]. apply frame_new_channel.
    + unfold bind at 1. unfold bind at 1.
      destruct (1 <=? atoi line) eqn:E1.
      * unfold bind at 1. unfold deref.
        unfold listed in Hl.
        destruct (i l) as [limit|] eqn:Ei.
        2:{ unfold undefined. discriminate. }
        destruct (resp l) as [r|] eqn:Er; [|contradiction].
        destruct Hl as [Hlimit Hin].
        unfold bind, ret. cbv beta iota.
        destruct (atoi line <? limit) eqn:E2.
        -- match goal with
           | |- context [get_channel_end 0 ?s w] =>
               destruct (get_channel_end 0 s w) as [v1 w1| | | |] eqn:Hend; try discriminate
           end.
           apply get_channel_end_success in Hend.
           destruct Hend as (events & event & field & id & Hr & Hnth & Hid & Hlen & -> & ->).
           cbn [resp chan_no] in Hr, Hnth. injection Hr as <-.
           intros H. injection H as <- <-.
           right. split; [reflexivity|]. exists id. split; [|reflexivity].
           exists r, (atoi line), event, field.
           apply Z.leb_le in E1. apply Z.ltb_lt in E2.
           split; [exact Hin|]. split; [lia|]. auto.
        -- unfold assign. intros H. injection H as <- <-.
           split; [|apply frame_new_channel].
           unfold listed. cbn [resp i]. auto.
      * unfold bind, ret, assign. intros H. injection H as <- <-.
        split; [|apply frame_new_channel].
        unfold listed. cbn [resp i]. exact Hl.
Qed.

Lemma get_channel_pass_result
  (w0 : world) (sched sched' : list sched_event) (l : selection) (w w' : world)
  (pass : ctl selection) :
  listed w0 l -> served w0 w ->
  get_channel_pass sched l w = Ret (pass, sched') w' ->
  match pass with
  | Continue l' => listed w0 l' /\ frame w w'
  | Return v =>
      (v = -1 /\ frame w w')
      \/ (v = 0 /\ exists w1 id,
            frame w w1 /\ offered w0 id /\ w' = set_vars (set_ttychan id (vars w1)) w1)
  end.
Proof.
  intros Hl Hs. unfold get_channel_pass, bind at 1.
  pose proof (get_channel_refresh_frame l w) as F1.
  destruct (get_channel_refresh l w) as [[l1|v1] w1| | | |] eqn:Href; try discriminate.
  2:{ unfold ret. intros H. injection H as <- _ <-.
      left. split; [|exact F1]. eapply get_channel_refresh_fails; eauto. }
  apply (get_channel_refresh_listed w0) in Href; [|exact Hl|exact Hs].
  unfold bind at 1.
  pose proof (wait_for_input_frame 1000 sched w1) as F2.
  destruct (wait_for_input 1000 sched w1) as [[res sched1] w2| | | |]; try discriminate.
  assert (F12 : frame w w2) by (eapply frame_trans; eauto).
  destruct (res <? 0).
  { unfold bind. rewrite get_channel_end_failure. unfold ret.
    intros H. injection H as <- _ <-. left. auto. }
  destruct (res =? 0).
  { unfold ret. intros H. injection H as <- _ <-. auto. }
  unfold bind at 1.
  pose proof (fgets_frame CHANNO_SIZE w2) as F3.
  destruct (fgets CHANNO_SIZE w2) as [[bytes|] w3| | | |]; try discriminate.
  2:{ unfold bind. rewrite get_channel_end_failure. unfold ret.
      intros H. injection H as <- _ <-. left. split; [reflexivity|].
      eapply frame_trans; eauto. }
  assert (F13 : frame w w3) by (eapply frame_trans; eauto).
  unfold bind.
  destruct (get_channel_select (cstr bytes) l1 w3) as [p4 w4| | | |] eqn:Hsel; try discriminate.
  apply (get_channel_select_result w0) in Hsel; [|exact Href].
  unfold ret. intros H. injection H as <- _ <-.
  destruct p4 as [l4|v4].
  - destruct Hsel as [Hl4 F4]. split; [exact Hl4|]. eapply frame_trans; eauto.
  - destruct Hsel as [[-> ->]|[-> (id & Hid & ->)]].
    + left. auto.
    + right. split; [reflexivity|]. exists w3, id. auto.
Qed.

Lemma get_channel_loop_result
  (w0 : world) (fuel : nat) (sched sched' : list sched_event) (l : selection)
  (w w' : world) (v : Z) :
  listed w0 l -> frame w0 w ->
  get_channel_loop fuel sched l w = Ret (v, sched') w' ->
  (v = -1 /\ frame w0 w')
  \/ (v = 0 /\ exists w1 id,
        frame w0 w1 /\ offered w0 id /\ w' = set_vars (set_ttychan id (vars w1)) w1).
Proof.
  revert sched l w. induction fuel as [|fuel IH]; intros sched l w Hl F;
    cbn [get_channel_loop]; [discriminate|].
  unfold bind.
  destruct (get_channel_pass sched l w) as [[p1 sched1] w1| | | |] eqn:Hpass; try discriminate.
  apply (get_channel_pass_result w0) in Hpass; [|exact Hl|exact (frame_served _ _ F)].
  destruct p1 as [l1|v1].
  - destruct Hpass as [Hl1 F1]. apply IH; [exact Hl1|]. eapply frame_trans; eauto.
  - unfold ret. intros H. injection H as <- _ <-.
    destruct Hpass as [[-> F1]|[-> (w2 & id & F2 & Hid & ->)]].
    + left. split; [reflexivity|]. eapply frame_trans; eauto.
    + right. split; [reflexivity|]. exists w2, id.
      split; [eapply frame_trans; eauto|]. auto.
Qed.

(** X6.  [get_channel] returns -1 or 0 and nothing else.  With -1 the
    selected channel, the phase and the terminal settings are as before.
    With 0 the selected channel is what [strncpy] has left in the array of
    the Channel field of a row that was offered: row k, 1 <= k <= size - 2,
    of a listing the directory gave during this selection.  That is the
    field itself when it is shorter than the array; a longer field fills
    the array with its first [TTYCHAN_SIZE] bytes and no terminator, and
    [get_channel] returns 0 all the same. *)
Theorem get_channel_returns_offered
  (sched sched' : list sched_event) (w w' : world) (v : Z) :
  get_channel sched w = Ret (v, sched') w' ->
  tty_active (vars w') = tty_active (vars w)
  /\ origterm (vars w') = origterm (vars w)
  /\ ttyterm (vars w') = ttyterm (vars w)
  /\ ((v = -1 /\ ttychan (vars w') = ttychan (vars w))
      \/ (v = 0 /\ offered w (ttychan (vars w')))).
Proof.
  intros H. unfold get_channel in H.
  apply (get_channel_loop_result w) in H.
  - destruct H as [[-> F]|[-> (w1 & id & F & Hid & ->)]].
    + destruct F as [F1 F2 F3 F4 _ _ _]. auto 10.
    + destruct F as [F1 F2 F3 F4 _ _ _]. cbn.
      split; [exact F4|]. split; [exact F2|]. split; [exact F3|].
      right. auto.
  - exact I.
  - apply frame_same; reflexivity.
Qed.

(** A channel whose name has 300 bytes is selected like any other:
    [get_channel] returns 0 and the array is full, with the first 256 bytes
    of the name and no terminator. *)
Example get_channel_fills_ttychan :
  exists w' : world,
    get_channel [Poll PollReady]
      (set_stdin [RdData (bytes ("1" +++ nl))]
         (set_chan_lists
            [Some [[("Response", "Success")];
                   demo_channel (string_of_list_ascii (repeat "x"%char 300)) "201";
                   [("Event", "CoreShowChannelsComplete")]]]
            (refresh_wanted (demo_world EmptyString 1))))
    = Ret (0, []) w'
    /\ ttychan (vars w') = string_of_list_ascii (repeat "x"%char 256).
Proof. eexists. split; vm_compute; reflexivity. Qed.

(** ** The calls a relay and a selection make *)

Section Emits.

Variable J : world -> Prop.
Variable P : effect -> Prop.

Hypothesis J_vars : forall w w', vars w' = vars w -> J w -> J w'.
Hypothesis J_flag :
  forall (set : globals -> globals) w,
    (forall g, ttychan (set g) = ttychan g /\ origterm (set g) = origterm g
               /\ ttyterm (set g) = ttyterm g) ->
    J w -> J (set_vars (set (vars w)) w).
Hypothesis P_printf : forall fmt args, P (Printf fmt args).
Hypothesis P_stderr : forall fmt args, P (FprintfStderr fmt args).
Hypothesis P_fflush : P Fflush.
Hypothesis P_disconnect : P AmiDisconnect.
Hypothesis P_origterm : forall w, J w -> P (Tcsetattr (origterm (vars w))).

Lemma emits_bind {A B} (c : M A) (k : A -> M B) :
  emits J P c -> (forall a, emits J P (k a)) -> emits J P (bind c k).
Proof.
  intros Hc Hk w HJ w'. unfold bind. specialize (Hc w HJ).
  destruct (c w) as [a w1|s w1|w1|w1|]; try (intros H; apply Hc; exact H).
  destruct (Hc w1 eq_refl) as (J1 & a1 & T1 & F1).
  intros H. destruct (Hk a w1 J1 w' H) as (J2 & a2 & T2 & F2).
  split; [exact J2|]. exists (a1 ++ a2).
  split; [now rewrite T2, T1, app_assoc | now apply Forall_app].
Qed.

(** A call that leaves the globals and the trace as they are. *)
Lemma emits_plain {A} (c : M A) :
  (forall w, match c w with
             | Ret _ w' | Exited _ w' | Blocked w' | Undefined w' =>
                 vars w' = vars w /\ trace w' = trace w
             | OutOfFuel => True
             end) ->
  emits J P c.
Proof.
  intros H w HJ w' F. specialize (H w).
  destruct (c w); cbn [final] in F; try discriminate; injection F as <-;
    destruct H as [Hv Ht];
    (split; [eapply J_vars; eauto | exists []; now rewrite app_nil_r]).
Qed.

(** A call that is logged, and leaves the globals as they are. *)
Lemma emits_logged {A} (e : effect) (c : M A) :
  P e ->
  (forall w, match c w with
             | Ret _ w' | Exited _ w' | Blocked w' | Undefined w' =>
                 vars w' = vars w /\ trace w' = trace w ++ [e]
             | OutOfFuel => True
             end) ->
  emits J P c.
Proof.
  intros He H w HJ w' F. specialize (H w).
  destruct (c w); cbn [final] in F; try discriminate; injection F as <-;
    destruct H as [Hv Ht];
    (split; [eapply J_vars; eauto | exists [e]; split; [exact Ht | repeat constructor; exact He]]).
Qed.

Lemma emits_ret {A} (a : A) : emits J P (ret a).
Proof. apply emits_plain. intros w. cbn. auto. Qed.

Lemma emits_exit {A} (status : Z) : emits J P (@exit A status).
Proof. apply emits_plain. intros w. cbn. auto. Qed.

Lemma emits_block {A} : emits J P (@block A).
Proof. apply emits_plain. intros w. cbn. auto. Qed.

Lemma emits_undefined {A} : emits J P (@undefined A).
Proof. apply emits_plain. intros w. cbn. auto. Qed.

Lemma emits_deref {A} (p : option A) : emits J P (deref p).
Proof. destruct p; [apply emits_ret | apply emits_undefined]. Qed.

Lemma emits_var {A} (field : globals -> A) : emits J P (var field).
Proof. apply emits_plain. intros w. cbn. auto. Qed.

Lemma emits_strdup (s : string) : emits J P (strdup s).
Proof.
  apply emits_plain. intros w. unfold strdup. destruct (heap w) as [|[|] h]; cbn; auto.
Qed.

Lemma emits_read (n : nat) : emits J P (read n).
Proof.
  apply emits_plain. intros w. unfold read.
  destruct (stdin w) as [|[|bytes] q]; cbn; auto.
Qed.

Lemma emits_fgets (n : nat) : emits J P (fgets n).
Proof.
  apply emits_plain. intros w. unfold fgets.
  destruct (fgets_from (stdin w) (n - 1) []) as [[r q]|]; cbn; auto.
Qed.

Lemma emits_emit (e : effect) : P e -> emits J P (emit e).
Proof. intros He. apply (emits_logged e); [exact He|]. intros w. cbn. auto. Qed.

Lemma emits_ami_action (name fmt : string) (args : list arg) :
  P (AmiAction name fmt args) -> emits J P (ami_action name fmt args).
Proof.
  intros He. apply (emits_logged (AmiAction name fmt args)); [exact He|].
  intros w. unfold ami_action. cbn. destruct (ami_results w); cbn; auto.
Qed.

Lemma emits_flag (set : globals -> globals) :
  (forall g, ttychan (set g) = ttychan g /\ origterm (set g) = origterm g
             /\ ttyterm (set g) = ttyterm g) ->
  emits J P (assign set).
Proof.
  intros H w HJ w' F. cbn in F. injection F as <-.
  split; [apply J_flag; assumption | exists []; cbn; now rewrite app_nil_r].
Qed.

(** A global is read where [J] holds. *)
Lemma emits_var_bind {A B} (field : globals -> A) (k : A -> M B) :
  (forall w, emits_at J P (k (field (vars w))) w) -> emits J P (bind (var field) k).
Proof. intros H w. exact (H w). Qed.

Lemma emits_at_bind {A B} (c : M A) (k : A -> M B) (w : world) :
  emits_at J P c w -> (forall a, emits J P (k a)) -> emits_at J P (bind c k) w.
Proof.
  intros Hc Hk HJ w'. unfold bind. specialize (Hc HJ).
  destruct (c w) as [a w1|s w1|w1|w1|]; try (intros H; apply Hc; exact H).
  destruct (Hc w1 eq_refl) as (J1 & a1 & T1 & F1).
  intros H. destruct (Hk a w1 J1 w' H) as (J2 & a2 & T2 & F2).
  split; [exact J2|]. exists (a1 ++ a2).
  split; [now rewrite T2, T1, app_assoc | now apply Forall_app].
Qed.

Lemma emits_at_tcsetattr (t : termios) (w : world) :
  (J w -> P (Tcsetattr t)) -> emits_at J P (tcsetattr t) w.
Proof.
  intros He HJ w' F. cbn in F. injection F as <-.
  split; [eapply J_vars; [|exact HJ]; reflexivity|].
  exists [Tcsetattr t]. split; [reflexivity|]. repeat constructor. auto.
Qed.

Ltac emits_step :=
  match goal with
  | |- emits _ _ (ret _) => apply emits_ret
  | |- emits _ _ (exit _) => apply emits_exit
  | |- emits _ _ (bind _ _) => apply emits_bind; [|intros]
  | |- emits _ _ (var _) => apply emits_var
  | |- emits _ _ (deref _) => apply emits_deref
  | |- emits _ _ (assign (set_new_channel _)) => apply emits_flag; intros; cbn; auto
  | |- emits _ _ (assign (set_our_turn _)) => apply emits_flag; intros; cbn; auto
  | |- emits _ _ (assign (set_tty_active _)) => apply emits_flag; intros; cbn; auto
  | |- emits _ _ (printf _ _) => apply emits_emit; apply P_printf
  | |- emits _ _ (fprintf_stderr _ _) => apply emits_emit; apply P_stderr
  | |- emits _ _ fflush_stdout => apply emits_emit; apply P_fflush
  | |- emits _ _ ami_disconnect => apply emits_emit; apply P_disconnect
  | |- emits _ _ block => apply emits_block
  | |- emits _ _ undefined => apply emits_undefined
  | |- emits _ _ (strdup _) => apply emits_strdup
  | |- emits _ _ (read _) => apply emits_read
  | |- emits _ _ (fgets _) => apply emits_fgets
  | |- emits _ _ (if ?b then _ else _) => destruct b eqn:?
  | |- emits _ _ (match ?x with _ => _ end) => destruct x
  end.

Lemma emits_ami_callback (event : ami_event) : emits J P (ami_callback event).
Proof. unfold ami_callback. repeat emits_step. Qed.

Lemma emits_simple_disconnect_callback : emits J P simple_disconnect_callback.
Proof. unfold simple_disconnect_callback. repeat emits_step. Qed.

Lemma emits_restore_term (num : Z) : emits J P (restore_term num).
Proof.
  unfold restore_term.
  apply emits_bind; [emits_step | intros _].
  apply emits_var_bind. intros w.
  apply emits_at_bind; [apply emits_at_tcsetattr, P_origterm | intros _].
  repeat emits_step.
Qed.

Lemma emits_asynchronous (e : sched_event) : emits J P (asynchronous e).
Proof.
  destruct e; cbn [asynchronous].
  - apply emits_ret.
  - apply emits_ami_callback.
  - apply emits_simple_disconnect_callback.
  - apply emits_restore_term.
Qed.

Lemma emits_wait_for_input (timeout : Z) (sched : list sched_event) :
  emits J P (wait_for_input timeout sched).
Proof.
  induction sched as [|e sched IH]; cbn [wait_for_input]; [apply emits_block|].
  destruct e as [[| | |]| | |];
    repeat first [ apply IH | apply emits_asynchronous | emits_step ].
Qed.

(** *** The relay *)

Hypothesis P_usleep : forall usec, P (Usleep usec).
Hypothesis P_ttyterm : forall w, J w -> P (Tcsetattr (ttyterm (vars w))).
Hypothesis P_text :
  forall w typed, J w -> P (TDDTX (ttychan (vars w)) (spaces_to_underscores typed)).
Hypothesis P_tone :
  forall w digit, J w -> IS_DTMF digit = true -> P (PLAYDTMF (ttychan (vars w)) digit).

Lemma emits_send_dtmf (digit : ascii) : IS_DTMF digit = true -> emits J P (send_dtmf digit).
Proof.
  intros Hd. unfold send_dtmf. apply emits_var_bind. intros w HJ.
  apply emits_ami_action; [|exact HJ]. apply P_tone; assumption.
Qed.

Lemma emits_send_msg (typed : string) : emits J P (send_msg typed).
Proof.
  unfold send_msg. apply emits_bind; [emits_step | intros [dup|]]; [|apply emits_ret].
  apply emits_var_bind. intros w HJ. revert HJ.
  apply emits_at_bind.
  - intros HJ. apply emits_ami_action; [|exact HJ]. apply P_text. exact HJ.
  - intros res. repeat emits_step.
Qed.

Lemma emits_send_number (digits : list ascii) : emits J P (send_number digits).
Proof.
  induction digits as [|c rest IH]; cbn [send_number]; [apply emits_undefined|].
  destruct (Ascii.eqb c NUL); [apply emits_ret|].
  destruct (IS_DTMF c) eqn:Ed; [|exact IH].
  apply emits_bind; [apply emits_send_dtmf; exact Ed | intros res].
  destruct (negb (res =? 0)); [apply emits_ret|].
  apply emits_bind; [apply emits_emit, P_usleep | intros _; exact IH].
Qed.

Lemma emits_control_action (key : ascii) (l : locals) : emits J P (control_action key l).
Proof.
  unfold control_action.
  destruct (Ascii.eqb key "q" || Ascii.eqb key "Q"); [apply emits_ret|].
  destruct (Ascii.eqb key "h" || Ascii.eqb key "H"); [repeat emits_step|].
  destruct (Ascii.eqb key "d"); [apply emits_ret|].
  destruct (Ascii.eqb key "1").
  { apply emits_bind; [emits_step | intros _].
    apply emits_bind; [emits_step | intros _].
    apply emits_var_bind. intros w.
    apply emits_at_bind; [apply emits_at_tcsetattr, P_origterm | intros _].
    apply emits_bind; [emits_step | intros digits_read].
    apply emits_var_bind. intros w1.
    apply emits_at_bind; [apply emits_at_tcsetattr, P_ttyterm | intros _].
    repeat first [ apply emits_send_number | emits_step ]. }
  destruct (Ascii.eqb key "2"); [apply emits_ret|].
  destruct (Ascii.eqb key "4"); [repeat first [ apply emits_send_msg | emits_step ]|].
  destruct (Ascii.eqb key "8"); repeat emits_step.
Qed.

Lemma emits_handle_input_ready (l : locals) : emits J P (handle_input_ready l).
Proof.
  unfold handle_input_ready.
  apply emits_bind; [emits_step | intros [[|key more]|]]; try apply emits_ret.
  destruct (Ascii.eqb key KEY_ESCAPE); [apply emits_ret|].
  cbv zeta.
  destruct (negb (got_escape l =? 0)); [apply emits_control_action|].
  destruct (negb (dtmf_mode l =? 0)); cbn [andb].
  - destruct (IS_DTMF key) eqn:Ed.
    + apply emits_bind; [apply emits_send_dtmf; exact Ed | intros res]. repeat emits_step.
    + apply emits_bind; [apply emits_send_msg | intros res]. repeat emits_step.
  - apply emits_bind; [apply emits_send_msg | intros res]. repeat emits_step.
Qed.

Lemma emits_handle_input_loop (sched : list sched_event) (l : locals) :
  emits J P (handle_input_loop sched l).
Proof.
  revert l. induction sched as [|e sched IH]; intros l;
    cbn [handle_input_loop]; [apply emits_block|].
  destruct e as [[| | |]| | |];
    repeat first [ apply IH | apply emits_handle_input_ready
                 | apply emits_asynchronous | emits_step ].
Qed.

(** *** The selection *)

Hypothesis P_show : P AmiShowChannels.
Hypothesis J_ttychan :
  forall (id : string) w, J w -> J (set_vars (set_ttychan id (vars w)) w).

Lemma emits_show_channels : emits J P ami_action_show_channels.
Proof.
  apply (emits_logged AmiShowChannels); [exact P_show|].
  intros w. unfold ami_action_show_channels. cbn. destruct (chan_lists w); cbn; auto.
Qed.

Lemma emits_print_channels_from (n : nat) (k : Z) (listing : ami_response) :
  emits J P (print_channels_from n k listing).
Proof.
  revert k. induction n as [|n IH]; intros k; cbn [print_channels_from]; [apply emits_ret|].
  unfold print_channel. repeat first [ apply IH | emits_step ].
Qed.

Lemma emits_get_channel_refresh (l : selection) : emits J P (get_channel_refresh l).
Proof.
  unfold get_channel_refresh, print_channels.
  repeat first [ apply emits_print_channels_from | apply emits_show_channels | emits_step ].
Qed.

Lemma emits_get_channel_end (res : Z) (l : selection) : emits J P (get_channel_end res l).
Proof.
  assert (Hset : forall id, emits J P (assign (set_ttychan id))).
  { intros id w HJ w' F. cbn in F. injection F as <-.
    split; [apply J_ttychan; exact HJ | exists []; cbn; now rewrite app_nil_r]. }
  unfold get_channel_end, strncpy_ttychan.
  repeat first [ apply Hset | emits_step ].
Qed.

Lemma emits_get_channel_select (line : string) (l : selection) :
  emits J P (get_channel_select line l).
Proof.
  unfold get_channel_select.
  repeat first [ apply emits_get_channel_end | emits_step ].
Qed.

Lemma emits_get_channel_pass (sched : list sched_event) (l : selection) :
  emits J P (get_channel_pass sched l).
Proof.
  unfold get_channel_pass.
  repeat first [ apply emits_get_channel_refresh | apply emits_wait_for_input
               | apply emits_get_channel_end | apply emits_get_channel_select
               | emits_step ].
Qed.

Lemma emits_get_channel_loop (fuel : nat) (sched : list sched_event) (l : selection) :
  emits J P (get_channel_loop fuel sched l).
Proof.
  revert sched l. induction fuel as [|fuel IH]; intros sched l; cbn [get_channel_loop].
  - intros w HJ w' F. discriminate F.
  - apply emits_bind; [apply emits_get_channel_pass|].
    intros [[l'|v] sched']; [apply IH | apply emits_ret].
Qed.

End Emits.

Lemma spaces_to_underscores_no_space (typed : string) :
  no_space (spaces_to_underscores typed).
Proof.
  intros n. rewrite spaces_to_underscores_get.
  destruct (String.get n typed) as [c|]; [|discriminate].
  cbn [option_map]. unfold respace.
  destruct (Ascii.eqb c " ") eqn:E; [discriminate|].
  apply Ascii.eqb_neq in E. congruence.
Qed.

(** X7.  Whatever is typed and whatever arrives during a relay, and however
    the relay ends, the only actions [handle_input] sends are TddTx and
    PlayDTMF for the selected channel; a TddTx message has no space in it,
    a PlayDTMF digit is one of 0-9, A-D, * and #; the terminal is only ever
    set to the saved or to the relay attributes, and the list of channels is
    not asked for. *)
Theorem handle_input_calls (sched : list sched_event) (w w' : world) :
  final (handle_input sched w) = Some w' ->
  exists added, trace w' = trace w ++ added /\ Forall (relay_call (vars w)) added.
Proof.
  intros F. unfold handle_input in F.
  refine (proj2 (emits_handle_input_loop (same_session (vars w)) (relay_call (vars w))
                   _ _ _ _ _ _ _ _ _ _ _ sched _ w _ w' F)).
  - intros u u' Hv. unfold same_session. now rewrite Hv.
  - intros set u Hset (H1 & H2 & H3). unfold same_session. cbn.
    destruct (Hset (vars u)) as (S1 & S2 & S3). split; [|split]; congruence.
  - intros; exact I.
  - intros; exact I.
  - exact I.
  - exact I.
  - intros u (H1 & H2 & H3). left. exact H2.
  - intros; exact I.
  - intros u (H1 & H2 & H3). right. exact H3.
  - intros u typed (H1 & H2 & H3). left. exists (spaces_to_underscores typed).
    rewrite H1. split; [reflexivity | apply spaces_to_underscores_no_space].
  - intros u digit (H1 & H2 & H3) Hd. right. exists digit. rewrite H1. auto.
  - split; [|split]; reflexivity.
Qed.

(** X8.  However a selection ends, [get_channel] sends no action to any
    channel: all it does is print, ask for the list of channels and, on the
    interrupt signal, set the terminal to the saved attributes and
    disconnect. *)
Theorem get_channel_calls (sched : list sched_event) (w w' : world) :
  final (get_channel sched w) = Some w' ->
  exists added, trace w' = trace w ++ added /\ Forall (prompt_call (vars w)) added.
Proof.
  intros F. unfold get_channel in F.
  refine (proj2 (emits_get_channel_loop (same_origterm (vars w)) (prompt_call (vars w))
                   _ _ _ _ _ _ _ _ _ _ _ _ w _ w' F)).
  - intros u u' Hv. unfold same_origterm. now rewrite Hv.
  - intros set u Hset H. unfold same_origterm in *. cbn.
    destruct (Hset (vars u)) as (S1 & S2 & S3). congruence.
  - intros; exact I.
  - intros; exact I.
  - exact I.
  - exact I.
  - intros u H. exact H.
  - exact I.
  - intros id u H. exact H.
  - reflexivity.
Qed.

(** ** Keys of a relay *)

Lemma handle_input_ready_escape (l : locals) (w : world) (q : list stdin_item) :
  stdin w = RdData [KEY_ESCAPE] :: q ->
  handle_input_ready l w = Ret (Continue (set_got_escape 1 l)) (set_stdin q w).
Proof. intros Hin. unfold handle_input_ready, bind, read. rewrite Hin. reflexivity. Qed.

Lemma handle_input_ready_command (key : ascii) (l : locals) (w : world) (q : list stdin_item) :
  key <> KEY_ESCAPE -> got_escape l <> 0 ->
  stdin w = RdData [key] :: q ->
  handle_input_ready l w = control_action key (set_got_escape 0 l) (set_stdin q w).
Proof.
  intros Hkey Hesc Hin. unfold handle_input_ready, bind, read. rewrite Hin.
  cbn [firstn skipn push_back].
  apply Ascii.eqb_neq in Hkey. rewrite Hkey.
  apply Z.eqb_neq in Hesc. rewrite Hesc. reflexivity.
Qed.

Lemma IS_DTMF_not_escape (key : ascii) : IS_DTMF key = true -> key <> KEY_ESCAPE.
Proof. intros H ->. discriminate H. Qed.

Lemma handle_input_ready_tone
  (key : ascii) (l : locals) (w : world) (q : list stdin_item) (res : Z) (rest : list Z) :
  got_escape l = 0 -> dtmf_mode l <> 0 -> IS_DTMF key = true ->
  stdin w = RdData [key] :: q ->
  ami_results w = res :: rest ->
  handle_input_ready l w
  = Ret (if res =? 0 then Continue l else Return (-1))
        (set_ami_results rest (add_trace [PLAYDTMF (ttychan (vars w)) key] (set_stdin q w))).
Proof.
  intros Hesc Hmode Hd Hin Hres. unfold handle_input_ready, bind at 1, read. rewrite Hin.
  cbn [firstn skipn push_back].
  pose proof (IS_DTMF_not_escape key Hd) as Hkey.
  apply Ascii.eqb_neq in Hkey. rewrite Hkey, Hesc. cbv zeta. cbn [Z.eqb negb].
  apply Z.eqb_neq in Hmode. rewrite Hmode, Hd. cbn [negb andb].
  unfold bind, send_dtmf, bind, var, ami_action. cbn [ami_results log set_stdin].
  rewrite Hres. destruct (res =? 0); cbn [negb]; unfold ret; apply Ret_ext;
    unfold PLAYDTMF; same_world.
Qed.

(** X9.  ESC d switches a relay in text mode to DTMF mode: the next key, if
    it is a DTMF character, goes out as one PlayDTMF action and nothing
    else (no TddTx, no echo, no turn label); when that action fails the
    relay ends with -1 and prints no notice.  ESC d a second time switches
    back, so that ESC d ESC d leaves the relay as it was. *)
Theorem dtmf_mode_toggle
  (key : ascii) (q : list stdin_item) (l : locals) (w : world)
  (sched : list sched_event) :
  got_escape l = 0 ->
  dtmf_mode l = 0 ->
  IS_DTMF key = true ->
  (forall (res : Z) (rest : list Z),
     stdin w = RdData [KEY_ESCAPE] :: RdData ["d"%char] :: RdData [key] :: q ->
     ami_results w = res :: rest ->
     handle_input_loop (Poll PollReady :: Poll PollReady :: Poll PollReady :: sched) l w
     = (if res =? 0 then handle_input_loop sched (set_dtmf_mode 1 l) else ret (-1, sched))
         (set_ami_results rest
            (add_trace [PLAYDTMF (ttychan (vars w)) key] (set_stdin q w))))
  /\ (stdin w = RdData [KEY_ESCAPE] :: RdData ["d"%char]
                :: RdData [KEY_ESCAPE] :: RdData ["d"%char] :: q ->
      handle_input_loop (Poll PollReady :: Poll PollReady :: Poll PollReady
                         :: Poll PollReady :: sched) l w
      = handle_input_loop sched l (set_stdin q w)).
Proof.
  intros Hesc Hmode Hd.
  assert (Hon : forall q1 u, stdin u = RdData [KEY_ESCAPE] :: RdData ["d"%char] :: q1 ->
                forall s k,
                handle_input_loop (Poll PollReady :: Poll PollReady :: s) k u
                = handle_input_loop s
                    (set_dtmf_mode (if negb (dtmf_mode k =? 0) then 0 else 1)
                                   (set_got_escape 0 k))
                    (set_stdin q1 u)).
  { intros q1 u Hu s k. cbn [handle_input_loop]. unfold bind at 1.
    rewrite (handle_input_ready_escape k u _ Hu). unfold bind at 1.
    rewrite (handle_input_ready_command "d" (set_got_escape 1 k) (set_stdin _ u) q1);
      [reflexivity | discriminate | discriminate | reflexivity]. }
  destruct l as [m e d]. cbn [got_escape dtmf_mode] in Hesc, Hmode. subst m e.
  split.
  - intros res rest Hin Hres. rewrite (Hon _ w Hin). cbn [dtmf_mode Z.eqb negb].
    cbn [handle_input_loop]. unfold bind.
    rewrite (handle_input_ready_tone key _ (set_stdin _ w) q res rest);
      [ | reflexivity | discriminate | exact Hd | reflexivity | exact Hres ].
    destruct (res =? 0); reflexivity.
  - intros Hin. rewrite (Hon _ w Hin). cbn [dtmf_mode Z.eqb negb].
    rewrite (Hon q (set_stdin _ w)) by reflexivity. reflexivity.
Qed.

(** X10.  ESC 1 with an entry that a NUL follows in [dialnum] (a first entry
    on a zeroed array, or an entry no shorter than the one before) plays
    the DTMF characters of that entry, in order, each followed by the wait,
    and nothing more; the terminal is set to the saved attributes for the
    read and is back on the relay attributes afterwards. *)
Theorem dial_plays_entry
  (entry junk : list ascii) (q : list stdin_item) (l : locals) (w : world) (rest : list Z) :
  entry <> [] ->
  (List.length entry <= DIALNUM_SIZE)%nat ->
  Forall (fun c => c <> NUL) entry ->
  skipn (List.length entry) (dialnum l) = NUL :: junk ->
  stdin w = RdData entry :: q ->
  ami_results w = repeat 0 (dtmf_count entry) ++ rest ->
  control_action "1" l w
  = Ret (Continue (set_dialnum (entry ++ NUL :: junk) l))
        (set_ami_results rest
           (add_trace ([Printf (nl +++ "NBR: ") []; Fflush;
                        Tcsetattr (origterm (vars w)); Tcsetattr (ttyterm (vars w))]
                       ++ tones (ttychan (vars w)) entry)
                      (set_term (ttyterm (vars w)) (set_stdin q w)))).
Proof.
  intros Hne Hlen Hnz Hnul Hin Hres.
  unfold control_action. cbn [Ascii.eqb Bool.eqb orb andb].
  unfold bind, printf, fflush_stdout, emit, var, tcsetattr, read.
  cbn [stdin log set_term]. rewrite Hin.
  rewrite firstn_all2 by exact Hlen.
  rewrite skipn_all2 by exact Hlen. cbn [push_back].
  destruct entry as [|c entry']; [contradiction|].
  cbn [dialnum set_dialnum]. unfold store. rewrite Hnul.
  rewrite (send_number_terminated (c :: entry') junk _ rest Hnz);
    [|fields; exact Hres].
  unfold ret. apply Ret_ext. same_world.
Qed.

(** ** Text on the wire *)

Lemma unspace_respace (c : ascii) : unspace (respace c) = unspace c.
Proof.
  unfold unspace, respace. destruct (Ascii.eqb c " ") eqn:E; [|reflexivity].
  apply Ascii.eqb_eq in E. subst c. reflexivity.
Qed.

(** X11.  The two substitutions undo each other: a message on the wire (no
    space in it) that is decoded for display and encoded again is the same
    message, and text without underscore that is encoded for the wire is
    displayed as it was typed.  An underscore that was typed comes out as a
    space. *)
Theorem wire_round_trip (s : string) :
  underscores_to_spaces (spaces_to_underscores s) = underscores_to_spaces s
  /\ ((forall n, String.get n s <> Some "_"%char) ->
      underscores_to_spaces (spaces_to_underscores s) = s)
  /\ (no_space s -> spaces_to_underscores (underscores_to_spaces s) = s).
Proof.
  induction s as [|c s (IH1 & IH2 & IH3)]; [repeat split; reflexivity|].
  cbn [underscores_to_spaces spaces_to_underscores].
  split; [|split].
  - rewrite IH1. f_equal.
    destruct (Ascii.eqb c " ") eqn:E; [|reflexivity].
    apply Ascii.eqb_eq in E. subst c. reflexivity.
  - intros H. rewrite IH2 by (intros n; exact (H (S n))). f_equal.
    destruct (Ascii.eqb c " ") eqn:E.
    + apply Ascii.eqb_eq in E. subst c. reflexivity.
    + destruct (Ascii.eqb c "_") eqn:E'; [|reflexivity].
      apply Ascii.eqb_eq in E'. subst c. exfalso. exact (H O eq_refl).
  - intros H. rewrite IH3 by (intros n; exact (H (S n))). f_equal.
    destruct (Ascii.eqb c "_") eqn:E.
    + apply Ascii.eqb_eq in E. subst c. reflexivity.
    + destruct (Ascii.eqb c " ") eqn:E'; [|reflexivity].
      apply Ascii.eqb_eq in E'. subst c. exfalso. exact (H O eq_refl).
Qed.

(** X12.  [IS_DTMF] holds of the sixteen characters 0-9, A-D, * and # and
    of no other: lower-case a-d are not DTMF characters. *)
Theorem IS_DTMF_characters (x : ascii) :
  IS_DTMF x = true <-> In x DTMF_CHARACTERS.
Proof.
  assert (H : IS_DTMF x = existsb (Ascii.eqb x) DTMF_CHARACTERS).
  { destruct x as [[] [] [] [] [] [] [] []]; vm_compute; reflexivity. }
  rewrite H. split.
  - intros E. apply existsb_exists in E. destruct E as (y & Hy & Exy).
    apply Ascii.eqb_eq in Exy. now subst y.
  - intros Hin. apply existsb_exists. exists x. split; [exact Hin | apply Ascii.eqb_refl].
Qed.

(** ** When the directory does not answer *)




(** ** Events that lack a field *)

(** X14.  [ami_callback] compares the fields of an event without looking
    whether they are there.  An event without Event is harmless only while
    the phase is 0; from phase 1 on the comparison reads through a null
    pointer, and so does that of Channel, in phase 2, of a TddRxMsg event
    that has none. *)
Theorem ami_callback_missing_field (event : ami_event) (w : world) :
  (ami_keyvalue event "Event" = None ->
   ami_callback event w = (if tty_active (vars w) <? 1 then Ret tt w else Undefined w))
  /\ (ami_keyvalue event "Event" = Some "TddRxMsg" ->
      ami_keyvalue event "Channel" = None ->
      2 <= tty_active (vars w) ->
      ami_callback event w = Undefined w).
Proof.
  split.
  - intros Hev. unfold ami_callback, bind, var. rewrite Hev. cbn [deref].
    destruct (tty_active (vars w) =? 1) eqn:E1.
    + apply Z.eqb_eq in E1. rewrite E1. reflexivity.
    + unfold ret at 1. destruct (tty_active (vars w) <? 2) eqn:E2.
      * apply Z.eqb_neq in E1. apply Z.ltb_lt in E2.
        destruct (tty_active (vars w) <? 1) eqn:E3; [reflexivity|].
        apply Z.ltb_ge in E3. lia.
      * apply Z.ltb_ge in E2.
        destruct (tty_active (vars w) <? 1) eqn:E3; [apply Z.ltb_lt in E3; lia|].
        reflexivity.
  - intros Hev Hch Hact. unfold ami_callback, bind, var. rewrite Hev, Hch. cbn [deref].
    destruct (tty_active (vars w) =? 1) eqn:E1; [apply Z.eqb_eq in E1; lia|].
    unfold ret at 1.
    destruct (tty_active (vars w) <? 2) eqn:E2; [apply Z.ltb_lt in E2; lia|].
    reflexivity.
Qed.

(** ** The properties at concrete inputs *)

Lemma ttyspy_restores_terminal_witness :
  Forall not_disconnected [Sigint]
  /\ ttyspy [Sigint] (demo_start EmptyString) = Exited EXIT_FAILURE demo_interrupt_end
  /\ term demo_interrupt_end = demo_term.
Proof.
  assert (Hok : Forall not_disconnected [Sigint]) by (repeat constructor; discriminate).
  assert (Hrun : ttyspy [Sigint] (demo_start EmptyString)
                 = Exited EXIT_FAILURE demo_interrupt_end) by (vm_compute; reflexivity).
  split; [exact Hok|]. split; [exact Hrun|].
  pose proof (ttyspy_restores_terminal [Sigint] (demo_start EmptyString) Hok) as H.
  rewrite Hrun in H. exact (proj2 H).
Defined.

Lemma handle_input_frame_witness :
  handle_input demo_chat_sched demo_chat = Ret (-1, []) demo_chat_end
  /\ ttychan (vars demo_chat_end) = "SIP/bob-02"
  /\ tty_active (vars demo_chat_end) = 2
  /\ term demo_chat_end = ttyterm (vars demo_chat_end).
Proof.
  assert (Hrun : handle_input demo_chat_sched demo_chat = Ret (-1, []) demo_chat_end)
    by (vm_compute; reflexivity).
  split; [exact Hrun|].
  destruct (handle_input_frame demo_chat_sched [] demo_chat demo_chat_end (-1) Hrun)
    as (H1 & H2 & _ & _ & H5).
  split; [exact H1|]. split; [exact H2|]. apply H5. reflexivity.
Defined.

Lemma ttyspy_pass_again_witness :
  ttyspy_pass [Poll PollReady; Poll PollReady] demo_hangup = Ret (true, []) demo_hangup_end
  /\ ttychan (vars demo_hangup_end) = EmptyString
  /\ tty_active (vars demo_hangup_end) = 2
  /\ Z.land (c_lflag (term demo_hangup_end)) ICANON = 0
  /\ Z.land (c_lflag (term demo_hangup_end)) ECHO = 0.
Proof.
  assert (Hrun : ttyspy_pass [Poll PollReady; Poll PollReady] demo_hangup
                 = Ret (true, []) demo_hangup_end) by (vm_compute; reflexivity).
  split; [exact Hrun|].
  destruct (ttyspy_pass_again [Poll PollReady; Poll PollReady] [] demo_hangup demo_hangup_end
              Hrun) as (H1 & H2 & _ & H4 & H5 & _).
  split; [exact H1|]. split; [exact H2|]. split; [exact H4 | exact H5].
Defined.

Lemma ami_callback_ignores_witness :
  ami_keyvalue (demo_text "hi") "Event" = Some "TddRxMsg"
  /\ ami_callback (demo_text "hi") (demo_world "SIP/alice-01" 2)
     = Ret tt (demo_world "SIP/alice-01" 2)
  /\ ami_callback demo_hangup_event demo_relay = Ret tt demo_relay
  /\ ami_callback demo_hangup_event demo_query = Ret tt (refresh_wanted demo_query).
Proof.
  split; [reflexivity|]. split; [|split].
  - apply (ami_callback_ignores (demo_text "hi") (demo_world "SIP/alice-01" 2) "TddRxMsg");
      [reflexivity|].
    right. right. exists "SIP/bob-02". split; [reflexivity | discriminate].
  - apply (ami_callback_ignores demo_hangup_event demo_relay "Hangup"); [reflexivity|].
    right. left. discriminate.
  - apply (ami_callback_ignores demo_hangup_event demo_query "Hangup"); [reflexivity|].
    left. cbn. lia.
Defined.

Lemma prompt_refresh_on_event_witness :
  topology_event "Hangup" = true
  /\ new_channel (vars demo_query) = 0
  /\ always_refresh (vars demo_query) = 0
  /\ get_channel_pass [Poll PollTimeout] demo_selection demo_query
     = Ret (Continue demo_selection, []) demo_query
  /\ get_channel_pass [AmiEvent demo_hangup_event; Poll PollTimeout] demo_selection demo_query
     = Ret (Continue demo_selection, []) (refresh_wanted demo_query).
Proof.
  split; [reflexivity|]. split; [reflexivity|]. split; [reflexivity|].
  destruct (prompt_refresh_on_event demo_hangup_event "Hangup" [] demo_selection demo_query
              eq_refl eq_refl eq_refl eq_refl) as (H1 & H2 & _).
  split; [exact H1 | exact H2].
Defined.

Lemma get_channel_returns_offered_witness :
  get_channel [Poll PollReady] demo_pick = Ret (0, []) demo_pick_end
  /\ ttychan (vars demo_pick_end) = "SIP/bob-02"
  /\ offered demo_pick "SIP/bob-02".
Proof.
  assert (Hrun : get_channel [Poll PollReady] demo_pick = Ret (0, []) demo_pick_end)
    by (vm_compute; reflexivity).
  split; [exact Hrun|]. split; [reflexivity|].
  destruct (get_channel_returns_offered [Poll PollReady] [] demo_pick demo_pick_end 0 Hrun)
    as (_ & _ & _ & [[Hv _]|[_ Hoff]]); [discriminate Hv | exact Hoff].
Defined.

Lemma handle_input_calls_witness :
  final (handle_input demo_chat_sched demo_chat) = Some demo_chat_end
  /\ exists added,
       trace demo_chat_end = trace demo_chat ++ added
       /\ Forall (relay_call (vars demo_chat)) added.
Proof.
  assert (Hrun : final (handle_input demo_chat_sched demo_chat) = Some demo_chat_end)
    by (vm_compute; reflexivity).
  split; [exact Hrun|].
  exact (handle_input_calls demo_chat_sched demo_chat demo_chat_end Hrun).
Defined.

Lemma get_channel_calls_witness :
  final (get_channel [Poll PollReady] demo_pick) = Some demo_pick_end
  /\ exists added,
       trace demo_pick_end = trace demo_pick ++ added
       /\ Forall (prompt_call (vars demo_pick)) added.
Proof.
  assert (Hrun : final (get_channel [Poll PollReady] demo_pick) = Some demo_pick_end)
    by (vm_compute; reflexivity).
  split; [exact Hrun|].
  exact (get_channel_calls [Poll PollReady] demo_pick demo_pick_end Hrun).
Defined.

Lemma dtmf_mode_toggle_witness :
  IS_DTMF "5" = true
  /\ handle_input_loop [Poll PollReady; Poll PollReady; Poll PollReady] (mk_locals 0 0 [])
                       demo_tone
     = Blocked (add_trace [PLAYDTMF "SIP/bob-02" "5"] demo_relay).
Proof.
  split; [reflexivity|].
  destruct (dtmf_mode_toggle "5" [] (mk_locals 0 0 []) demo_tone [] eq_refl eq_refl eq_refl)
    as (Htone & _).
  rewrite (Htone 0 [] eq_refl eq_refl). reflexivity.
Defined.

Lemma dial_plays_entry_witness :
  stdin demo_dial = [RdData (bytes ("1800#" +++ nl))]
  /\ exists w' : world,
       control_action "1" (mk_locals 0 0 (repeat NUL 64)) demo_dial
       = Ret (Continue (mk_locals 0 0 (bytes ("1800#" +++ nl) ++ repeat NUL 58))) w'
       /\ played (trace w') = bytes "1800#"
       /\ term w' = ttyterm (vars demo_dial).
Proof.
  split; [reflexivity|].
  assert (Hne : bytes ("1800#" +++ nl) <> []) by discriminate.
  assert (Hlen : (List.length (bytes ("1800#" +++ nl)) <= DIALNUM_SIZE)%nat)
    by (apply Nat.leb_le; reflexivity).
  assert (Hnz : Forall (fun c => c <> NUL) (bytes ("1800#" +++ nl)))
    by (repeat constructor; discriminate).
  pose proof (dial_plays_entry (bytes ("1800#" +++ nl)) (repeat NUL 57) []
                (mk_locals 0 0 (repeat NUL 64)) demo_dial []
                Hne Hlen Hnz eq_refl eq_refl eq_refl) as Hrun.
  eexists. split; [exact Hrun|]. split; reflexivity.
Defined.

Lemma wire_round_trip_witness :
  underscores_to_spaces (spaces_to_underscores "HELLO GA") = "HELLO GA"
  /\ spaces_to_underscores (underscores_to_spaces "HELLO_GA") = "HELLO_GA".
Proof.
  destruct (wire_round_trip "HELLO GA") as (_ & Hshow & _).
  destruct (wire_round_trip "HELLO_GA") as (_ & _ & Hwire).
  split.
  - apply Hshow. intros n.
    do 8 (destruct n as [|n]; [discriminate|]). discriminate.
  - apply Hwire. intros n.
    do 8 (destruct n as [|n]; [discriminate|]). discriminate.
Defined.


Lemma ami_callback_missing_field_witness :
  ami_keyvalue [("Response", "Success")] "Event" = None
  /\ ami_callback [("Response", "Success")] demo_query = Undefined demo_query
  /\ ami_callback [("Event", "TddRxMsg")] demo_relay = Undefined demo_relay.
Proof.
  split; [reflexivity|].
  destruct (ami_callback_missing_field [("Response", "Success")] demo_query) as (Hev & _).
  destruct (ami_callback_missing_field [("Event", "TddRxMsg")] demo_relay) as (_ & Hch).
  split.
  - rewrite (Hev eq_refl). reflexivity.
  - apply Hch; [reflexivity | reflexivity | cbn; lia].
Defined.
